(** * The progress engine of [statsService.ts]

    A shallow embedding of [src/services/statsService.ts] (experience,
    levels, badges, explored topics, message counts over the Supabase
    table [user_stats]) and the properties the specification states
    about it.

    Conventions of the embedding:
    - JavaScript numbers are IEEE 754 doubles.  The engine is embedded
      over the integers ([Z]): the counters of the store are integers, and
      double arithmetic on integers is exact while they stay within
      2^53 - 1 in magnitude ([Number.MAX_SAFE_INTEGER]).  The one real
      division, in [calculateLevel], is carried out in [Q] and then
      floored.  The two level functions are embedded a second time over
      the doubles themselves, in [Number], with the binary64 operations
      of the Standard Library; there they are shown to agree with the
      integer functions on the safe integers, and to round beyond them.
    - A string is held by the bytes of its UTF-8 encoding; white space is
      what [String.prototype.trim] removes, ASCII or not.
    - An [async] function is a state transformer over a [World] that
      either fulfils with a value or rejects with an [Error]; [await]
      is the monadic bind, so a rejection skips the rest of the caller.
    - The Supabase table is a finite map from [user_id] to its row.  A
      request can fail: the [World] carries the outcome of the upcoming
      requests, one entry consumed per request.  [.single()] on a user
      without a row is an error; [.update()] on a user without a row
      changes nothing and is not one.
    - [getUserId] (of [authService.ts], which is not among the sources)
      resolves to the id of the signed-in user or to [null], and does not
      fail.  The clock does not move during a call.
    - [INITIAL_BADGES] (from [constants.ts]) and the [Badge] and
      [UserStats] types (from [types.ts]) are imported by the source;
      the catalog is a parameter of the development, and the records
      hold the fields the service reads and writes.
    - [getLeaderboard], a read over all rows for display, is not an
      operation of the engine in the specification; the reply of the
      store to its query (order, limit) is [select_top]. *)

From Stdlib Require Import ZArith QArith Qround Lia Ascii String SpecFloat.
From stdpp Require Import base tactics option list strings gmap pretty sorting.

Close Scope Q_scope.
Open Scope string_scope.
Open Scope Z_scope.

(** ** Data model *)

(** [Badge] of [types.ts]; the spread [{ ...badge, unlocked: v }] is
    [Badge.with_unlocked v badge]. *)
Module Badge.
Record t := mk { id : string; name : string; unlocked : bool }.
Definition with_unlocked (v : bool) (b : t) : t :=
  {| id := id b; name := name b; unlocked := v |}.
End Badge.

(** An element of the JSONB column [badges_unlocked], as
    [updateUserStats] writes it. *)
Module UnlockedBadge.
Record t := mk { id : string; name : string; unlockedAt : string }.
End UnlockedBadge.

(** [UserStats] of [types.ts]. *)
Module UserStats.
Record t := mk {
  experience : Z;
  level : Z;
  badges : list Badge.t;
  nextLevelXP : Z;
  topicsExplored : list string;
  messagesCount : Z }.
End UserStats.

(** A row of [user_stats] ([Database.public.Tables.user_stats.Row]), keyed
    by [user_id] in the table.  The two columns the service reads with
    [|| []] may be [null] ([None]). *)
Module Row.
Record t := mk {
  experience_points : Z;
  level : Z;
  total_messages : Z;
  badges_unlocked : option (list UnlockedBadge.t);
  topics_explored : option (list string);
  last_message_at : option string }.
End Row.

(** The partial row sent by [.update(...)]: an absent key is [None]. *)
Module UpdateData.
Record t := mk {
  experience_points : option Z;
  level : option Z;
  total_messages : option Z;
  badges_unlocked : option (list UnlockedBadge.t);
  topics_explored : option (list string);
  last_message_at : option string }.

Definition empty : t := mk None None None None None None.

(** What the store does with a partial row. *)
Definition apply (u : t) (r : Row.t) : Row.t :=
  {| Row.experience_points := default (Row.experience_points r) (experience_points u);
     Row.level := default (Row.level r) (level u);
     Row.total_messages := default (Row.total_messages r) (total_messages u);
     Row.badges_unlocked :=
       match badges_unlocked u with Some l => Some l | None => Row.badges_unlocked r end;
     Row.topics_explored :=
       match topics_explored u with Some l => Some l | None => Row.topics_explored r end;
     Row.last_message_at :=
       match last_message_at u with Some s => Some s | None => Row.last_message_at r end |}.
End UpdateData.

(** The argument of [updateUserStats]: [Partial<{...}>], an [undefined]
    field is [None]. *)
Module Updates.
Record t := mk {
  experience : option Z;
  level : option Z;
  badges : option (list Badge.t);
  topicsExplored : option (list string);
  messagesCount : option Z }.

Definition none : t := mk None None None None None.
End Updates.

(** The value [processUserInteraction] resolves to. *)
Module Interaction.
Record t := mk { newBadges : list Badge.t; leveledUp : bool }.
End Interaction.

(** An element of what [getLeaderboard] resolves to: the columns
    [user_id, experience_points, level, total_messages] of a row. *)
Module LeaderboardEntry.
Record t := mk {
  user_id : string;
  experience_points : Z;
  level : Z;
  total_messages : Z }.
End LeaderboardEntry.

(** ** The world an [async] function runs in *)

Record World := mkWorld {
  session : option string;            (* what [getUserId()] resolves to *)
  user_stats : gmap string Row.t;     (* the table [user_stats] *)
  faults : list (option string);      (* upcoming requests: [Some msg] fails with [msg] *)
  clock_iso : string;                 (* [new Date().toISOString()] *)
  clock_hours : Z;                    (* [new Date().getHours()] *)
  console : list (string * string)    (* [console.error] lines, newest first *)
}.

Definition with_table (t : gmap string Row.t) (w : World) : World :=
  mkWorld (session w) t (faults w) (clock_iso w) (clock_hours w) (console w).
Definition with_faults (f : list (option string)) (w : World) : World :=
  mkWorld (session w) (user_stats w) f (clock_iso w) (clock_hours w) (console w).
Definition with_console (c : list (string * string)) (w : World) : World :=
  mkWorld (session w) (user_stats w) (faults w) (clock_iso w) (clock_hours w) c.

(** What a rejected promise carries.  The source throws
    [new Error('User not authenticated')] and [new Error(error.message)];
    reading [.unlocked] of [undefined] throws a [TypeError]. *)
Inductive Error :=
| AuthenticationRequired
| StoreUnavailable (message : string)
| TypeError.

Definition error_message (e : Error) : string :=
  match e with
  | AuthenticationRequired => "User not authenticated"
  | StoreUnavailable message => message
  | TypeError => "Cannot read properties of undefined"
  end.

Inductive Settled (A : Type) :=
| Fulfilled (a : A)
| Rejected (e : Error).
Arguments Fulfilled {A} a.
Arguments Rejected {A} e.

Definition Promise (A : Type) : Type := World → Settled A * World.

Definition resolve {A} (a : A) : Promise A := λ w, (Fulfilled a, w).
Definition throw {A} (e : Error) : Promise A := λ w, (Rejected e, w).
Definition await {A B} (m : Promise A) (k : A → Promise B) : Promise B :=
  λ w, match m w with
       | (Fulfilled a, w') => k a w'
       | (Rejected e, w') => (Rejected e, w')
       end.

#[export] Instance Promise_ret : MRet Promise := @resolve.
#[export] Instance Promise_bind : MBind Promise := λ A B k m, await m k.

(** [for (const x of xs) await f(x)] *)
Fixpoint for_of {A} (xs : list A) (f : A → Promise unit) : Promise unit :=
  match xs with
  | [] => resolve tt
  | x :: rest => f x;; for_of rest f
  end.

(** ** The collaborators: auth, clock, console, Supabase *)

Definition getUserId : Promise (option string) := λ w, (Fulfilled (session w), w).

(** [!userId] is false exactly for a non-empty string. *)
Definition truthy (userId : option string) : option string :=
  match userId with
  | Some "" => None
  | Some uid => Some uid
  | None => None
  end.

Definition toISOString : Promise string := λ w, (Fulfilled (clock_iso w), w).
Definition getHours : Promise Z := λ w, (Fulfilled (clock_hours w), w).

Definition console_error (label detail : string) : Promise unit :=
  λ w, (Fulfilled tt, with_console ((label, detail) :: console w) w).

(** The outcome of the next request, [None] when it goes through. *)
Definition next_fault (w : World) : option string * World :=
  match faults w with
  | [] => (None, w)
  | f :: rest => (f, with_faults rest w)
  end.

(** The error PostgREST reports when [.single()] does not find one row. *)
Definition no_rows : string := "JSON object requested, multiple (or no) rows returned".

(** [supabase.from('user_stats').select('*').eq('user_id', uid).single()]:
    [inr data] or [inl error]. *)
Definition select_single (uid : string) : Promise (string + Row.t) :=
  λ w, match next_fault w with
       | (Some msg, w') => (Fulfilled (inl msg), w')
       | (None, w') =>
           match user_stats w' !! uid with
           | Some data => (Fulfilled (inr data), w')
           | None => (Fulfilled (inl no_rows), w')
           end
       end.

(** [supabase.from('user_stats').update(u).eq('user_id', uid)]: the
    [error], if any.  Updating a key without a row changes nothing and is
    not an error. *)
Definition update_eq (uid : string) (u : UpdateData.t) : Promise (option string) :=
  λ w, match next_fault w with
       | (Some msg, w') => (Fulfilled (Some msg), w')
       | (None, w') =>
           (Fulfilled None,
            with_table (alter (UpdateData.apply u) uid (user_stats w')) w')
       end.

(** The columns the leaderboard query selects from the row of [uid]. *)
Definition entry_of (uid : string) (r : Row.t) : LeaderboardEntry.t :=
  LeaderboardEntry.mk uid (Row.experience_points r) (Row.level r) (Row.total_messages r).

(** [.order('experience_points', { ascending: false })]: [x] may come
    before [y]. *)
Definition richer (x y : LeaderboardEntry.t) : Prop :=
  LeaderboardEntry.experience_points y ≤ LeaderboardEntry.experience_points x.

#[export] Instance richer_dec : RelDecision richer :=
  λ x y, decide (LeaderboardEntry.experience_points y ≤ LeaderboardEntry.experience_points x).

(** [supabase.from('user_stats')
      .select('user_id, experience_points, level, total_messages')
      .order('experience_points', { ascending: false }).limit(limit)]:
    [inr data] or [inl error].  [limit] is a count.  The order among rows
    of equal experience is the store's; here it is the one [merge_sort]
    gives on the listing of the table. *)
Definition select_top (limit : nat) : Promise (string + list LeaderboardEntry.t) :=
  λ w, match next_fault w with
       | (Some msg, w') => (Fulfilled (inl msg), w')
       | (None, w') =>
           (Fulfilled
              (inr (take limit
                      (merge_sort richer
                         (map (λ kv, entry_of kv.1 kv.2) (map_to_list (user_stats w')))))),
            w')
       end.

(** ** Strings *)

(** A string is held by the bytes of its UTF-8 encoding. *)

Definition nl : string := String "010"%char "".

(** White space of [String.prototype.trim] (WhiteSpace and LineTerminator
    of ECMAScript), by the bytes of its UTF-8 encoding.  In one byte: tab,
    line feed, vertical tab, form feed, carriage return, space. *)
Definition is_space (c : ascii) : bool :=
  let n := nat_of_ascii c in
  ((n =? 32) || ((9 <=? n) && (n <=? 13)))%nat.

(** In two bytes: U+00A0, the no-break space. *)
Definition is_space2 (c1 c2 : ascii) : bool :=
  ((nat_of_ascii c1 =? 194) && (nat_of_ascii c2 =? 160))%nat.

(** In three bytes: U+1680; U+2000 to U+200A, U+2028, U+2029 and U+202F;
    U+205F; U+3000; U+FEFF. *)
Definition is_space3 (c1 c2 c3 : ascii) : bool :=
  let n1 := nat_of_ascii c1 in
  let n2 := nat_of_ascii c2 in
  let n3 := nat_of_ascii c3 in
  (((n1 =? 225) && (n2 =? 154) && (n3 =? 128))
   || ((n1 =? 226) && (n2 =? 128)
       && (((128 <=? n3) && (n3 <=? 138)) || (n3 =? 168) || (n3 =? 169) || (n3 =? 175)))
   || ((n1 =? 226) && (n2 =? 129) && (n3 =? 159))
   || ((n1 =? 227) && (n2 =? 128) && (n3 =? 128))
   || ((n1 =? 239) && (n2 =? 187) && (n3 =? 191)))%nat.

(** The string behind the white space character it starts with, if any. *)
Definition skip_space (s : string) : option string :=
  match s with
  | String c1 r1 =>
      if is_space c1 then Some r1
      else match r1 with
           | String c2 r2 =>
               if is_space2 c1 c2 then Some r2
               else match r2 with
                    | String c3 r3 => if is_space3 c1 c2 c3 then Some r3 else None
                    | "" => None
                    end
           | "" => None
           end
  | "" => None
  end.

Fixpoint trimStart (s : string) : string :=
  match s with
  | String c1 r1 =>
      if is_space c1 then trimStart r1
      else match r1 with
           | String c2 r2 =>
               if is_space2 c1 c2 then trimStart r2
               else match r2 with
                    | String c3 r3 => if is_space3 c1 c2 c3 then trimStart r3 else s
                    | "" => s
                    end
           | "" => s
           end
  | "" => ""
  end.

(** Nothing but white space. *)
Definition blank (s : string) : bool :=
  match trimStart s with "" => true | _ => false end.

(** The end of the string is cut where only white space follows. *)
Fixpoint trimEnd (s : string) : string :=
  match s with
  | "" => ""
  | String c rest => if blank s then "" else String c (trimEnd rest)
  end.

Definition trim (s : string) : string := trimEnd (trimStart s).

(** U+00A0, the no-break space. *)
Definition nbsp : string := String (ascii_of_nat 194) (String (ascii_of_nat 160) "").

(** ** Levels *)

(** [level * 100] on an integer; [Number.calculateNextLevelXP] is the same
    on doubles. *)
Definition calculateNextLevelXP (level : Z) : Z := level * 100.

(** [Math.floor(xp / 100) + 1] on an integer: a real division, then the
    floor.  [Number.calculateLevel] is the same on doubles. *)
Definition calculateLevel (xp : Z) : Z :=
  Qfloor (inject_Z xp / inject_Z 100)%Q + 1.

(** ** Numbers of the code *)

(** A JavaScript number is an IEEE 754 double: a [spec_float] with the
    operations of binary64, rounding to nearest, ties to even.  The two
    level functions are embedded here a second time, over the doubles, to
    tell where the integer functions above are what the code computes. *)
Module Number.
Definition t := spec_float.
Definition prec : Z := 53.
Definition emax : Z := 1024.

(** [Number.MAX_SAFE_INTEGER] *)
Definition MAX_SAFE_INTEGER : Z := 2 ^ 53 - 1.

(** The double nearest to an integer, and the integer a double is, if it
    is one. *)
Definition of_Z (z : Z) : t := binary_normalize prec emax z 0 false.
Definition to_Z (x : t) : option Z :=
  match x with
  | S754_zero _ => Some 0
  | S754_finite s m e =>
      if 0 <=? e then Some (cond_Zopp s (Z.pos m * 2 ^ e))
      else if Z.pos m mod 2 ^ (- e) =? 0 then Some (cond_Zopp s (Z.pos m / 2 ^ (- e)))
      else None
  | _ => None
  end.

(** [x / y], [x * y] and [x + y] *)
Definition div : t → t → t := SFdiv prec emax.
Definition mul : t → t → t := SFmul prec emax.
Definition add : t → t → t := SFadd prec emax.

(** [Math.floor(x)]: a double with no fractional bit is its own floor. *)
Definition floor (x : t) : t :=
  match x with
  | S754_finite s m e =>
      if 0 <=? e then x
      else binary_normalize prec emax (cond_Zopp s (Z.pos m) / 2 ^ (- e)) 0 s
  | _ => x
  end.

(** [level * 100] *)
Definition calculateNextLevelXP (level : t) : t := mul level (of_Z 100).

(** [Math.floor(xp / 100) + 1] *)
Definition calculateLevel (xp : t) : t := add (floor (div xp (of_Z 100))) (of_Z 1).

(** The two columns [updateUserStats] sets from [updates.experience]:
    [experience_points] and [level]. *)
Definition experience_columns (experience : t) : t * t :=
  (experience, calculateLevel experience).
End Number.

(** An integer that every double computation of the engine keeps exact. *)
Definition safe (z : Z) : Prop := Z.abs z ≤ Number.MAX_SAFE_INTEGER.

#[export] Instance safe_dec z : Decision (safe z) := decide (Z.abs z ≤ Number.MAX_SAFE_INTEGER).

(** [xp] is the least experience whose level is [level]. *)
Definition entered_at (level xp : Z) : Prop :=
  calculateLevel xp = level ∧ ∀ xp', calculateLevel xp' = level → xp ≤ xp'.

(** "For every non-negative integer xp, computeLevel(xp) is
    floor(xp / 100) + 1", the integers being those a number can hold. *)
Definition calculateLevel_floor_everywhere : Prop :=
  ∀ xp, 0 ≤ xp → Number.to_Z (Number.of_Z xp) = Some xp →
    Number.to_Z (Number.calculateLevel (Number.of_Z xp)) = Some (xp / 100 + 1).

(** "nextLevelThreshold is level * 100 for every positive integer level",
    and "the returned value is the experience at which the current level
    was entered". *)
Definition threshold_exact_everywhere : Prop :=
  ∀ level, 0 < level → Number.to_Z (Number.of_Z level) = Some level →
    Number.to_Z (Number.calculateNextLevelXP (Number.of_Z level)) = Some (level * 100).

Definition threshold_enters_current_level : Prop :=
  ∀ level, 0 < level → entered_at level (calculateNextLevelXP level).

(** "Every engine operation that writes experience also writes
    level = floor(experience / 100) + 1 in the same store write". *)
Definition level_written_with_experience : Prop :=
  ∀ xp, Number.to_Z (Number.of_Z xp) = Some xp →
    Number.to_Z (Number.experience_columns (Number.of_Z xp)).2 = Some (xp / 100 + 1).

(** ** Specifications of promises *)

(** [hoare P m Q E]: started in a world that satisfies [P], the promise
    [m] settles; when it fulfils with [a] the world satisfies [Q a], when
    it rejects with [e] the world satisfies [E e]. *)
Definition hoare {A} (P : World → Prop) (m : Promise A)
    (Q : A → World → Prop) (E : Error → World → Prop) : Prop :=
  ∀ w, P w →
    match m w with
    | (Fulfilled a, w') => Q a w'
    | (Rejected e, w') => E e w'
    end.

(** Every upcoming request goes through. *)
Definition quiet (w : World) : Prop := Forall (λ f, f = None) (faults w).

(** The user [uid] is signed in, their row is [r], the clock reads [now]
    and [hours], and the store answers. *)
Definition serving (uid now : string) (hours : Z) (r : Row.t) (w : World) : Prop :=
  truthy (session w) = Some uid ∧ user_stats w !! uid = Some r ∧
  clock_iso w = now ∧ clock_hours w = hours ∧ quiet w.

(** The user [uid] is signed in and has no row; the store answers. *)
Definition rowless (uid : string) (w : World) : Prop :=
  truthy (session w) = Some uid ∧ user_stats w !! uid = None ∧ quiet w.

(** The stored level agrees with the stored experience, in every row. *)
Definition consistent (w : World) : Prop :=
  map_Forall (λ _ r, Row.level r = Row.experience_points r / 100 + 1) (user_stats w).

(** The stored experience is a safe integer, in every row. *)
Definition safe_table (w : World) : Prop :=
  map_Forall (λ _ r, safe (Row.experience_points r)) (user_stats w).

#[export] Instance safe_table_dec w : Decision (safe_table w).
Proof. unfold safe_table. apply _. Defined.

(** A partial row that carries experience carries its level as well, and
    carries no level otherwise. *)
Definition coherent (u : UpdateData.t) : Prop :=
  match UpdateData.experience_points u with
  | Some xp => UpdateData.level u = Some (xp / 100 + 1)
  | None => UpdateData.level u = None
  end.

(** The messages of the failed writes among the console lines. *)
Definition write_failures (lines : list (string * string)) : list string :=
  map snd
    (List.filter
       (λ line, String.eqb line.1 "Error updating user stats:"
                || String.eqb line.1 "Error resetting user stats:")
       lines).

(** A failed write is the one way the list of failed writes grows, and
    the operation then rejects with the failure. *)
Definition fail_closed {A} (before : list string) (res : Settled A) (w' : World) : Prop :=
  write_failures (console w') = before ∨
  ∃ msg, res = Rejected (StoreUnavailable msg) ∧
         write_failures (console w') = msg :: before.

(** The ids and the topics a row records. *)
Definition is_unlocked (badgeId : string) (r : Row.t) : bool :=
  existsb (λ b, String.eqb (UnlockedBadge.id b) badgeId) (default [] (Row.badges_unlocked r)).
Definition topics_of (r : Row.t) : list string := default [] (Row.topics_explored r).

(** The row of a user who has not done anything yet. *)
Definition fresh (r : Row.t) : Prop :=
  Row.experience_points r = 0 ∧ Row.level r = 1 ∧ Row.total_messages r = 0 ∧
  topics_of r = [] ∧ default [] (Row.badges_unlocked r) = [].

(** ** A catalog and worlds to run the service on *)

(** Modelled from the spec: the catalog [INITIAL_BADGES] of [constants.ts],
    which is not among the sources.  It lists the four badges whose unlock
    rules the service and section 3 of the specification name ("first
    message", "3 distinct topics", "level >= 5", "message sent between
    22:00 and 06:00"), all locked; the display names stand for the real
    ones. *)
Definition sample_badges : list Badge.t :=
  [ Badge.mk "freshman" "Freshman" false;
    Badge.mk "explorer" "Explorer" false;
    Badge.mk "scholar" "Scholar" false;
    Badge.mk "night_owl" "Night Owl" false ].

Definition noon : string := "2024-09-03T12:00:00.000Z".

Definition fresh_row : Row.t := Row.mk 0 1 0 (Some []) (Some []) None.

(** One signed-in user with row [r], at noon, no request failing. *)
Definition world_of (r : Row.t) : World :=
  mkWorld (Some "u1") {[ "u1" := r ]} [] noon 12 [].

(** Nobody signed in. *)
Definition guest_world : World :=
  mkWorld None {[ "u1" := fresh_row ]} [] noon 12 [].

(** The fresh user, with the eighth request (the read inside
    [addExperience(50)] after the freshman unlock) timing out. *)
Definition flaky_world : World :=
  mkWorld (Some "u1") {[ "u1" := fresh_row ]}
    [None; None; None; None; None; None; None; Some "timeout"] noon 12 [].

(** A user with two topics and no badge. *)
Definition two_topics_row : Row.t := Row.mk 20 1 2 (Some []) (Some ["x"; "y"]) None.

(** A user ten points short of level 5. *)
Definition level4_row : Row.t := Row.mk 390 4 39 (Some []) (Some []) None.
(** A user at level 5 whose scholar unlock never went through. *)
Definition level5_row : Row.t := Row.mk 480 5 48 (Some []) (Some []) None.

(** Three users, the first signed in. *)
Definition podium_world : World :=
  mkWorld (Some "u1")
    {[ "u1" := two_topics_row; "u2" := level5_row; "u3" := level4_row ]} [] noon 12 [].

(** A signed-in user who has no row. *)
Definition stranger_world : World :=
  mkWorld (Some "u9") {[ "u1" := fresh_row ]} [] noon 12 [].

(** The signed-in user with row [r], half an hour before midnight. *)
Definition night_world_of (r : Row.t) : World :=
  mkWorld (Some "u1") {[ "u1" := r ]} [] "2024-09-03T23:30:00.000Z" 23 [].

(** The user at 390 points, the next request failing. *)
Definition offline_once_world : World :=
  mkWorld (Some "u1") {[ "u1" := level4_row ]} [Some "offline"] noon 12 [].

(** The user at level 5, with the eighth request of a message (the write
    of the scholar badge) failing. *)
Definition scholar_write_lost_world : World :=
  mkWorld (Some "u1") {[ "u1" := level5_row ]}
    [None; None; None; None; None; None; None; Some "offline"] noon 12 [].

(** A catalog whose one badge has a name that ends in a no-break space,
    and a user who holds that badge. *)
Definition padded_badges : list Badge.t :=
  [Badge.mk "night_owl" ("Night Owl" +:+ nbsp) false].
Definition night_owl_row : Row.t :=
  Row.mk 0 1 0 (Some [UnlockedBadge.mk "night_owl" ("Night Owl" +:+ nbsp) noon])
    (Some []) None.

(** ** The service *)

Section Engine.

(** [INITIAL_BADGES] of [constants.ts]. *)
Variable INITIAL_BADGES : list Badge.t.

(** The object returned for a guest and after a failed read. *)
Definition default_stats : UserStats.t :=
  {| UserStats.experience := 0;
     UserStats.level := 1;
     UserStats.badges := INITIAL_BADGES;
     UserStats.nextLevelXP := 100;
     UserStats.topicsExplored := [];
     UserStats.messagesCount := 0 |}.

(** The object built from a row that was read. *)
Definition stats_of_row (data : Row.t) : UserStats.t :=
  let badgesFromDb := default [] (Row.badges_unlocked data) in
  let badges :=
    map (λ badge,
           Badge.with_unlocked
             (existsb (λ b, String.eqb (UnlockedBadge.id b) (Badge.id badge)) badgesFromDb)
             badge)
        INITIAL_BADGES in
  {| UserStats.experience := Row.experience_points data;
     UserStats.level := Row.level data;
     UserStats.badges := badges;
     UserStats.nextLevelXP := calculateNextLevelXP (Row.level data);
     UserStats.topicsExplored := default [] (Row.topics_explored data);
     UserStats.messagesCount := Row.total_messages data |}.

Definition getUserStats : Promise UserStats.t :=
  userId ← getUserId;
  match truthy userId with
  | None => mret default_stats
  | Some uid =>
      res ← select_single uid;
      match res with
      | inl error =>
          console_error "Error fetching user stats:" error;;
          mret default_stats
      | inr data => mret (stats_of_row data)
      end
  end.

(** The [updateData] object [updateUserStats] assembles; [now] is the
    reading of the clock. *)
Definition build_updateData (updates : Updates.t) (now : string) : UpdateData.t :=
  {| UpdateData.experience_points := Updates.experience updates;
     UpdateData.level := calculateLevel <$> Updates.experience updates;
     UpdateData.total_messages := Updates.messagesCount updates;
     UpdateData.badges_unlocked :=
       (λ badges,
          map (λ b, UnlockedBadge.mk (Badge.id b) (Badge.name b) now)
              (List.filter Badge.unlocked badges)) <$> Updates.badges updates;
     UpdateData.topics_explored := Updates.topicsExplored updates;
     UpdateData.last_message_at :=
       match Updates.messagesCount updates with Some _ => Some now | None => None end |}.

Definition updateUserStats (updates : Updates.t) : Promise unit :=
  userId ← getUserId;
  match truthy userId with
  | None => throw AuthenticationRequired
  | Some uid =>
      now ← toISOString;
      error ← update_eq uid (build_updateData updates now);
      match error with
      | Some message =>
          console_error "Error updating user stats:" message;;
          throw (StoreUnavailable message)
      | None => mret tt
      end
  end.

Definition addExperience (xpAmount : Z) : Promise UserStats.t :=
  currentStats ← getUserStats;
  let newXP := UserStats.experience currentStats + xpAmount in
  let newLevel := calculateLevel newXP in
  updateUserStats
    {| Updates.experience := Some newXP; Updates.level := None; Updates.badges := None;
       Updates.topicsExplored := None; Updates.messagesCount := None |};;
  mret {| UserStats.experience := newXP;
          UserStats.level := newLevel;
          UserStats.badges := UserStats.badges currentStats;
          UserStats.nextLevelXP := calculateNextLevelXP newLevel;
          UserStats.topicsExplored := UserStats.topicsExplored currentStats;
          UserStats.messagesCount := UserStats.messagesCount currentStats |}.

Definition unlockBadge (badgeId : string) : Promise bool :=
  currentStats ← getUserStats;
  match find (λ b, String.eqb (Badge.id b) badgeId) (UserStats.badges currentStats) with
  | None => mret false
  | Some badge =>
      if Badge.unlocked badge then mret false
      else
        let updatedBadges :=
          map (λ b, if String.eqb (Badge.id b) badgeId
                    then Badge.with_unlocked true b else b)
              (UserStats.badges currentStats) in
        updateUserStats
          {| Updates.experience := None; Updates.level := None;
             Updates.badges := Some updatedBadges;
             Updates.topicsExplored := None; Updates.messagesCount := None |};;
        addExperience 50;;
        mret true
  end.

(** [topics.includes(topic)] *)
Definition includes (topic : string) (topics : list string) : bool :=
  existsb (String.eqb topic) topics.

Definition addExploredTopic (topic : string) : Promise unit :=
  currentStats ← getUserStats;
  if negb (includes topic (UserStats.topicsExplored currentStats)) then
    let updatedTopics := (UserStats.topicsExplored currentStats ++ [topic])%list in
    updateUserStats
      {| Updates.experience := None; Updates.level := None; Updates.badges := None;
         Updates.topicsExplored := Some updatedTopics; Updates.messagesCount := None |};;
    if (3 <=? length updatedTopics)%nat then
      unlockBadge "explorer";; mret tt
    else mret tt
  else mret tt.

Definition incrementMessageCount : Promise unit :=
  currentStats ← getUserStats;
  let newCount := UserStats.messagesCount currentStats + 1 in
  updateUserStats
    {| Updates.experience := None; Updates.level := None; Updates.badges := None;
       Updates.topicsExplored := None; Updates.messagesCount := Some newCount |};;
  addExperience 10;;
  (if (newCount =? 1)%Z then unlockBadge "freshman";; mret tt else mret tt);;
  hour ← getHours;
  if ((22 <=? hour)%Z || (hour <? 6)%Z)%bool then unlockBadge "night_owl";; mret tt
  else mret tt.

(** [newStats.badges.filter((badge, idx) =>
      badge.unlocked && !oldStats.badges[idx].unlocked)], [idx] counted
    from [idx0].  The right operand of [&&] is only evaluated for an
    unlocked badge; there, an index past the end of [oldBadges] reads
    [.unlocked] of [undefined]. *)
Fixpoint newly_unlocked (oldBadges : list Badge.t) (idx0 : nat) (newBadges : list Badge.t)
  : Error + list Badge.t :=
  match newBadges with
  | [] => inr []
  | badge :: rest =>
      if Badge.unlocked badge then
        match oldBadges !! idx0 with
        | None => inl TypeError
        | Some old =>
            match newly_unlocked oldBadges (S idx0) rest with
            | inl e => inl e
            | inr kept => inr (if negb (Badge.unlocked old) then badge :: kept else kept)
            end
        end
      else newly_unlocked oldBadges (S idx0) rest
  end.

Definition processUserInteraction (messageText : string) (topics : list string)
  : Promise Interaction.t :=
  oldStats ← getUserStats;
  incrementMessageCount;;
  for_of topics addExploredTopic;;
  newStats ← getUserStats;
  let leveledUp := (UserStats.level newStats >? UserStats.level oldStats)%Z in
  match newly_unlocked (UserStats.badges oldStats) 0 (UserStats.badges newStats) with
  | inl e => throw e
  | inr newBadges =>
      (if (5 <=? UserStats.level newStats)%Z then unlockBadge "scholar";; mret tt else mret tt);;
      mret {| Interaction.newBadges := newBadges; Interaction.leveledUp := leveledUp |}
  end.

(** [a.join(', ') || 'None yet']: the empty string is falsy. *)
Definition join_or_none (parts : list string) : string :=
  match String.concat ", " parts with
  | "" => "None yet"
  | joined => joined
  end.

Definition generateUserContextSummary : Promise string :=
  stats ← getUserStats;
  let summary :=
    trim (nl
      +:+ "User Level: " +:+ pretty (UserStats.level stats) +:+ nl
      +:+ "Total Messages: " +:+ pretty (UserStats.messagesCount stats) +:+ nl
      +:+ "Topics Explored: " +:+ join_or_none (UserStats.topicsExplored stats) +:+ nl
      +:+ "Unlocked Badges: "
      +:+ join_or_none (map Badge.name (List.filter Badge.unlocked (UserStats.badges stats)))
      +:+ nl +:+ "  ") in
  mret summary.

(** The row literal [resetUserStats] sends. *)
Definition reset_updateData : UpdateData.t :=
  {| UpdateData.experience_points := Some 0;
     UpdateData.level := Some 1;
     UpdateData.total_messages := Some 0;
     UpdateData.badges_unlocked := Some [];
     UpdateData.topics_explored := Some [];
     UpdateData.last_message_at := None |}.

Definition resetUserStats : Promise unit :=
  userId ← getUserId;
  match truthy userId with
  | None => throw AuthenticationRequired
  | Some uid =>
      error ← update_eq uid reset_updateData;
      match error with
      | Some message =>
          console_error "Error resetting user stats:" message;;
          throw (StoreUnavailable message)
      | None => mret tt
      end
  end.

(** [limit] is [None] when the caller leaves it out: [limit: number = 10]. *)
Definition getLeaderboard (limit : option nat) : Promise (list LeaderboardEntry.t) :=
  res ← select_top (default 10%nat limit);
  match res with
  | inl error =>
      console_error "Error fetching leaderboard:" error;;
      mret []
  | inr data => mret data
  end.

(** *** Calls from outside

    The operations of the engine, and a client that calls them one after
    the other, going on after a rejection as a UI handler does.  Between
    two calls the user may sign in or out, the clock moves and the
    network changes. *)
Inductive Operation :=
| GetUserStats
| UpdateUserStats (updates : Updates.t)
| AddExperience (xpAmount : Z)
| UnlockBadge (badgeId : string)
| AddExploredTopic (topic : string)
| IncrementMessageCount
| ProcessUserInteraction (messageText : string) (topics : list string)
| GenerateUserContextSummary
| ResetUserStats.

Definition perform (op : Operation) : Promise unit :=
  match op with
  | GetUserStats => getUserStats;; mret tt
  | UpdateUserStats updates => updateUserStats updates
  | AddExperience xpAmount => addExperience xpAmount;; mret tt
  | UnlockBadge badgeId => unlockBadge badgeId;; mret tt
  | AddExploredTopic topic => addExploredTopic topic
  | IncrementMessageCount => incrementMessageCount
  | ProcessUserInteraction messageText topics =>
      processUserInteraction messageText topics;; mret tt
  | GenerateUserContextSummary => generateUserContextSummary;; mret tt
  | ResetUserStats => resetUserStats
  end.

Inductive Event :=
| Call (op : Operation)
| SignIn (userId : option string)
| Network (upcoming : list (option string))
| Clock (iso : string) (hours : Z).

Definition step (ev : Event) (w : World) : World :=
  match ev with
  | Call op => (perform op w).2
  | SignIn userId =>
      mkWorld userId (user_stats w) (faults w) (clock_iso w) (clock_hours w) (console w)
  | Network upcoming => with_faults upcoming w
  | Clock iso hours =>
      mkWorld (session w) (user_stats w) (faults w) iso hours (console w)
  end.

Definition run (evs : list Event) (w : World) : World :=
  foldl (λ w ev, step ev w) w evs.

(** The stored experience is a safe integer at the start and after each
    event. *)
Fixpoint safe_run (evs : list Event) (w : World) : Prop :=
  safe_table w ∧
  match evs with
  | [] => True
  | ev :: evs => safe_run evs (step ev w)
  end.

(** Steps 1 to 4 of [processUserInteraction]: the two snapshots. *)
Definition interaction_snapshots (topics : list string)
  : Promise (UserStats.t * UserStats.t) :=
  oldStats ← getUserStats;
  incrementMessageCount;;
  for_of topics addExploredTopic;;
  newStats ← getUserStats;
  mret (oldStats, newStats).

(** Steps 5 to 7: the diff of the snapshots, then the scholar check. *)
Definition interaction_result (oldStats newStats : UserStats.t) : Promise Interaction.t :=
  let leveledUp := (UserStats.level newStats >? UserStats.level oldStats)%Z in
  match newly_unlocked (UserStats.badges oldStats) 0 (UserStats.badges newStats) with
  | inl e => throw e
  | inr newBadges =>
      (if (5 <=? UserStats.level newStats)%Z then unlockBadge "scholar";; mret tt else mret tt);;
      mret {| Interaction.newBadges := newBadges; Interaction.leveledUp := leveledUp |}
  end.

(** ** The row after each operation, when nothing fails

    What the operations leave in the row of the signed-in user when every
    request goes through, as functions of the row before; [now] and
    [hours] are the readings of the clock.  The lemmas below relate the
    operations to them. *)

Definition with_experience (xp : Z) (r : Row.t) : Row.t :=
  Row.mk xp (calculateLevel xp) (Row.total_messages r) (Row.badges_unlocked r)
    (Row.topics_explored r) (Row.last_message_at r).

Definition with_badges (stored : list UnlockedBadge.t) (r : Row.t) : Row.t :=
  Row.mk (Row.experience_points r) (Row.level r) (Row.total_messages r) (Some stored)
    (Row.topics_explored r) (Row.last_message_at r).

Definition with_topics (topics : list string) (r : Row.t) : Row.t :=
  Row.mk (Row.experience_points r) (Row.level r) (Row.total_messages r)
    (Row.badges_unlocked r) (Some topics) (Row.last_message_at r).

Definition with_messages (count : Z) (now : string) (r : Row.t) : Row.t :=
  Row.mk (Row.experience_points r) (Row.level r) count (Row.badges_unlocked r)
    (Row.topics_explored r) (Some now).

(** The badges stored by the write of [unlockBadge]. *)
Definition stored_after_unlock (badgeId now : string) (r : Row.t) : list UnlockedBadge.t :=
  map (λ b, UnlockedBadge.mk (Badge.id b) (Badge.name b) now)
    (List.filter Badge.unlocked
       (map (λ b, if String.eqb (Badge.id b) badgeId then Badge.with_unlocked true b else b)
            (UserStats.badges (stats_of_row r)))).

(** Is [badgeId] a locked badge of the snapshot of [r]? *)
Definition unlockable (badgeId : string) (r : Row.t) : bool :=
  match find (λ b, String.eqb (Badge.id b) badgeId) (UserStats.badges (stats_of_row r)) with
  | Some badge => negb (Badge.unlocked badge)
  | None => false
  end.

Definition after_unlockBadge (badgeId now : string) (r : Row.t) : Row.t :=
  if unlockable badgeId r then
    let r1 := with_badges (stored_after_unlock badgeId now r) r in
    with_experience (Row.experience_points r1 + 50) r1
  else r.

Definition after_addExploredTopic (topic now : string) (r : Row.t) : Row.t :=
  if includes topic (topics_of r) then r
  else
    let updatedTopics := (topics_of r ++ [topic])%list in
    let r1 := with_topics updatedTopics r in
    if (3 <=? length updatedTopics)%nat then after_unlockBadge "explorer" now r1 else r1.

Definition after_incrementMessageCount (now : string) (hours : Z) (r : Row.t) : Row.t :=
  let newCount := Row.total_messages r + 1 in
  let r1 := with_messages newCount now r in
  let r2 := with_experience (Row.experience_points r1 + 10) r1 in
  let r3 := if newCount =? 1 then after_unlockBadge "freshman" now r2 else r2 in
  if (22 <=? hours) || (hours <? 6) then after_unlockBadge "night_owl" now r3 else r3.

Definition after_topics (topics : list string) (now : string) (r : Row.t) : Row.t :=
  foldl (λ r topic, after_addExploredTopic topic now r) r topics.

(** The badges that are unlocked in the snapshot of [r1] and locked in the
    snapshot of [r0]. *)
Definition newly (r0 r1 : Row.t) : list Badge.t :=
  map (Badge.with_unlocked true)
    (List.filter (λ b, is_unlocked (Badge.id b) r1 && negb (is_unlocked (Badge.id b) r0))
       INITIAL_BADGES).

(** The stored topics after one more topic, and whether a run of topics
    started from the stored list [stored] has a call that appends a topic
    and brings the list to 3 entries or more. *)
Definition add_topic (stored : list string) (topic : string) : list string :=
  if includes topic stored then stored else (stored ++ [topic])%list.

Fixpoint explorer_reached (stored topics : list string) : bool :=
  match topics with
  | [] => false
  | topic :: rest =>
      if includes topic stored then explorer_reached stored rest
      else if (3 <=? length stored + 1)%nat then true
      else explorer_reached (stored ++ [topic])%list rest
  end.

(** Is [badgeId] the id of a catalog entry? *)
Definition listed (badgeId : string) : bool :=
  existsb (λ c, String.eqb (Badge.id c) badgeId) INITIAL_BADGES.

(** The row at the second snapshot of [processUserInteraction], and at its
    end. *)
Definition after_snapshots (topics : list string) (now : string) (hours : Z) (r : Row.t)
  : Row.t :=
  after_topics topics now (after_incrementMessageCount now hours r).

Definition after_processUserInteraction (topics : list string) (now : string) (hours : Z)
    (r : Row.t) : Row.t :=
  let r1 := after_snapshots topics now hours r in
  if 5 <=? Row.level r1 then after_unlockBadge "scholar" now r1 else r1.

(** Which of its four badges one [processUserInteraction] unlocks for the
    row [r], when nothing fails. *)
Definition earns_freshman (r : Row.t) : bool :=
  (Row.total_messages r + 1 =? 1) && listed "freshman" && negb (is_unlocked "freshman" r).

Definition earns_night_owl (hours : Z) (r : Row.t) : bool :=
  ((22 <=? hours) || (hours <? 6)) && listed "night_owl" && negb (is_unlocked "night_owl" r).

Definition earns_explorer (topics : list string) (r : Row.t) : bool :=
  listed "explorer" && negb (is_unlocked "explorer" r)
  && explorer_reached (topics_of r) topics.

Definition earns_scholar (snapshotLevel : Z) (r : Row.t) : bool :=
  (5 <=? snapshotLevel) && listed "scholar" && negb (is_unlocked "scholar" r).

(** 50 points for an unlocked badge. *)
Definition bonus (earned : bool) : Z := if earned then 50 else 0.

(** ** Statements of the specification, as it words them *)

(** "AuthenticationRequired is raised only by resetProgress". *)
Definition only_reset_requires_authentication : Prop :=
  ∀ op w, (perform op w).1 = Rejected AuthenticationRequired → op = ResetUserStats.


(** "Two successive calls with the same valid id yield true then false":
    the id is that of a badge locked in the current progress. *)
Definition unlock_then_no_op : Prop :=
  ∀ w badgeId s w0 badge,
    getUserStats w = (Fulfilled s, w0) →
    find (λ b, String.eqb (Badge.id b) badgeId) (UserStats.badges s) = Some badge →
    Badge.unlocked badge = false →
    (unlockBadge badgeId w).1 = Fulfilled true ∧
    (unlockBadge badgeId (unlockBadge badgeId w).2).1 = Fulfilled false.

(** "For a user whose after-snapshot level is at least 5 with scholar
    still locked, the call persists the scholar unlock and its +50
    experience bonus". *)
Definition scholar_unlock_persisted : Prop :=
  ∀ messageText topics w oldStats newStats w1 badge,
    interaction_snapshots topics w = (Fulfilled (oldStats, newStats), w1) →
    5 ≤ UserStats.level newStats →
    find (λ b, String.eqb (Badge.id b) "scholar") (UserStats.badges newStats) = Some badge →
    Badge.unlocked badge = false →
    ∃ res w2 uid r2,
      processUserInteraction messageText topics w = (Fulfilled res, w2) ∧
      truthy (session w2) = Some uid ∧ user_stats w2 !! uid = Some r2 ∧
      is_unlocked "scholar" r2 = true ∧
      Row.experience_points r2 = UserStats.experience newStats + 50.

(** The first message of a fresh user with topics food and transit, the
    hour being outside 22:00 to 06:00 and no store write failing. *)
Definition first_message_scenario : Prop :=
  ∀ messageText w uid r,
    truthy (session w) = Some uid → user_stats w !! uid = Some r → fresh r →
    6 ≤ clock_hours w < 22 →
    ∀ res w', processUserInteraction messageText ["food"; "transit"] w = (res, w') →
      write_failures (console w') = write_failures (console w) →
      ∃ v r', res = Fulfilled v ∧ Interaction.leveledUp v = false ∧
        (∃ b, b ∈ Interaction.newBadges v ∧ Badge.id b = "freshman") ∧
        (∀ b, b ∈ Interaction.newBadges v → Badge.id b ≠ "explorer") ∧
        user_stats w' !! uid = Some r' ∧
        Row.experience_points r' = 60 ∧ Row.level r' = 1.

(** The badges of a snapshot are the catalog's, in its order, up to the
    [unlocked] flags. *)
Definition catalog_shaped (s : UserStats.t) : Prop :=
  map Badge.id (UserStats.badges s) = map Badge.id INITIAL_BADGES ∧
  map Badge.name (UserStats.badges s) = map Badge.name INITIAL_BADGES.

(** ** Levels *)

Lemma calculateLevel_div xp : calculateLevel xp = xp / 100 + 1.
Proof.
  unfold calculateLevel, Qdiv, Qmult, Qinv, inject_Z, Qfloor. simpl.
  by rewrite Z.mul_1_r.
Qed.

(** ** Binary64 arithmetic on safe integers *)

Lemma digits2_pos_size p : digits2_pos p = Pos.size p.
Proof. induction p as [p IH|p IH|]; simpl; by rewrite ?IH. Qed.

Lemma Zdigits2_log2 z : 0 < z → Zdigits2 z = Z.log2 z + 1.
Proof.
  destruct z as [|p|p]; [lia| |lia]. intros _. simpl Zdigits2.
  rewrite digits2_pos_size. destruct p; simpl; lia.
Qed.

Lemma Zdigits2_between z d : 2 ^ (d - 1) ≤ z < 2 ^ d → 0 < d → Zdigits2 z = d.
Proof.
  intros Hz Hd. assert (0 < z) by (pose proof (Z.pow_pos_nonneg 2 (d - 1)); lia).
  rewrite Zdigits2_log2 by done.
  assert (Z.log2 z = d - 1) as ->; [|lia].
  apply Z.log2_unique; [lia|]. by replace (Z.succ (d - 1)) with d by lia.
Qed.

Lemma iter_pos_nat {A} (f : A → A) p x : SpecFloat.iter_pos f p x = Nat.iter (Pos.to_nat p) f x.
Proof.
  revert x. induction p as [p IH|p IH|]; intros x; simpl SpecFloat.iter_pos.
  - rewrite !IH, Pos2Nat.inj_xI.
    replace (S (2 * Pos.to_nat p)) with (Pos.to_nat p + S (Pos.to_nat p))%nat by lia.
    by rewrite Nat.iter_add, Nat.iter_succ_r.
  - rewrite !IH, Pos2Nat.inj_xO.
    replace (2 * Pos.to_nat p)%nat with (Pos.to_nat p + Pos.to_nat p)%nat by lia.
    by rewrite Nat.iter_add.
  - done.
Qed.

Lemma shr_1_even m :
  0 < m →
  shr_1 {| shr_m := 2 * m; shr_r := false; shr_s := false |}
  = {| shr_m := m; shr_r := false; shr_s := false |}.
Proof. by destruct m. Qed.

Lemma shr_exact_nat n m :
  0 < m →
  Nat.iter n shr_1 {| shr_m := m * 2 ^ Z.of_nat n; shr_r := false; shr_s := false |}
  = {| shr_m := m; shr_r := false; shr_s := false |}.
Proof.
  intros Hm. induction n as [|n IH].
  - simpl. by rewrite Z.mul_1_r.
  - rewrite Nat.iter_succ_r, Nat2Z.inj_succ, Z.pow_succ_r by lia.
    replace (m * (2 * 2 ^ Z.of_nat n)) with (2 * (m * 2 ^ Z.of_nat n)) by lia.
    rewrite shr_1_even; [done|]. pose proof (Z.pow_pos_nonneg 2 (Z.of_nat n)). nia.
Qed.

Lemma shr_exact m e n :
  0 < m → 0 ≤ n →
  shr {| shr_m := m * 2 ^ n; shr_r := false; shr_s := false |} e n
  = ({| shr_m := m; shr_r := false; shr_s := false |}, e + n).
Proof.
  intros Hm Hn. destruct n as [|p|p]; [|clear Hn|lia].
  - simpl. by rewrite Z.mul_1_r, Z.add_0_r.
  - unfold shr. rewrite iter_pos_nat.
    rewrite <- (positive_nat_Z p) at 1. by rewrite shr_exact_nat.
Qed.

Lemma fexp_normal e : -1021 ≤ e → fexp Number.prec Number.emax e = e - 53.
Proof. unfold fexp, emin, Number.prec, Number.emax. lia. Qed.

(** A mantissa of 53 bits followed by [n] zero bits rounds to itself. *)
Lemma binary_round_aux_exact s M n E :
  2 ^ 52 ≤ M < 2 ^ 53 → 0 ≤ n → -1074 ≤ E ≤ 971 →
  binary_round_aux Number.prec Number.emax s (M * 2 ^ n) (E - n) loc_Exact
  = S754_finite s (Z.to_pos M) E.
Proof.
  intros HM Hn HE. unfold binary_round_aux, shr_fexp.
  assert (0 < 2 ^ n) by (by apply Z.pow_pos_nonneg).
  rewrite (Zdigits2_between (M * 2 ^ n) (53 + n)); [| |lia].
  2: { replace (53 + n - 1) with (52 + n) by lia. rewrite !Z.pow_add_r by lia. nia. }
  rewrite fexp_normal by lia.
  replace (53 + n + (E - n) - 53 - (E - n)) with n by lia.
  simpl shr_record_of_loc. rewrite shr_exact by lia.
  simpl shr_m. simpl loc_of_shr_record. simpl round_nearest_even.
  rewrite (Zdigits2_between M 53) by (simpl; lia).
  rewrite fexp_normal by lia.
  replace (53 + (E - n + n) - 53 - (E - n + n)) with 0 by lia.
  simpl. destruct M as [|p|p]; [lia| |lia].
  replace (E - n + n) with E by lia.
  unfold Number.emax, Number.prec.
  destruct (Z.leb_spec E (1024 - 53)); [done|lia].
Qed.

Lemma Pos_iter_xO m d : Z.pos (Pos.iter xO m d) = Z.pos m * 2 ^ Z.pos d.
Proof.
  rewrite <- Z.shiftl_mul_pow2 by lia. simpl Z.shiftl.
  by apply (Pos.iter_swap_gen _ _ Z.pos xO (Z.mul 2)).
Qed.

Lemma log2_safe a : 0 < a < 2 ^ 53 → 0 ≤ Z.log2 a ≤ 52 ∧ 2 ^ Z.log2 a ≤ a < 2 ^ (Z.log2 a + 1).
Proof.
  intros Ha. pose proof (Z.log2_spec a ltac:(lia)) as Hs.
  pose proof (Z.log2_nonneg a). replace (Z.succ (Z.log2 a)) with (Z.log2 a + 1) in Hs by lia.
  split; [|done]. split; [done|].
  destruct (Z.le_gt_cases (Z.log2 a) 52) as [|Hgt]; [done|].
  assert (2 ^ 53 ≤ 2 ^ Z.log2 a) by (apply Z.pow_le_mono_r; lia). lia.
Qed.

(** The 53-bit mantissa of a positive safe integer. *)
Lemma mantissa_safe a :
  0 < a < 2 ^ 53 → 2 ^ 52 ≤ a * 2 ^ (52 - Z.log2 a) < 2 ^ 53.
Proof.
  intros Ha. destruct (log2_safe a Ha) as [HL Hs].
  replace (2 ^ 52) with (2 ^ Z.log2 a * 2 ^ (52 - Z.log2 a))
    by (rewrite <- Z.pow_add_r by lia; f_equal; lia).
  replace (2 ^ 53) with (2 ^ (Z.log2 a + 1) * 2 ^ (52 - Z.log2 a))
    by (rewrite <- Z.pow_add_r by lia; f_equal; lia).
  assert (0 < 2 ^ (52 - Z.log2 a)) by (apply Z.pow_pos_nonneg; lia). nia.
Qed.

Lemma binary_round_safe s a n q :
  0 < a < 2 ^ 53 → 0 ≤ n ≤ 1000 → Z.pos q = a * 2 ^ n →
  binary_round Number.prec Number.emax s q (- n)
  = S754_finite s (Z.to_pos (a * 2 ^ (52 - Z.log2 a))) (Z.log2 a - 52).
Proof.
  intros Ha Hn Hq. destruct (log2_safe a Ha) as [HL Hs].
  pose proof (mantissa_safe a Ha) as HM.
  assert (0 < 2 ^ n) by (apply Z.pow_pos_nonneg; lia).
  unfold binary_round.
  change (Z.pos (digits2_pos q)) with (Zdigits2 (Z.pos q)). rewrite Hq.
  rewrite (Zdigits2_between (a * 2 ^ n) (Z.log2 a + 1 + n)); [| |lia].
  2: { replace (Z.log2 a + 1 + n - 1) with (Z.log2 a + n) by lia.
       rewrite (Z.pow_add_r 2 (Z.log2 a + 1) n), (Z.pow_add_r 2 (Z.log2 a) n) by lia.
       split; [apply Z.mul_le_mono_nonneg_r|apply Z.mul_lt_mono_pos_r]; lia. }
  rewrite fexp_normal by lia. unfold shl_align.
  replace (Z.log2 a + 1 + n + - n - 53 - - n) with (Z.log2 a - 52 + n) by lia.
  destruct (Z.log2 a - 52 + n) as [|d|d] eqn:Hd.
  - rewrite Hq. replace (- n) with (Z.log2 a - 52 - 0) by lia.
    replace (a * 2 ^ n) with (a * 2 ^ (52 - Z.log2 a) * 2 ^ 0)
      by (rewrite Z.mul_1_r; f_equal; f_equal; lia).
    apply binary_round_aux_exact; lia.
  - rewrite Hq. replace (- n) with (Z.log2 a - 52 - Z.pos d) by lia.
    replace (a * 2 ^ n) with (a * 2 ^ (52 - Z.log2 a) * 2 ^ Z.pos d).
    2: { rewrite <- Z.mul_assoc, <- Z.pow_add_r by lia. f_equal. f_equal. lia. }
    apply binary_round_aux_exact; lia.
  - rewrite Pos_iter_xO, Hq.
    replace (a * 2 ^ n * 2 ^ Z.pos d) with (a * 2 ^ (52 - Z.log2 a) * 2 ^ 0).
    2: { rewrite Z.mul_1_r, <- Z.mul_assoc, <- Z.pow_add_r by lia. f_equal. f_equal. lia. }
    replace (Z.log2 a + 1 + n + - n - 53) with (Z.log2 a - 52 - 0) by lia.
    apply binary_round_aux_exact; lia.
Qed.

(** The float of a safe integer that is not 0. *)
Lemma binary_normalize_safe z n :
  0 < Z.abs z < 2 ^ 53 → 0 ≤ n ≤ 1000 →
  binary_normalize Number.prec Number.emax (z * 2 ^ n) (- n) false
  = S754_finite (z <? 0) (Z.to_pos (Z.abs z * 2 ^ (52 - Z.log2 (Z.abs z))))
      (Z.log2 (Z.abs z) - 52).
Proof.
  intros Hz Hn. assert (0 < 2 ^ n) by (apply Z.pow_pos_nonneg; lia).
  unfold binary_normalize. destruct (z * 2 ^ n) as [|q|q] eqn:Hq; [nia| |].
  - assert (0 < z) by nia. replace (z <? 0) with false by lia.
    apply binary_round_safe; [lia|lia|]. rewrite <- Hq. f_equal. lia.
  - assert (z < 0) by nia. replace (z <? 0) with true by lia.
    apply binary_round_safe; [lia|lia|].
    replace (Z.abs z) with (- z) by lia. lia.
Qed.

Lemma of_Z_safe z :
  0 < Z.abs z < 2 ^ 53 →
  Number.of_Z z
  = S754_finite (z <? 0) (Z.to_pos (Z.abs z * 2 ^ (52 - Z.log2 (Z.abs z))))
      (Z.log2 (Z.abs z) - 52).
Proof.
  intros Hz. unfold Number.of_Z.
  rewrite <- (binary_normalize_safe z 0) by lia. by rewrite Z.mul_1_r.
Qed.

Lemma binary_normalize_of_Z z n :
  Z.abs z < 2 ^ 53 → 0 ≤ n ≤ 1000 →
  binary_normalize Number.prec Number.emax (z * 2 ^ n) (- n) false = Number.of_Z z.
Proof.
  intros Hz Hn. destruct (decide (z = 0)) as [->|Hne]; [done|].
  rewrite of_Z_safe, binary_normalize_safe by lia. done.
Qed.

Lemma shl_align_fst mx ex ez :
  ez ≤ ex → Z.pos (fst (shl_align mx ex ez)) = Z.pos mx * 2 ^ (ex - ez).
Proof.
  intros He. unfold shl_align. destruct (ez - ex) as [|d|d] eqn:Hd; [|lia|].
  - replace (ex - ez) with 0 by lia. simpl. lia.
  - simpl fst. rewrite Pos_iter_xO. f_equal. f_equal. lia.
Qed.

(** The signed mantissa of a safe integer, at its own exponent. *)
Lemma signed_mantissa z (n : Z) :
  0 < Z.abs z < 2 ^ 53 → 0 ≤ n →
  cond_Zopp (z <? 0) (Z.pos (Z.to_pos (Z.abs z * 2 ^ (52 - Z.log2 (Z.abs z)))) * 2 ^ n)
  = z * 2 ^ (52 - Z.log2 (Z.abs z) + n).
Proof.
  intros Hz Hn. pose proof (mantissa_safe (Z.abs z) Hz) as HM.
  destruct (log2_safe _ Hz) as [HL _].
  rewrite Z2Pos.id by lia. rewrite Z.pow_add_r by lia.
  unfold cond_Zopp. destruct (Z.ltb_spec z 0).
  - replace (Z.abs z) with (- z) by lia. lia.
  - replace (Z.abs z) with z by lia. lia.
Qed.

(** Addition is exact on safe integers whose sum is safe. *)
Lemma add_of_Z a b :
  Z.abs a < 2 ^ 53 → Z.abs b < 2 ^ 53 → Z.abs (a + b) < 2 ^ 53 →
  Number.add (Number.of_Z a) (Number.of_Z b) = Number.of_Z (a + b).
Proof.
  intros Ha Hb Hab.
  destruct (decide (a = 0)) as [->|Ha0].
  { destruct (decide (b = 0)) as [->|Hb0]; [done|].
    rewrite Z.add_0_l, (of_Z_safe b) by lia. done. }
  destruct (decide (b = 0)) as [->|Hb0].
  { rewrite Z.add_0_r, (of_Z_safe a) by lia. done. }
  rewrite (of_Z_safe a), (of_Z_safe b) by lia.
  destruct (log2_safe (Z.abs a) ltac:(lia)) as [HLa _].
  destruct (log2_safe (Z.abs b) ltac:(lia)) as [HLb _].
  unfold Number.add, SFadd.
  set (ez := Z.min (Z.log2 (Z.abs a) - 52) (Z.log2 (Z.abs b) - 52)).
  rewrite !shl_align_fst by lia.
  rewrite !signed_mantissa by lia.
  replace (52 - Z.log2 (Z.abs a) + (Z.log2 (Z.abs a) - 52 - ez)) with (- ez) by lia.
  replace (52 - Z.log2 (Z.abs b) + (Z.log2 (Z.abs b) - 52 - ez)) with (- ez) by lia.
  rewrite <- Z.mul_add_distr_r.
  replace ez with (- - ez) at 2 by lia.
  apply binary_normalize_of_Z; lia.
Qed.

(** Multiplication by a positive safe integer is exact when the product
    is safe. *)
Lemma mul_of_Z a b :
  Z.abs a < 2 ^ 53 → 0 < b < 2 ^ 53 → Z.abs (a * b) < 2 ^ 53 →
  Number.mul (Number.of_Z a) (Number.of_Z b) = Number.of_Z (a * b).
Proof.
  intros Ha Hb Hab.
  destruct (decide (a = 0)) as [->|Ha0].
  { rewrite (of_Z_safe b) by lia. replace (b <? 0) with false by lia. done. }
  assert (0 < Z.abs (a * b)) by (rewrite Z.abs_mul; nia).
  rewrite (of_Z_safe a), (of_Z_safe b), (of_Z_safe (a * b)) by lia.
  destruct (log2_safe (Z.abs a) ltac:(lia)) as [HLa _].
  destruct (log2_safe (Z.abs b) ltac:(lia)) as [HLb _].
  destruct (log2_safe (Z.abs (a * b)) ltac:(lia)) as [HLab _].
  pose proof (mantissa_safe (Z.abs a) ltac:(lia)) as HMa.
  pose proof (mantissa_safe (Z.abs b) ltac:(lia)) as HMb.
  pose proof (mantissa_safe (Z.abs (a * b)) ltac:(lia)) as HMab.
  pose proof (Z.log2_mul_below (Z.abs a) (Z.abs b) ltac:(lia) ltac:(lia)) as Hlog.
  rewrite <- Z.abs_mul in Hlog.
  unfold Number.mul, SFmul.
  rewrite Pos2Z.inj_mul, !Z2Pos.id by lia.
  replace (xorb (a <? 0) (b <? 0)) with (a * b <? 0).
  2: { replace (b <? 0) with false by lia. rewrite xorb_false_r.
       destruct (Z.ltb_spec a 0), (Z.ltb_spec (a * b) 0); try done; nia. }
  set (n := 52 + Z.log2 (Z.abs (a * b)) - Z.log2 (Z.abs a) - Z.log2 (Z.abs b)).
  replace (Z.log2 (Z.abs a) - 52 + (Z.log2 (Z.abs b) - 52))
    with (Z.log2 (Z.abs (a * b)) - 52 - n) by lia.
  replace (Z.abs a * 2 ^ (52 - Z.log2 (Z.abs a)) * (Z.abs b * 2 ^ (52 - Z.log2 (Z.abs b))))
    with (Z.abs (a * b) * 2 ^ (52 - Z.log2 (Z.abs (a * b))) * 2 ^ n).
  2: { assert (2 ^ (52 - Z.log2 (Z.abs (a * b))) * 2 ^ n
               = 2 ^ (52 - Z.log2 (Z.abs a)) * 2 ^ (52 - Z.log2 (Z.abs b))) as Hp.
       { rewrite <- !Z.pow_add_r by lia. f_equal. lia. }
       rewrite <- Z.mul_assoc, Hp, Z.abs_mul. lia. }
  apply binary_round_aux_exact; lia.
Qed.

Lemma to_Z_of_Z z : Z.abs z < 2 ^ 53 → Number.to_Z (Number.of_Z z) = Some z.
Proof.
  intros Hz. destruct (decide (z = 0)) as [->|Hz0]; [done|].
  rewrite of_Z_safe by lia.
  destruct (log2_safe (Z.abs z) ltac:(lia)) as [HL _].
  pose proof (mantissa_safe (Z.abs z) ltac:(lia)) as HM.
  unfold Number.to_Z. rewrite Z2Pos.id by lia.
  destruct (Z.leb_spec 0 (Z.log2 (Z.abs z) - 52)).
  - replace (Z.log2 (Z.abs z)) with 52 by lia. simpl (2 ^ _). rewrite !Z.mul_1_r.
    unfold cond_Zopp. destruct (Z.ltb_spec z 0); f_equal; lia.
  - replace (- (Z.log2 (Z.abs z) - 52)) with (52 - Z.log2 (Z.abs z)) by lia.
    assert (0 < 2 ^ (52 - Z.log2 (Z.abs z))) by (apply Z.pow_pos_nonneg; lia).
    rewrite Z.mod_mul, Z.div_mul by lia. simpl.
    unfold cond_Zopp. destruct (Z.ltb_spec z 0); f_equal; lia.
Qed.

Lemma loc_of_shr_record_of_loc m l : loc_of_shr_record (shr_record_of_loc m l) = l.
Proof. by destruct l as [|[]]. Qed.

Lemma shr_fexp_53 m e l :
  2 ^ 52 ≤ m < 2 ^ 53 → -1074 ≤ e →
  shr_fexp Number.prec Number.emax m e l = (shr_record_of_loc m l, e).
Proof.
  intros Hm He. unfold shr_fexp. rewrite (Zdigits2_between m 53) by (simpl; lia).
  rewrite fexp_normal by lia. by replace (53 + e - 53 - e) with 0 by lia.
Qed.

Lemma shr_fexp_54 m e l :
  2 ^ 53 ≤ m < 2 ^ 54 → -1074 ≤ e →
  shr_fexp Number.prec Number.emax m e l = (shr_1 (shr_record_of_loc m l), e + 1).
Proof.
  intros Hm He. unfold shr_fexp. rewrite (Zdigits2_between m 54) by (simpl; lia).
  rewrite fexp_normal by lia. by replace (54 + e - 53 - e) with 1 by lia.
Qed.

(** The last step of rounding: a carry into the 54th bit moves the
    exponent. *)
Lemma binary_round_aux_finish s rnd e :
  2 ^ 52 ≤ rnd ≤ 2 ^ 53 → -1074 ≤ e ≤ 960 →
  ∃ (m' : positive) e',
    (let '(mrs, e2) := shr_fexp Number.prec Number.emax rnd e loc_Exact in
     match shr_m mrs with
     | 0 => S754_zero s
     | Z.pos m => if e2 <=? Number.emax - Number.prec then S754_finite s m e2
                  else S754_infinity s
     | Z.neg _ => S754_nan
     end) = S754_finite s m' e' ∧
    (Z.pos m' = rnd ∧ e' = e ∨ rnd = 2 ^ 53 ∧ Z.pos m' = 2 ^ 52 ∧ e' = e + 1).
Proof.
  intros Hr He. destruct (decide (rnd = 2 ^ 53)) as [->|Hne].
  - rewrite shr_fexp_54 by (simpl; lia). exists (Z.to_pos (2 ^ 52)), (e + 1).
    simpl shr_m. unfold Number.emax, Number.prec.
    destruct (Z.leb_spec (e + 1) (1024 - 53)); [|lia]. split; [done|]. right. done.
  - rewrite shr_fexp_53 by lia. exists (Z.to_pos rnd), e.
    simpl shr_m. destruct rnd as [|p|p]; [lia| |lia].
    unfold Number.emax, Number.prec.
    destruct (Z.leb_spec e (1024 - 53)); [|lia]. split; [done|]. left. done.
Qed.

(** Rounding the quotient of [N] by an even [D] when the integer quotient has
    53 or 54 bits: the mantissa kept is the quotient cut to 53 bits, or
    one more when at least half a unit was cut off. *)
Lemma binary_round_aux_quotient s N D e :
  0 < D → Z.even D = true → 2 ^ 52 ≤ N / D < 2 ^ 54 → -1074 ≤ e ≤ 900 →
  ∃ (m' : positive) e' j a rnd,
    binary_round_aux Number.prec Number.emax s (N / D) e (new_location D (N mod D))
      = S754_finite s m' e' ∧
    0 ≤ j ≤ 1 ∧ a = N / D / 2 ^ j ∧
    (rnd = a ∧ 2 * N ≤ (2 * a + 1) * D * 2 ^ j ∨
     rnd = a + 1 ∧ (2 * a + 1) * D * 2 ^ j ≤ 2 * N) ∧
    (Z.pos m' = rnd ∧ e' = e + j ∨ rnd = 2 ^ 53 ∧ Z.pos m' = 2 ^ 52 ∧ e' = e + j + 1).
Proof.
  intros HD Hev Hq He.
  pose proof (Z.div_mod N D ltac:(lia)) as HN.
  pose proof (Z.mod_pos_bound N D HD) as Hr.
  set (q := N / D) in *. set (r := N mod D) in *.
  unfold binary_round_aux, new_location. rewrite Hev. unfold new_location_even.
  destruct (Z.lt_ge_cases q (2 ^ 53)) as [Hsmall|Hbig].
  - rewrite shr_fexp_53 by lia. rewrite loc_of_shr_record_of_loc.
    assert (∃ rnd, round_nearest_even
                     (shr_m (shr_record_of_loc q
                               (if r =? 0 then loc_Exact else loc_Inexact (2 * r ?= D))))
                     (if r =? 0 then loc_Exact else loc_Inexact (2 * r ?= D)) = rnd ∧
                   (rnd = q ∧ 2 * r ≤ D ∨ rnd = q + 1 ∧ D ≤ 2 * r))
      as (rnd & -> & Hrnd).
    { destruct (Z.eqb_spec r 0) as [Hr0|Hr0]; [exists q; split; [done|left; lia]|].
      destruct (Z.compare_spec (2 * r) D) as [Hc|Hc|Hc]; cbn [shr_1 shr_record_of_loc loc_of_shr_record round_nearest_even shr_m orb].
      - destruct (Z.even q); eexists; (split; [done|]); [left|right]; lia.
      - exists q. split; [done|left; lia].
      - exists (q + 1). split; [done|right; lia]. }
    destruct (binary_round_aux_finish s rnd e ltac:(lia) ltac:(lia)) as (m' & e' & -> & Hm').
    exists m', e', 0, q, rnd. rewrite Z.div_1_r, Z.add_0_r, Z.mul_1_r.
    split_and!; [done|lia|lia|done| |done].
    destruct Hrnd as [[-> ?]|[-> ?]]; [left|right]; (split; [done|nia]).
  - rewrite shr_fexp_54 by lia.
    assert (∃ rnd,
              round_nearest_even
                (shr_m (shr_1 (shr_record_of_loc q
                                 (if r =? 0 then loc_Exact else loc_Inexact (2 * r ?= D)))))
                (loc_of_shr_record
                   (shr_1 (shr_record_of_loc q
                             (if r =? 0 then loc_Exact else loc_Inexact (2 * r ?= D)))))
              = rnd ∧
              (rnd = q / 2 ∧ 2 * N ≤ (2 * (q / 2) + 1) * D * 2 ∨
               rnd = q / 2 + 1 ∧ (2 * (q / 2) + 1) * D * 2 ≤ 2 * N))
      as (rnd & -> & Hrnd).
    { destruct q as [|[p|p|]|p]; try (simpl in Hbig; lia).
      - (* odd quotient *)
        assert (Z.pos p~1 / 2 = Z.pos p) as Hhalf.
        { symmetry. apply (Z.div_unique _ _ _ 1); lia. }
        rewrite Hhalf.
        destruct (Z.eqb_spec r 0) as [Hr0|Hr0]; cbn [shr_1 shr_record_of_loc loc_of_shr_record round_nearest_even shr_m orb].
        + destruct (Z.even (Z.pos p)); eexists; (split; [done|]); [left|right]; nia.
        + destruct (2 * r ?= D); cbn [shr_1 shr_record_of_loc loc_of_shr_record round_nearest_even shr_m orb]; eexists; (split; [done|]); right; nia.
      - (* even quotient *)
        assert (Z.pos p~0 / 2 = Z.pos p) as Hhalf.
        { symmetry. apply (Z.div_unique _ _ _ 0); lia. }
        rewrite Hhalf.
        destruct (Z.eqb_spec r 0) as [Hr0|Hr0]; cbn [shr_1 shr_record_of_loc loc_of_shr_record round_nearest_even shr_m orb].
        + eexists; (split; [done|]); left; nia.
        + destruct (2 * r ?= D); cbn [shr_1 shr_record_of_loc loc_of_shr_record round_nearest_even shr_m orb]; eexists; (split; [done|]); left; nia. }
    assert (2 ^ 52 ≤ q / 2 < 2 ^ 53) as Hhalf.
    { split; [apply Z.div_le_lower_bound|apply Z.div_lt_upper_bound]; simpl; lia. }
    destruct (binary_round_aux_finish s rnd (e + 1) ltac:(lia) ltac:(lia))
      as (m' & e' & -> & Hm').
    exists m', e', 1, (q / 2), rnd.
    change (2 ^ 1) with 2.
    split_and!; [done|lia|lia|done|done|].
    destruct Hm' as [[? ->]|(? & ? & ->)]; [left|right]; split_and!; done || lia.
Qed.

(** The integer side of dividing by 100: the mantissa [V] that rounding
    keeps, at [u] units per integer, has the integer part of [x / 100],
    for either sign. *)
Lemma floor_quotient_100 (x u1 j N a rnd V u : Z) :
  0 < x → 32 ≤ u1 → 0 ≤ j ≤ 1 →
  N = x * u1 * 2 * 2 ^ j * 2 ^ 46 →
  a = N / (100 * 2 ^ 46) / 2 ^ j →
  (rnd = a ∧ 2 * N ≤ (2 * a + 1) * (100 * 2 ^ 46) * 2 ^ j ∨
   rnd = a + 1 ∧ (2 * a + 1) * (100 * 2 ^ 46) * 2 ^ j ≤ 2 * N) →
  (V = rnd ∧ u = 2 * u1 ∨ rnd = 2 ^ 53 ∧ V = 2 ^ 52 ∧ u = u1) →
  V / u = x / 100 ∧ (- V) / u = (- x) / 100.
Proof.
  intros Hx Hu Hj HN Ha Hrnd HV.
  pose proof (Z.div_mod x 100 ltac:(lia)) as Hk.
  pose proof (Z.mod_pos_bound x 100 ltac:(lia)) as Hrho.
  set (k := x / 100) in *. set (rho := x mod 100) in *. clearbody k rho.
  set (KU := k * u1). set (T := rho * u1).
  assert (x * u1 = 100 * KU + T) as Hxu by (unfold KU, T; nia).
  assert (0 ≤ T ≤ 99 * u1) as HT by (unfold T; nia).
  assert (1 ≤ rho → u1 ≤ T) as HT1 by (unfold T; nia).
  assert (rho = 0 → T = 0) as HT0 by (unfold T; nia).
  assert (k * (2 * u1) = 2 * KU) as Hku2 by (unfold KU; lia).
  assert (k * u1 = KU) as Hku1 by done.
  clearbody KU T.
  set (q := N / (100 * 2 ^ 46)) in *.
  pose proof (Z.div_mod N (100 * 2 ^ 46) ltac:(lia)) as HNq.
  pose proof (Z.mod_pos_bound N (100 * 2 ^ 46) ltac:(lia)) as HNr.
  fold q in HNq. set (r := N mod (100 * 2 ^ 46)) in *. clearbody q r.
  assert (0 < 2 ^ j) as Hpj by (apply Z.pow_pos_nonneg; lia).
  pose proof (Z.div_mod q (2 ^ j) ltac:(lia)) as Hqa.
  pose proof (Z.mod_pos_bound q (2 ^ j) ltac:(lia)) as Hqr.
  rewrite <- Ha in Hqa. set (t := q mod 2 ^ j) in *. clearbody t.
  assert (- x = 100 * (- k) + - rho) as Hnx by lia.
  assert (j = 0 ∨ j = 1) as [-> | ->] by lia.
  - change (2 ^ 0) with 1 in *. change (2 ^ 46) with 70368744177664 in *.
    change (2 ^ 53) with 9007199254740992 in *. change (2 ^ 52) with 4503599627370496 in *.
    assert (N = (100 * KU + T) * 140737488355328) as HN' by (rewrite <- Hxu; lia).
    assert (2 * KU ≤ rnd < 2 * KU + 2 * u1 ∧ (rho = 0 → rnd = 2 * KU) ∧
            (1 ≤ rho → 2 * KU < rnd)) as (Hb & Hz & Hp) by lia.
    destruct HV as [[-> ->]|(Hc & -> & ->)].
    + split.
      * symmetry. apply (Z.div_unique _ _ _ (rnd - 2 * KU)); lia.
      * destruct (decide (rho = 0)) as [Hr0|Hr0].
        -- transitivity (- k); [|apply (Z.div_unique _ _ _ 0); lia].
           symmetry. apply (Z.div_unique _ _ _ 0); lia.
        -- transitivity (- k - 1); [|apply (Z.div_unique _ _ _ (100 - rho)); lia].
           symmetry. apply (Z.div_unique _ _ _ (2 * KU + 2 * u1 - rnd)); lia.
    + split.
      * symmetry. apply (Z.div_unique _ _ _ (4503599627370496 - KU)); lia.
      * destruct (decide (rho = 0)) as [Hr0|Hr0].
        -- transitivity (- k); [|apply (Z.div_unique _ _ _ 0); lia].
           symmetry. apply (Z.div_unique _ _ _ 0); lia.
        -- transitivity (- k - 1); [|apply (Z.div_unique _ _ _ (100 - rho)); lia].
           symmetry. apply (Z.div_unique _ _ _ (KU + u1 - 4503599627370496)); lia.
  - change (2 ^ 1) with 2 in *. change (2 ^ 46) with 70368744177664 in *.
    change (2 ^ 53) with 9007199254740992 in *. change (2 ^ 52) with 4503599627370496 in *.
    assert (N = (100 * KU + T) * 281474976710656) as HN' by (rewrite <- Hxu; lia).
    assert (2 * KU ≤ rnd < 2 * KU + 2 * u1 ∧ (rho = 0 → rnd = 2 * KU) ∧
            (1 ≤ rho → 2 * KU < rnd)) as (Hb & Hz & Hp) by lia.
    destruct HV as [[-> ->]|(Hc & -> & ->)].
    + split.
      * symmetry. apply (Z.div_unique _ _ _ (rnd - 2 * KU)); lia.
      * destruct (decide (rho = 0)) as [Hr0|Hr0].
        -- transitivity (- k); [|apply (Z.div_unique _ _ _ 0); lia].
           symmetry. apply (Z.div_unique _ _ _ 0); lia.
        -- transitivity (- k - 1); [|apply (Z.div_unique _ _ _ (100 - rho)); lia].
           symmetry. apply (Z.div_unique _ _ _ (2 * KU + 2 * u1 - rnd)); lia.
    + split.
      * symmetry. apply (Z.div_unique _ _ _ (4503599627370496 - KU)); lia.
      * destruct (decide (rho = 0)) as [Hr0|Hr0].
        -- transitivity (- k); [|apply (Z.div_unique _ _ _ 0); lia].
           symmetry. apply (Z.div_unique _ _ _ 0); lia.
        -- transitivity (- k - 1); [|apply (Z.div_unique _ _ _ (100 - rho)); lia].
           symmetry. apply (Z.div_unique _ _ _ (KU + u1 - 4503599627370496)); lia.
Qed.

Lemma of_Z_100 : Number.of_Z 100 = S754_finite false 7036874417766400 (-46).
Proof. reflexivity. Qed.

Lemma SFdiv_core_by_100 M E :
  2 ^ 52 ≤ M < 2 ^ 53 → -900 ≤ E ≤ 900 →
  SFdiv_core_binary Number.prec Number.emax M E 7036874417766400 (-46)
  = (M * 2 ^ 53 / (100 * 2 ^ 46), E - 7, new_location (100 * 2 ^ 46) (M * 2 ^ 53 mod (100 * 2 ^ 46))).
Proof.
  intros HM HE. unfold SFdiv_core_binary.
  rewrite (Zdigits2_between M 53) by (simpl; lia).
  change (Zdigits2 7036874417766400) with 53.
  rewrite fexp_normal by lia.
  replace (Z.min (53 + E - (53 + -46) - 53) (E - -46)) with (E - 7) by lia.
  replace (E - -46 - (E - 7)) with 53 by lia.
  rewrite Z.shiftl_mul_pow2 by lia.
  change (100 * 2 ^ 46) with 7036874417766400.
  unfold Z.div, Z.modulo.
  by destruct (Z.div_eucl (M * 2 ^ 53) 7036874417766400).
Qed.

Lemma binary_normalize_integer k s :
  Z.abs k < 2 ^ 53 → (k = 0 → s = false) →
  binary_normalize Number.prec Number.emax k 0 s = Number.of_Z k.
Proof. intros Hk Hs. destruct k; [by rewrite Hs|done..]. Qed.

(** [Math.floor(xp / 100)] on a safe integer is the integer quotient. *)
Lemma floor_div_of_Z xp :
  Z.abs xp < 2 ^ 53 →
  Number.floor (Number.div (Number.of_Z xp) (Number.of_Z 100)) = Number.of_Z (xp / 100).
Proof.
  intros Hxp. destruct (decide (xp = 0)) as [->|Hne]; [done|].
  rewrite of_Z_100, of_Z_safe by lia.
  set (x := Z.abs xp). assert (0 < x < 2 ^ 53) as Hx by (unfold x; lia).
  destruct (log2_safe x Hx) as [HL _]. pose proof (mantissa_safe x Hx) as HM.
  set (L := Z.log2 x) in *. set (M := x * 2 ^ (52 - L)) in *.
  unfold Number.div, SFdiv.
  replace (Z.pos (Z.to_pos M)) with M by (by rewrite Z2Pos.id by lia).
  rewrite SFdiv_core_by_100 by lia. rewrite xorb_false_r.
  assert (2 ^ 52 ≤ M * 2 ^ 53 / (100 * 2 ^ 46) < 2 ^ 54) as Hq.
  { split; [apply Z.div_le_lower_bound|apply Z.div_lt_upper_bound]; simpl; simpl in HM; lia. }
  destruct (binary_round_aux_quotient (xp <? 0) (M * 2 ^ 53) (100 * 2 ^ 46) (L - 52 - 7)
              ltac:(done) ltac:(done) Hq ltac:(lia))
    as (m' & e' & j & a & rnd & -> & Hj & Ha & Hrnd & Hm').
  assert (e' < 0) as He' by (destruct Hm' as [[_ ->]|(_ & _ & ->)]; lia).
  unfold Number.floor. destruct (Z.leb_spec 0 e'); [lia|].
  set (u1 := 2 ^ (58 - L - j)).
  assert (32 ≤ u1) as Hu1.
  { unfold u1. change 32 with (2 ^ 5). apply Z.pow_le_mono_r; lia. }
  assert (M * 2 ^ 53 = x * u1 * 2 * 2 ^ j * 2 ^ 46) as HN.
  { assert (2 ^ (52 - L) * 2 ^ 53 = u1 * (2 ^ 1 * (2 ^ j * 2 ^ 46))) as Hp.
    { unfold u1. rewrite <- !Z.pow_add_r by lia. f_equal. lia. }
    change (2 ^ 1) with 2 in Hp. unfold M. rewrite <- Z.mul_assoc, Hp. lia. }
  assert (Z.pos m' = rnd ∧ 2 ^ (- e') = 2 * u1 ∨
          rnd = 2 ^ 53 ∧ Z.pos m' = 2 ^ 52 ∧ 2 ^ (- e') = u1) as HV.
  { destruct Hm' as [[? ->]|(? & ? & ->)]; [left|right]; split_and!; try done.
    - unfold u1. change (2 * 2 ^ (58 - L - j)) with (2 ^ 1 * 2 ^ (58 - L - j)).
      rewrite <- Z.pow_add_r by lia. f_equal. lia.
    - unfold u1. f_equal. lia. }
  destruct (floor_quotient_100 x u1 j (M * 2 ^ 53) a rnd (Z.pos m') (2 ^ (- e'))
              ltac:(lia) Hu1 Hj HN Ha Hrnd HV) as [Hpos Hneg].
  assert (Z.abs (xp / 100) < 2 ^ 53) as Hk.
  { pose proof (Z.div_mod xp 100 ltac:(lia)). pose proof (Z.mod_pos_bound xp 100 ltac:(lia)).
    lia. }
  unfold cond_Zopp. destruct (Z.ltb_spec xp 0) as [Hsign|Hsign].
  - change (Z.neg m') with (- Z.pos m'). rewrite Hneg.
    replace (- x) with xp by (unfold x; lia).
    apply binary_normalize_integer; [done|].
    pose proof (Z.div_mod xp 100 ltac:(lia)). pose proof (Z.mod_pos_bound xp 100 ltac:(lia)).
    lia.
  - rewrite Hpos. replace x with xp by (unfold x; lia).
    by apply binary_normalize_integer.
Qed.

(** On a safe integer the double computation of [calculateLevel] is the
    integer one. *)
Lemma Number_calculateLevel_safe xp :
  Z.abs xp ≤ Number.MAX_SAFE_INTEGER →
  Number.calculateLevel (Number.of_Z xp) = Number.of_Z (xp / 100 + 1).
Proof.
  unfold Number.MAX_SAFE_INTEGER. intros Hxp. unfold Number.calculateLevel.
  rewrite floor_div_of_Z by lia.
  pose proof (Z.div_mod xp 100 ltac:(lia)). pose proof (Z.mod_pos_bound xp 100 ltac:(lia)).
  apply add_of_Z; simpl; lia.
Qed.

Lemma Number_calculateNextLevelXP_safe level :
  Z.abs (level * 100) ≤ Number.MAX_SAFE_INTEGER →
  Number.calculateNextLevelXP (Number.of_Z level) = Number.of_Z (level * 100).
Proof.
  unfold Number.MAX_SAFE_INTEGER. intros Hl. unfold Number.calculateNextLevelXP.
  apply mul_of_Z; simpl; lia.
Qed.

(** ** Rules for [hoare] *)

Lemma hoare_ret {A} (a : A) (P : World → Prop) Q E :
  (∀ w, P w → Q a w) → hoare P (mret a) Q E.
Proof. intros H w Hw. by apply H. Qed.

Lemma hoare_throw {A} e (P : World → Prop) (Q : A → World → Prop) E :
  (∀ w, P w → E e w) → hoare P (throw e) Q E.
Proof. intros H w Hw. by apply H. Qed.

Lemma hoare_bind {A B} (m : Promise A) (k : A → Promise B) P R Q E :
  hoare P m R E → (∀ a, hoare (R a) (k a) Q E) → hoare P (m ≫= k) Q E.
Proof.
  intros Hm Hk w Hw. specialize (Hm w Hw).
  unfold mbind, Promise_bind, await.
  destruct (m w) as [[a|e] w']; [by apply Hk | done].
Qed.

Lemma hoare_for_of {A} (f : A → Promise unit) (xs : list A) (I : World → Prop) E :
  (∀ x, hoare I (f x) (λ _, I) E) → hoare I (for_of xs f) (λ _, I) E.
Proof.
  intros Hf. induction xs as [|x xs IH]; simpl.
  - by intros w Hw.
  - eapply hoare_bind; [apply Hf | intros ?; apply IH].
Qed.

(** ** What the two store-facing functions do *)

Ltac run_promise :=
  unfold mbind, Promise_bind, await, mret, Promise_ret, resolve, throw,
    getUserId, toISOString, getHours, console_error, select_single, update_eq,
    next_fault in *.

(** [getUserStats] always fulfils, and touches nothing but the pending
    requests and the console, where it adds no line about a write. *)
Lemma getUserStats_frame w :
  ∃ s w', getUserStats w = (Fulfilled s, w') ∧
    session w' = session w ∧ user_stats w' = user_stats w ∧
    clock_iso w' = clock_iso w ∧ clock_hours w' = clock_hours w ∧
    write_failures (console w') = write_failures (console w) ∧
    (quiet w → quiet w') ∧
    (s = default_stats ∨
     ∃ uid data, truthy (session w) = Some uid ∧ user_stats w !! uid = Some data ∧
                 s = stats_of_row data).
Proof.
  unfold getUserStats. run_promise.
  destruct (truthy (session w)) as [uid|] eqn:Huid.
  - destruct (faults w) as [|[msg|] rest] eqn:Hf; simpl.
    + destruct (user_stats w !! uid) as [data|] eqn:Hrow; simpl.
      * eexists _, _. split_and!; eauto 10.
      * eexists _, _. split_and!; eauto.
    + eexists _, _. split_and!; eauto.
      unfold quiet; simpl. rewrite Hf. by inversion 1.
    + destruct (user_stats w !! uid) as [data|] eqn:Hrow; simpl.
      * eexists _, _. split_and!; eauto 10.
        unfold quiet; simpl. rewrite Hf. by inversion 1.
      * eexists _, _. split_and!; eauto.
        unfold quiet; simpl. rewrite Hf. by inversion 1.
  - eexists _, _. split_and!; eauto.
Qed.

Lemma quiet_tail w f rest : faults w = f :: rest → quiet w → f = None ∧ quiet (with_faults rest w).
Proof. unfold quiet. intros ->. by inversion 1. Qed.

(** [updateUserStats] rejects a guest; for a signed-in user it either
    logs the failed write and rejects with its message, or fulfils with the
    row altered. *)
Lemma updateUserStats_outcomes updates w :
  match truthy (session w) with
  | None => updateUserStats updates w = (Rejected AuthenticationRequired, w)
  | Some uid =>
      ∃ w', session w' = session w ∧ clock_iso w' = clock_iso w ∧
        clock_hours w' = clock_hours w ∧ (quiet w → quiet w') ∧
        ((∃ msg, updateUserStats updates w = (Rejected (StoreUnavailable msg), w') ∧
                 user_stats w' = user_stats w ∧
                 console w' = ("Error updating user stats:", msg) :: console w ∧
                 ¬ quiet w) ∨
         (updateUserStats updates w = (Fulfilled tt, w') ∧
          user_stats w' =
            alter (UpdateData.apply (build_updateData updates (clock_iso w))) uid (user_stats w) ∧
          console w' = console w))
  end.
Proof.
  unfold updateUserStats. run_promise.
  destruct (truthy (session w)) as [uid|]; [|done].
  destruct (faults w) as [|[msg|] rest] eqn:Hf; simpl.
  - eexists. split_and!; cycle 4.
    + right. by split_and!.
    + done.
    + done.
    + done.
    + unfold quiet; simpl. by rewrite Hf.
  - eexists. split_and!; cycle 4.
    + left. exists msg. split_and!; [done..|].
      intros Hq. by destruct (quiet_tail _ _ _ Hf Hq).
    + done.
    + done.
    + done.
    + intros Hq. by destruct (quiet_tail _ _ _ Hf Hq).
  - eexists. split_and!; cycle 4.
    + right. by split_and!.
    + done.
    + done.
    + done.
    + intros Hq. by destruct (quiet_tail _ _ _ Hf Hq).
Qed.

Lemma resetUserStats_outcomes w :
  match truthy (session w) with
  | None => resetUserStats w = (Rejected AuthenticationRequired, w)
  | Some uid =>
      ∃ w', session w' = session w ∧ clock_iso w' = clock_iso w ∧
        clock_hours w' = clock_hours w ∧ (quiet w → quiet w') ∧
        ((∃ msg, resetUserStats w = (Rejected (StoreUnavailable msg), w') ∧
                 user_stats w' = user_stats w ∧
                 console w' = ("Error resetting user stats:", msg) :: console w ∧
                 ¬ quiet w) ∨
         (resetUserStats w = (Fulfilled tt, w') ∧
          user_stats w' = alter (UpdateData.apply reset_updateData) uid (user_stats w) ∧
          console w' = console w))
  end.
Proof.
  unfold resetUserStats. run_promise.
  destruct (truthy (session w)) as [uid|]; [|done].
  destruct (faults w) as [|[msg|] rest] eqn:Hf; simpl.
  - eexists. split_and!; cycle 4.
    + right. by split_and!.
    + done.
    + done.
    + done.
    + unfold quiet; simpl. by rewrite Hf.
  - eexists. split_and!; cycle 4.
    + left. exists msg. split_and!; [done..|].
      intros Hq. by destruct (quiet_tail _ _ _ Hf Hq).
    + done.
    + done.
    + done.
    + intros Hq. by destruct (quiet_tail _ _ _ Hf Hq).
  - eexists. split_and!; cycle 4.
    + right. by split_and!.
    + done.
    + done.
    + done.
    + intros Hq. by destruct (quiet_tail _ _ _ Hf Hq).
Qed.

(** ** The badge list follows the catalog *)

Lemma default_stats_shaped : catalog_shaped default_stats.
Proof. done. Qed.

Lemma stats_of_row_shaped data : catalog_shaped (stats_of_row data).
Proof. unfold catalog_shaped; simpl. by rewrite !map_map. Qed.

Lemma catalog_shaped_length s :
  catalog_shaped s → length (UserStats.badges s) = length INITIAL_BADGES.
Proof. intros [H _]. by rewrite <-(length_map Badge.id), H, length_map. Qed.

Lemma getUserStats_shaped w s w' :
  getUserStats w = (Fulfilled s, w') → catalog_shaped s.
Proof.
  destruct (getUserStats_frame w) as (s0 & w0 & Heq & _ & _ & _ & _ & _ & _ & Hs).
  rewrite Heq. intros [= <- <-].
  destruct Hs as [->|(uid & data & _ & _ & ->)];
    [apply default_stats_shaped | apply stats_of_row_shaped].
Qed.

Lemma newly_unlocked_in_bounds oldBadges newBadges idx0 :
  (idx0 + length newBadges ≤ length oldBadges)%nat →
  ∃ kept, newly_unlocked oldBadges idx0 newBadges = inr kept.
Proof.
  revert idx0. induction newBadges as [|badge rest IH]; intros idx0 Hlen; simpl in *.
  - by eexists.
  - destruct (IH (S idx0)) as [kept Hkept]; [lia|]. rewrite Hkept.
    destruct (Badge.unlocked badge); [|by eexists].
    destruct (lookup_lt_is_Some_2 oldBadges idx0) as [old Hold]; [lia|].
    rewrite Hold. by eexists.
Qed.

(** ** Properties kept by every operation

    Whatever [getUserStats], [updateUserStats] and [resetUserStats] keep,
    every operation built from them keeps. *)

Lemma hoare_pure {A} (φ : Prop) (P : World → Prop) (m : Promise A) Q E :
  (φ → hoare P m Q E) → hoare (λ w, P w ∧ φ) m Q E.
Proof. intros H w [Hw Hφ]. by apply H. Qed.

Lemma hoare_bind_keeps {A B} (m : Promise A) (k : A → Promise B) (I : World → Prop) Q E :
  hoare I m (λ _, I) E → (∀ a, hoare I (k a) Q E) → hoare I (m ≫= k) Q E.
Proof. apply hoare_bind. Qed.

(** Walks through a promise built from [mret], [if], [match] and [await],
    leaving the calls to [tac]. *)
Ltac hoare_walk tac :=
  cbv zeta;
  lazymatch goal with
  | |- hoare _ (mret _) _ _ => apply hoare_ret; done
  | |- hoare _ (if ?b then _ else _) _ _ => destruct b; hoare_walk tac
  | |- hoare _ (match ?x with _ => _ end) _ _ => destruct x; hoare_walk tac
  | |- hoare _ (_ ≫= _) _ _ =>
      eapply hoare_bind_keeps; [ hoare_walk tac | intros ?; hoare_walk tac ]
  | |- _ => solve [tac]
  end.

Section Invariant.
Variable I : World → Prop.
Variable E : Error → World → Prop.
Hypothesis read_ok : hoare I getUserStats (λ _, I) E.
Hypothesis write_ok : ∀ updates, hoare I (updateUserStats updates) (λ _, I) E.
Hypothesis reset_ok : hoare I resetUserStats (λ _, I) E.

Lemma addExperience_keeps xpAmount : hoare I (addExperience xpAmount) (λ _, I) E.
Proof. unfold addExperience. hoare_walk ltac:(first [apply read_ok | apply write_ok]). Qed.

Lemma unlockBadge_keeps badgeId : hoare I (unlockBadge badgeId) (λ _, I) E.
Proof.
  unfold unlockBadge.
  hoare_walk
    ltac:(first [apply read_ok | apply write_ok | apply addExperience_keeps]).
Qed.

Lemma addExploredTopic_keeps topic : hoare I (addExploredTopic topic) (λ _, I) E.
Proof.
  unfold addExploredTopic.
  hoare_walk
    ltac:(first [apply read_ok | apply write_ok | apply unlockBadge_keeps]).
Qed.

Lemma getHours_keeps : hoare I getHours (λ _, I) E.
Proof. by intros w Hw. Qed.

Lemma incrementMessageCount_keeps : hoare I incrementMessageCount (λ _, I) E.
Proof.
  unfold incrementMessageCount.
  hoare_walk
    ltac:(first [apply read_ok | apply write_ok | apply addExperience_keeps
                | apply unlockBadge_keeps | apply getHours_keeps]).
Qed.

Lemma read_shaped : hoare I getUserStats (λ s w, I w ∧ catalog_shaped s) E.
Proof.
  intros w Hw. specialize (read_ok w Hw).
  destruct (getUserStats w) as [[s|e] w'] eqn:Heq; [|done].
  split; [done | by eapply getUserStats_shaped].
Qed.

Lemma interaction_result_keeps oldStats newStats :
  catalog_shaped oldStats → catalog_shaped newStats →
  hoare I (interaction_result oldStats newStats) (λ _, I) E.
Proof.
  intros Hold Hnew. unfold interaction_result.
  destruct (newly_unlocked_in_bounds (UserStats.badges oldStats)
              (UserStats.badges newStats) 0) as [kept ->].
  { rewrite !catalog_shaped_length by done. lia. }
  hoare_walk ltac:(apply unlockBadge_keeps).
Qed.

Lemma processUserInteraction_keeps messageText topics :
  hoare I (processUserInteraction messageText topics) (λ _, I) E.
Proof.
  unfold processUserInteraction.
  eapply hoare_bind; [apply read_shaped|]. intros oldStats. apply hoare_pure. intros Hold.
  eapply hoare_bind; [apply incrementMessageCount_keeps|]. intros ?.
  eapply hoare_bind; [apply hoare_for_of, addExploredTopic_keeps|]. intros ?.
  eapply hoare_bind; [apply read_shaped|]. intros newStats. apply hoare_pure. intros Hnew.
  by apply interaction_result_keeps.
Qed.

Lemma generateUserContextSummary_keeps : hoare I generateUserContextSummary (λ _, I) E.
Proof. unfold generateUserContextSummary. hoare_walk ltac:(apply read_ok). Qed.

Lemma perform_keeps op : hoare I (perform op) (λ _, I) E.
Proof.
  destruct op; simpl;
    hoare_walk
      ltac:(first [ apply read_ok | apply write_ok | apply reset_ok
                  | apply addExperience_keeps | apply unlockBadge_keeps
                  | apply addExploredTopic_keeps | apply incrementMessageCount_keeps
                  | apply processUserInteraction_keeps
                  | apply generateUserContextSummary_keeps ]).
Qed.
End Invariant.

(** ** The stored level *)

Lemma coherent_build_updateData updates now : coherent (build_updateData updates now).
Proof.
  unfold coherent, build_updateData; simpl.
  destruct (Updates.experience updates) as [xp|]; simpl; [|done].
  by rewrite calculateLevel_div.
Qed.

Lemma coherent_reset_updateData : coherent reset_updateData.
Proof. done. Qed.

Lemma apply_coherent u r :
  coherent u →
  Row.level r = Row.experience_points r / 100 + 1 →
  Row.level (UpdateData.apply u r) = Row.experience_points (UpdateData.apply u r) / 100 + 1.
Proof.
  unfold coherent. destruct u as [xp lv ? ? ? ?]; simpl.
  destruct xp as [xp|]; intros -> Hr; simpl; done.
Qed.

Lemma consistent_alter u uid w w' :
  coherent u → user_stats w' = alter (UpdateData.apply u) uid (user_stats w) →
  consistent w → consistent w'.
Proof.
  unfold consistent. intros Hu -> Hw key r.
  destruct (decide (uid = key)) as [->|Hne].
  - rewrite lookup_alter_eq. destruct (user_stats w !! key) as [r0|] eqn:Hr0; [|done].
    intros [= <-]. apply apply_coherent; [done|]. by apply (Hw key).
  - rewrite lookup_alter_ne by done. apply Hw.
Qed.

Lemma consistent_same_table w w' :
  user_stats w' = user_stats w → consistent w → consistent w'.
Proof. unfold consistent. by intros ->. Qed.

Lemma getUserStats_consistent :
  hoare consistent getUserStats (λ _, consistent) (λ _, consistent).
Proof.
  intros w Hw. destruct (getUserStats_frame w) as (s & w' & -> & _ & Ht & _).
  by eapply consistent_same_table.
Qed.

Lemma updateUserStats_consistent updates :
  hoare consistent (updateUserStats updates) (λ _, consistent) (λ _, consistent).
Proof.
  intros w Hw. pose proof (updateUserStats_outcomes updates w) as H.
  destruct (truthy (session w)) as [uid|]; [|by rewrite H].
  destruct H as (w' & _ & _ & _ & _ & [(msg & -> & Ht & _)|(-> & Ht & _)]).
  - by eapply consistent_same_table.
  - eapply consistent_alter; [apply coherent_build_updateData|done..].
Qed.

Lemma resetUserStats_consistent :
  hoare consistent resetUserStats (λ _, consistent) (λ _, consistent).
Proof.
  intros w Hw. pose proof (resetUserStats_outcomes w) as H.
  destruct (truthy (session w)) as [uid|]; [|by rewrite H].
  destruct H as (w' & _ & _ & _ & _ & [(msg & -> & Ht & _)|(-> & Ht & _)]).
  - by eapply consistent_same_table.
  - eapply consistent_alter; [apply coherent_reset_updateData|done..].
Qed.

Lemma step_consistent ev w : consistent w → consistent (step ev w).
Proof.
  intros Hw. destruct ev as [op| | |]; simpl; [|done..].
  pose proof (perform_keeps consistent (λ _, consistent) getUserStats_consistent
                updateUserStats_consistent resetUserStats_consistent op w Hw) as H.
  by destruct (perform op w) as [[[]|e] w'].
Qed.

Lemma run_consistent evs w : consistent w → consistent (run evs w).
Proof.
  unfold run. revert w. induction evs as [|ev evs IH]; intros w Hw; simpl; [done|].
  by apply IH, step_consistent.
Qed.

Lemma safe_run_final evs w : safe_run evs w → safe_table (run evs w).
Proof.
  unfold run. revert w. induction evs as [|ev evs IH]; intros w [Hw Hevs]; simpl; [done|].
  by apply IH.
Qed.

#[export] Instance safe_run_dec evs w : Decision (safe_run evs w).
Proof. revert w. induction evs as [|ev evs IH]; intros w; simpl; apply _. Defined.

(** C5, amended: a partial row the engine writes carries a level exactly
    when it carries experience, and for a safe integer of experience
    (magnitude at most 2^53 - 1) that level is floor(experience / 100) + 1,
    also in the double arithmetic of the code; so a table in which every
    row has level = floor(experience / 100) + 1 still has that property
    after any sequence of engine calls during which the stored experience
    stays a safe integer, whatever the calls settle to and whatever
    happens to the session, the network and the clock in between, and
    the stored level is the one [calculateLevel] computes, in doubles,
    from the stored experience. *)
Theorem stored_level_follows_experience evs w :
  consistent w → safe_run evs w →
  (∀ updates now xp,
     Updates.experience updates = Some xp → safe xp →
     UpdateData.experience_points (build_updateData updates now) = Some xp ∧
     UpdateData.level (build_updateData updates now) = Some (xp / 100 + 1) ∧
     Number.experience_columns (Number.of_Z xp)
       = (Number.of_Z xp, Number.of_Z (xp / 100 + 1))) ∧
  (∀ updates now,
     Updates.experience updates = None →
     UpdateData.experience_points (build_updateData updates now) = None ∧
     UpdateData.level (build_updateData updates now) = None) ∧
  coherent reset_updateData ∧
  consistent (run evs w) ∧
  map_Forall
    (λ _ r, Number.calculateLevel (Number.of_Z (Row.experience_points r))
            = Number.of_Z (Row.level r))
    (user_stats (run evs w)).
Proof.
  intros Hw Hsafe. split_and!.
  - intros updates now xp Hxp Hs. unfold build_updateData. simpl. rewrite Hxp. simpl.
    rewrite calculateLevel_div. split_and!; [done..|].
    unfold Number.experience_columns. by rewrite Number_calculateLevel_safe.
  - intros updates now Hxp. unfold build_updateData. simpl. by rewrite Hxp.
  - apply coherent_reset_updateData.
  - by apply run_consistent.
  - intros uid r Hr.
    rewrite (run_consistent evs w Hw uid r Hr).
    apply Number_calculateLevel_safe. by apply (safe_run_final evs w Hsafe uid r).
Qed.

(** C7, amended: for every integer xp from 0 to 2^53 - 1,
    [calculateLevel] xp is floor(xp / 100) + 1, in the double arithmetic
    of the code as over the integers: the one integer L with
    100 * (L - 1) <= xp < 100 * L; its values at 0, 99, 100 and 250 are
    1, 1, 2 and 3. *)
Theorem calculateLevel_is_floor (xp : Z) :
  0 ≤ xp ≤ Number.MAX_SAFE_INTEGER →
  Number.to_Z (Number.of_Z xp) = Some xp ∧
  Number.calculateLevel (Number.of_Z xp) = Number.of_Z (xp / 100 + 1) ∧
  Number.to_Z (Number.calculateLevel (Number.of_Z xp)) = Some (xp / 100 + 1) ∧
  calculateLevel xp = xp / 100 + 1 ∧
  100 * (calculateLevel xp - 1) ≤ xp < 100 * calculateLevel xp ∧
  (∀ L, 100 * (L - 1) ≤ xp < 100 * L → calculateLevel xp = L) ∧
  Number.calculateLevel (Number.of_Z 0) = Number.of_Z 1 ∧
  Number.calculateLevel (Number.of_Z 99) = Number.of_Z 1 ∧
  Number.calculateLevel (Number.of_Z 100) = Number.of_Z 2 ∧
  Number.calculateLevel (Number.of_Z 250) = Number.of_Z 3 ∧
  calculateLevel 0 = 1 ∧ calculateLevel 99 = 1 ∧
  calculateLevel 100 = 2 ∧ calculateLevel 250 = 3.
Proof.
  unfold Number.MAX_SAFE_INTEGER. intros Hxp.
  pose proof (Z.div_mod xp 100 ltac:(lia)) as Hdiv.
  pose proof (Z.mod_pos_bound xp 100 ltac:(lia)) as Hmod.
  rewrite !calculateLevel_div.
  rewrite Number_calculateLevel_safe by (unfold Number.MAX_SAFE_INTEGER; lia).
  split_and!; try done.
  - apply to_Z_of_Z. lia.
  - apply to_Z_of_Z. lia.
  - lia.
  - lia.
  - intros L HL. nia.
Qed.

(** C8, amended: for every positive level with level * 100 at most
    2^53 - 1, [calculateNextLevelXP] level is level * 100, and
    [calculateLevel] of it is level + 1, in the double arithmetic of the
    code as over the integers: it is the experience at which level + 1 is
    entered, while [level] itself is entered 100 below; the experiences
    of level [level] are those from there up to it, it excluded, so it is
    not an amount of experience left to earn. *)
Theorem calculateNextLevelXP_enters_next_level (level : Z) :
  0 < level → level * 100 ≤ Number.MAX_SAFE_INTEGER →
  Number.calculateNextLevelXP (Number.of_Z level) = Number.of_Z (level * 100) ∧
  Number.calculateLevel (Number.calculateNextLevelXP (Number.of_Z level))
    = Number.of_Z (level + 1) ∧
  calculateNextLevelXP level = level * 100 ∧
  calculateLevel (calculateNextLevelXP level) = level + 1 ∧
  entered_at (level + 1) (calculateNextLevelXP level) ∧
  entered_at level (calculateNextLevelXP level - 100) ∧
  (∀ xp, calculateLevel xp = level + 1 ↔
         calculateNextLevelXP level ≤ xp < calculateNextLevelXP (level + 1)) ∧
  (∀ xp, calculateLevel xp = level ↔
         calculateNextLevelXP level - 100 ≤ xp < calculateNextLevelXP level).
Proof.
  unfold Number.MAX_SAFE_INTEGER. intros Hlevel Hsafe.
  assert (∀ xp L, calculateLevel xp = L ↔ 100 * (L - 1) ≤ xp < 100 * L) as Hlv.
  { intros xp L. rewrite calculateLevel_div.
    pose proof (Z.div_mod xp 100 ltac:(lia)). pose proof (Z.mod_pos_bound xp 100 ltac:(lia)).
    lia. }
  unfold entered_at, calculateNextLevelXP. split_and!.
  - apply Number_calculateNextLevelXP_safe. unfold Number.MAX_SAFE_INTEGER. lia.
  - rewrite Number_calculateNextLevelXP_safe by (unfold Number.MAX_SAFE_INTEGER; lia).
    rewrite Number_calculateLevel_safe by (unfold Number.MAX_SAFE_INTEGER; lia).
    by rewrite Z.div_mul by done.
  - done.
  - apply Hlv. lia.
  - apply Hlv. lia.
  - intros xp' H. apply Hlv in H. lia.
  - apply Hlv. lia.
  - intros xp' H. apply Hlv in H. lia.
  - intros xp. rewrite Hlv. lia.
  - intros xp. rewrite Hlv. lia.
Qed.

(** X12: on the safe integers, of either sign, the integer level
    functions are what the code computes in doubles: for an experience of
    magnitude at most 2^53 - 1, [Math.floor(xp / 100) + 1] is the double
    of floor(xp / 100) + 1 (the floor towards minus infinity, so that
    -150 has level -1), and for a level whose hundredfold has magnitude
    at most 2^53 - 1, [level * 100] is the double of the product. *)
Theorem levels_agree_on_safe_integers (xp level : Z) :
  safe xp → safe (level * 100) →
  Number.to_Z (Number.of_Z xp) = Some xp ∧
  Number.calculateLevel (Number.of_Z xp) = Number.of_Z (calculateLevel xp) ∧
  Number.to_Z (Number.calculateLevel (Number.of_Z xp)) = Some (calculateLevel xp) ∧
  calculateLevel xp = xp / 100 + 1 ∧
  Number.calculateNextLevelXP (Number.of_Z level) = Number.of_Z (calculateNextLevelXP level) ∧
  Number.to_Z (Number.calculateNextLevelXP (Number.of_Z level))
    = Some (calculateNextLevelXP level).
Proof.
  unfold safe. intros Hxp Hlevel.
  pose proof (Z.div_mod xp 100 ltac:(lia)) as Hdiv.
  pose proof (Z.mod_pos_bound xp 100 ltac:(lia)) as Hmod.
  rewrite calculateLevel_div, Number_calculateLevel_safe by done.
  unfold calculateNextLevelXP. rewrite Number_calculateNextLevelXP_safe by done.
  unfold Number.MAX_SAFE_INTEGER in *.
  split_and!; [apply to_Z_of_Z; lia|done|apply to_Z_of_Z; lia|done|done|apply to_Z_of_Z; lia].
Qed.

(** ** Running a promise step by step *)

Lemma await_fulfilled {A B} (m : Promise A) (k : A → Promise B) w a w' :
  m w = (Fulfilled a, w') → (m ≫= k) w = k a w'.
Proof. unfold mbind, Promise_bind, await. by intros ->. Qed.

Lemma await_rejected {A B} (m : Promise A) (k : A → Promise B) w e w' :
  m w = (Rejected e, w') → (m ≫= k) w = (Rejected e, w').
Proof. unfold mbind, Promise_bind, await. by intros ->. Qed.

Lemma hoare_run {A} (m : Promise A) (P : World → Prop) Q w :
  hoare P m Q (λ _ _, False) → P w → ∃ a w', m w = (Fulfilled a, w') ∧ Q a w'.
Proof.
  intros Hm Hw. specialize (Hm w Hw).
  destruct (m w) as [[a|e] w']; [by eexists _, _ | done].
Qed.

(** ** Which rejections can happen *)

Lemma perform_not_TypeError op w : (perform op w).1 ≠ Rejected TypeError.
Proof.
  assert (hoare (λ _, True) (perform op) (λ _ _, True) (λ e _, e ≠ TypeError)) as H.
  { apply perform_keeps.
    - intros w0 _. by destruct (getUserStats_frame w0) as (s & w' & -> & _).
    - intros updates w0 _. pose proof (updateUserStats_outcomes updates w0) as H.
      destruct (truthy (session w0)) as [uid|]; [|by rewrite H].
      by destruct H as (w' & _ & _ & _ & _ & [(msg & -> & _)|(-> & _)]).
    - intros w0 _. pose proof (resetUserStats_outcomes w0) as H.
      destruct (truthy (session w0)) as [uid|]; [|by rewrite H].
      by destruct H as (w' & _ & _ & _ & _ & [(msg & -> & _)|(-> & _)]). }
  specialize (H w I). destruct (perform op w) as [[a|e] w']; simpl; [done|congruence].
Qed.

Lemma perform_signed_in uid op w :
  truthy (session w) = Some uid → (perform op w).1 ≠ Rejected AuthenticationRequired.
Proof.
  intros Hw.
  assert (hoare (λ w, truthy (session w) = Some uid) (perform op)
            (λ _ w, truthy (session w) = Some uid)
            (λ e _, e ≠ AuthenticationRequired)) as H.
  { apply perform_keeps.
    - intros w0 H0. destruct (getUserStats_frame w0) as (s & w' & -> & Hs & _).
      by rewrite Hs.
    - intros updates w0 H0. pose proof (updateUserStats_outcomes updates w0) as H.
      rewrite H0 in H.
      destruct H as (w' & Hs & _ & _ & _ & [(msg & -> & _)|(-> & _)]);
        [done | by rewrite Hs].
    - intros w0 H0. pose proof (resetUserStats_outcomes w0) as H.
      rewrite H0 in H.
      destruct H as (w' & Hs & _ & _ & _ & [(msg & -> & _)|(-> & _)]);
        [done | by rewrite Hs]. }
  specialize (H w Hw). destruct (perform op w) as [[a|e] w']; simpl; [done|congruence].
Qed.

Lemma perform_fail_closed op w :
  fail_closed (write_failures (console w)) (perform op w).1 (perform op w).2.
Proof.
  set (before := write_failures (console w)).
  assert (hoare (λ w, write_failures (console w) = before) (perform op)
            (λ _ w, write_failures (console w) = before)
            (λ e w, fail_closed before (@Rejected unit e) w)) as H.
  { apply perform_keeps.
    - intros w0 H0. destruct (getUserStats_frame w0) as (s & w' & -> & _ & _ & _ & _ & Hc & _).
      by rewrite Hc.
    - intros updates w0 H0. pose proof (updateUserStats_outcomes updates w0) as H.
      destruct (truthy (session w0)) as [uid|]; [|rewrite H; by left].
      destruct H as (w' & _ & _ & _ & _ & [(msg & -> & _ & Hc & _)|(-> & _ & Hc)]).
      + right. exists msg. split; [done|]. rewrite Hc. unfold write_failures. simpl.
        by rewrite <-H0.
      + by rewrite Hc.
    - intros w0 H0. pose proof (resetUserStats_outcomes w0) as H.
      destruct (truthy (session w0)) as [uid|]; [|rewrite H; by left].
      destruct H as (w' & _ & _ & _ & _ & [(msg & -> & _ & Hc & _)|(-> & _ & Hc)]).
      + right. exists msg. split; [done|]. rewrite Hc. unfold write_failures. simpl.
        by rewrite <-H0.
      + by rewrite Hc. }
  specialize (H w eq_refl). destruct (perform op w) as [[[]|e] w']; simpl; [by left|done].
Qed.

Lemma getUserStats_fulfils w : ∃ s w', getUserStats w = (Fulfilled s, w').
Proof. destruct (getUserStats_frame w) as (s & w' & H & _). by eexists _, _. Qed.

(** C10: [getUserStats] always fulfils, and the badges of every snapshot
    it returns are the catalog's entries in the catalog's order, each
    once, with the same ids and names (so an id that is stored but not in
    the catalog does not appear).  Hence for any two snapshots every index
    of [newStats.badges] is an index of [oldStats.badges], the badge diff
    is computed without reading past the end, and
    [processUserInteraction] never rejects with a TypeError. *)
Theorem snapshots_follow_catalog w1 w2 oldStats newStats w1' w2' :
  getUserStats w1 = (Fulfilled oldStats, w1') →
  getUserStats w2 = (Fulfilled newStats, w2') →
  (∃ s w', getUserStats w1 = (Fulfilled s, w')) ∧
  length (UserStats.badges newStats) = length INITIAL_BADGES ∧
  map Badge.id (UserStats.badges newStats) = map Badge.id INITIAL_BADGES ∧
  map Badge.name (UserStats.badges newStats) = map Badge.name INITIAL_BADGES ∧
  (∀ idx, (idx < length (UserStats.badges newStats))%nat ↔
          is_Some (UserStats.badges oldStats !! idx)) ∧
  (∃ kept, newly_unlocked (UserStats.badges oldStats) 0 (UserStats.badges newStats)
           = inr kept) ∧
  (∀ messageText topics w,
      (processUserInteraction messageText topics w).1 ≠ Rejected TypeError).
Proof.
  intros Hold Hnew.
  pose proof (getUserStats_shaped _ _ _ Hold) as Sold.
  pose proof (getUserStats_shaped _ _ _ Hnew) as Snew.
  pose proof (catalog_shaped_length _ Sold) as Lold.
  pose proof (catalog_shaped_length _ Snew) as Lnew.
  split_and!; [apply getUserStats_fulfils | done | apply Snew | apply Snew | | |].
  - intros idx. rewrite lookup_lt_is_Some. lia.
  - apply newly_unlocked_in_bounds. lia.
  - intros messageText topics w Hrej.
    apply (perform_not_TypeError (ProcessUserInteraction messageText topics) w).
    simpl. unfold mbind, Promise_bind, await.
    by destruct (processUserInteraction messageText topics w) as [[a|e] w']; simplify_eq/=.
Qed.

Lemma getUserStats_read_failed w uid error :
  truthy (session w) = Some uid →
  (select_single uid w).1 = Fulfilled (inl error) →
  (getUserStats w).1 = Fulfilled default_stats.
Proof.
  intros Huid. unfold getUserStats. run_promise. rewrite Huid.
  destruct (faults w) as [|[msg|] rest]; simpl; [|done|];
    by destruct (user_stats w !! uid).
Qed.

Lemma write_request_failed updates w uid0 u msg :
  (update_eq uid0 u w).1 = Fulfilled (Some msg) →
  ∀ uid, truthy (session w) = Some uid →
    (updateUserStats updates w).1 = Rejected (StoreUnavailable msg) ∧
    user_stats (updateUserStats updates w).2 = user_stats w ∧
    (resetUserStats w).1 = Rejected (StoreUnavailable msg) ∧
    user_stats (resetUserStats w).2 = user_stats w.
Proof.
  intros Hreq uid Huid. unfold updateUserStats, resetUserStats. run_promise.
  rewrite Huid. destruct (faults w) as [|[msg'|] rest]; simpl in *; [done| |done].
  by injection Hreq as ->.
Qed.

(** C9: a failed store read is absorbed and a failed store write is
    raised.  [getUserStats] always fulfils and leaves the table alone, and
    when its read fails, whatever the error, it fulfils with the default
    record: experience 0, level 1, no topics, zero messages, the catalog
    badges (all locked, the catalog declaring them locked).  When a write
    request fails with a message, [updateUserStats] and [resetUserStats]
    reject with that message; and for every operation of the engine, a
    failed write during the call (a new line about a failed write on the
    console) makes the call reject with that write's message. *)
Theorem store_failures_absorbed_on_read_raised_on_write w op :
  Forall (λ b, Badge.unlocked b = false) INITIAL_BADGES →
  (∃ s w', getUserStats w = (Fulfilled s, w') ∧ user_stats w' = user_stats w) ∧
  (∀ uid error, truthy (session w) = Some uid →
     (select_single uid w).1 = Fulfilled (inl error) →
     (getUserStats w).1 = Fulfilled default_stats) ∧
  (UserStats.experience default_stats = 0 ∧ UserStats.level default_stats = 1 ∧
   UserStats.topicsExplored default_stats = [] ∧
   UserStats.messagesCount default_stats = 0 ∧
   UserStats.badges default_stats = INITIAL_BADGES ∧
   Forall (λ b, Badge.unlocked b = false) (UserStats.badges default_stats)) ∧
  (∀ uid u msg updates, truthy (session w) = Some uid →
     (update_eq uid u w).1 = Fulfilled (Some msg) →
     (updateUserStats updates w).1 = Rejected (StoreUnavailable msg) ∧
     (resetUserStats w).1 = Rejected (StoreUnavailable msg)) ∧
  fail_closed (write_failures (console w)) (perform op w).1 (perform op w).2.
Proof.
  intros Hlocked. split_and!; try done.
  - destruct (getUserStats_frame w) as (s & w' & H & _ & Ht & _). by eexists _, _.
  - apply getUserStats_read_failed.
  - intros uid u msg updates Huid Hreq.
    by destruct (write_request_failed updates w uid u msg Hreq uid Huid) as (? & _ & ? & _).
  - apply perform_fail_closed.
Qed.

(** ** The operations when nothing fails *)

Lemma hoare_assume {A} (φ : Prop) (P : World → Prop) (m : Promise A) Q E :
  (φ → hoare P m Q E) → hoare (λ w, φ ∧ P w) m Q E.
Proof. intros H w [Hφ Hw]. by apply H. Qed.

Lemma hoare_forget {A} (m : Promise A) (φ : A → Prop) (P P' : World → Prop) E :
  hoare P m (λ a w, φ a ∧ P' w) E →
  hoare P (m ≫= (λ _, mret tt) : Promise unit) (λ _, P') E.
Proof.
  intros H. eapply hoare_bind; [apply H|]. intros a. apply hoare_ret. by intros w [_ Hw].
Qed.

Lemma getUserStats_serving uid now hours r :
  hoare (serving uid now hours r) getUserStats
    (λ s w, s = stats_of_row r ∧ serving uid now hours r w) (λ _ _, False).
Proof.
  intros w (Huid & Hrow & Hiso & Hh & Hq).
  unfold getUserStats. run_promise. rewrite Huid.
  destruct (faults w) as [|f rest] eqn:Hf; simpl.
  - rewrite Hrow. split; [done|]. by split_and!.
  - destruct (quiet_tail _ _ _ Hf Hq) as [-> Hq']. rewrite Hrow.
    split; [done|]. by split_and!.
Qed.

Lemma updateUserStats_serving uid now hours r updates :
  hoare (serving uid now hours r) (updateUserStats updates)
    (λ _, serving uid now hours (UpdateData.apply (build_updateData updates now) r))
    (λ _ _, False).
Proof.
  intros w (Huid & Hrow & Hiso & Hh & Hq).
  pose proof (updateUserStats_outcomes updates w) as H. rewrite Huid in H.
  destruct H as (w' & Hs & Hi & Hh' & Hq' & [(msg & _ & _ & _ & Hn)|(-> & Ht & _)]); [done|].
  split_and!; [by rewrite Hs | | congruence | congruence | auto].
  by rewrite Ht, lookup_alter_eq, Hrow, Hiso.
Qed.

Ltac read_row :=
  eapply hoare_bind; [apply getUserStats_serving|];
  intros ?; apply hoare_assume; intros ->; cbv zeta.

Lemma addExperience_serving uid now hours r xpAmount :
  hoare (serving uid now hours r) (addExperience xpAmount)
    (λ _, serving uid now hours (with_experience (Row.experience_points r + xpAmount) r))
    (λ _ _, False).
Proof.
  unfold addExperience. read_row.
  eapply hoare_bind; [apply updateUserStats_serving|]. intros ?.
  by apply hoare_ret.
Qed.

Lemma unlockBadge_serving uid now hours r badgeId :
  hoare (serving uid now hours r) (unlockBadge badgeId)
    (λ b w, b = unlockable badgeId r ∧ serving uid now hours (after_unlockBadge badgeId now r) w)
    (λ _ _, False).
Proof.
  unfold unlockBadge, after_unlockBadge, unlockable. read_row.
  destruct (find _ _) as [badge|]; [|by apply hoare_ret].
  destruct (Badge.unlocked badge); cbn [negb]; [by apply hoare_ret|].
  eapply hoare_bind; [apply updateUserStats_serving|]. intros ?.
  eapply hoare_bind; [apply addExperience_serving|]. intros ?.
  by apply hoare_ret.
Qed.

Lemma addExploredTopic_serving uid now hours r topic :
  hoare (serving uid now hours r) (addExploredTopic topic)
    (λ _, serving uid now hours (after_addExploredTopic topic now r)) (λ _ _, False).
Proof.
  unfold addExploredTopic, after_addExploredTopic. read_row.
  change (UserStats.topicsExplored (stats_of_row r)) with (topics_of r).
  destruct (includes topic (topics_of r)); cbn [negb]; [by apply hoare_ret|].
  eapply hoare_bind; [apply updateUserStats_serving|]. intros ?.
  destruct (3 <=? _)%nat; [|by apply hoare_ret].
  eapply hoare_forget, unlockBadge_serving.
Qed.

Lemma getHours_serving uid now hours r :
  hoare (serving uid now hours r) getHours
    (λ hour w, hour = hours ∧ serving uid now hours r w) (λ _ _, False).
Proof. intros w Hw. simpl. split; [|done]. by destruct Hw as (_ & _ & _ & ? & _). Qed.

Lemma incrementMessageCount_serving uid now hours r :
  hoare (serving uid now hours r) incrementMessageCount
    (λ _, serving uid now hours (after_incrementMessageCount now hours r)) (λ _ _, False).
Proof.
  unfold incrementMessageCount, after_incrementMessageCount. read_row.
  change (UserStats.messagesCount (stats_of_row r)) with (Row.total_messages r).
  eapply hoare_bind; [apply updateUserStats_serving|]. intros ?.
  eapply hoare_bind; [apply addExperience_serving|]. intros ?.
  destruct (Row.total_messages r + 1 =? 1).
  - eapply hoare_bind; [eapply hoare_forget, unlockBadge_serving|]. intros ?.
    eapply hoare_bind; [apply getHours_serving|].
    intros hour. apply hoare_assume; intros ->.
    destruct (_ || _); [|by apply hoare_ret].
    eapply hoare_forget, unlockBadge_serving.
  - eapply hoare_bind with (R := λ _, serving uid now hours _); [by apply hoare_ret|].
    intros ?.
    eapply hoare_bind; [apply getHours_serving|].
    intros hour. apply hoare_assume; intros ->.
    destruct (_ || _); [|by apply hoare_ret].
    eapply hoare_forget, unlockBadge_serving.
Qed.

Lemma for_of_addExploredTopic_serving uid now hours topics r :
  hoare (serving uid now hours r) (for_of topics addExploredTopic)
    (λ _, serving uid now hours (after_topics topics now r)) (λ _ _, False).
Proof.
  revert r. induction topics as [|topic topics IH]; intros r; simpl.
  - by apply hoare_ret.
  - eapply hoare_bind; [apply addExploredTopic_serving|]. intros ?. apply IH.
Qed.

(** ** Badges of a row and of its snapshot *)

Lemma newly_unlocked_maps (u0 u1 : Badge.t → bool) (cat pre : list Badge.t) :
  newly_unlocked (pre ++ map (λ c, Badge.with_unlocked (u0 c) c) cat)%list (length pre)
    (map (λ c, Badge.with_unlocked (u1 c) c) cat)
  = inr (map (Badge.with_unlocked true) (List.filter (λ c, u1 c && negb (u0 c)) cat)).
Proof.
  revert pre. induction cat as [|c cat IH]; intros pre; simpl; [done|].
  specialize (IH (pre ++ [Badge.with_unlocked (u0 c) c])%list).
  rewrite <-app_assoc, length_app, Nat.add_1_r in IH. simpl in IH. rewrite IH.
  destruct (u1 c); simpl; [|done].
  rewrite lookup_app_r, Nat.sub_diag by done. simpl.
  by destruct (u0 c).
Qed.

Lemma newly_unlocked_snapshots r0 r1 :
  newly_unlocked (UserStats.badges (stats_of_row r0)) 0 (UserStats.badges (stats_of_row r1))
  = inr (newly r0 r1).
Proof.
  apply (newly_unlocked_maps (λ c, is_unlocked (Badge.id c) r0)
           (λ c, is_unlocked (Badge.id c) r1) INITIAL_BADGES []).
Qed.

Lemma newly_ids r0 r1 badgeId :
  (∃ b, b ∈ newly r0 r1 ∧ Badge.id b = badgeId) ↔
  listed badgeId = true ∧ is_unlocked badgeId r1 = true ∧ is_unlocked badgeId r0 = false.
Proof.
  unfold newly, listed. rewrite existsb_exists. split.
  - intros (b & Hb & <-). apply list_elem_of_fmap in Hb as (c & -> & Hc).
    apply list_elem_of_In, filter_In in Hc as [Hc Hu]. simpl.
    apply andb_true_iff in Hu as [H1 H0]. apply negb_true_iff in H0.
    split_and!; [|done..]. exists c. split; [done|]. apply String.eqb_refl.
  - intros ((c & Hc & Hid) & H1 & H0). apply String.eqb_eq in Hid as <-.
    exists (Badge.with_unlocked true c). split; [|done].
    apply list_elem_of_fmap. exists c. split; [done|].
    apply list_elem_of_In, filter_In. split; [done|]. by rewrite H1, H0.
Qed.

Lemma unlockable_listed badgeId r :
  unlockable badgeId r = listed badgeId && negb (is_unlocked badgeId r).
Proof.
  unfold unlockable, listed. simpl.
  induction INITIAL_BADGES as [|c cat IH]; simpl; [done|].
  destruct (String.eqb (Badge.id c) badgeId) eqn:Hid; simpl; [|done].
  apply String.eqb_eq in Hid. by rewrite Hid.
Qed.

Lemma is_unlocked_stored badgeId now (badges : list Badge.t) r :
  is_unlocked badgeId
    (with_badges (map (λ b, UnlockedBadge.mk (Badge.id b) (Badge.name b) now)
                    (List.filter Badge.unlocked badges)) r)
  = existsb (λ b, Badge.unlocked b && String.eqb (Badge.id b) badgeId) badges.
Proof.
  unfold is_unlocked. simpl.
  induction badges as [|b badges IH]; simpl; [done|].
  destruct (Badge.unlocked b); simpl; by rewrite IH.
Qed.

Lemma is_unlocked_after_unlockBadge i badgeId now r :
  is_unlocked i (after_unlockBadge badgeId now r) =
    if unlockable badgeId r
    then listed i && (String.eqb i badgeId || is_unlocked i r)
    else is_unlocked i r.
Proof.
  unfold after_unlockBadge. destruct (unlockable badgeId r); [|done].
  cbv zeta. change (is_unlocked i (with_experience ?x ?r0)) with (is_unlocked i r0).
  unfold stored_after_unlock. rewrite is_unlocked_stored.
  unfold listed. simpl.
  induction INITIAL_BADGES as [|c cat IH]; simpl; [done|].
  rewrite IH. clear IH. fold (is_unlocked (Badge.id c) r).
  destruct (String.eqb (Badge.id c) i) eqn:Hi.
  - apply String.eqb_eq in Hi. subst i.
    destruct (String.eqb (Badge.id c) badgeId) eqn:Hb; simpl;
      rewrite ?String.eqb_refl, ?andb_true_r; simpl; [done|].
    destruct (is_unlocked (Badge.id c) r); simpl; [done|]. by rewrite andb_false_r.
  - destruct (String.eqb (Badge.id c) badgeId) eqn:Hb; simpl;
      rewrite ?Hi, ?andb_false_r; done.
Qed.

Lemma processUserInteraction_split messageText topics w :
  processUserInteraction messageText topics w =
  (interaction_snapshots topics ≫= λ '(oldStats, newStats), interaction_result oldStats newStats) w.
Proof.
  unfold processUserInteraction, interaction_snapshots, interaction_result.
  unfold mbind, Promise_bind, await, mret, Promise_ret, resolve.
  destruct (getUserStats w) as [[oldStats|e] w1]; [|done].
  destruct (incrementMessageCount w1) as [[[]|e] w2]; [|done].
  destruct (for_of topics addExploredTopic w2) as [[[]|e] w3]; [|done].
  by destruct (getUserStats w3) as [[newStats|e] w4].
Qed.

Lemma interaction_snapshots_serving uid now hours r topics :
  hoare (serving uid now hours r) (interaction_snapshots topics)
    (λ '(oldStats, newStats) w,
       (oldStats = stats_of_row r ∧
        newStats = stats_of_row (after_snapshots topics now hours r)) ∧
       serving uid now hours (after_snapshots topics now hours r) w)
    (λ _ _, False).
Proof.
  unfold interaction_snapshots. read_row.
  eapply hoare_bind; [apply incrementMessageCount_serving|]. intros ?.
  eapply hoare_bind; [apply for_of_addExploredTopic_serving|]. intros ?.
  read_row. by apply hoare_ret.
Qed.

Lemma interaction_result_serving uid now hours r0 r1 :
  hoare (serving uid now hours r1) (interaction_result (stats_of_row r0) (stats_of_row r1))
    (λ res w,
       res = {| Interaction.newBadges := newly r0 r1;
                Interaction.leveledUp := Row.level r1 >? Row.level r0 |} ∧
       serving uid now hours
         (if 5 <=? Row.level r1 then after_unlockBadge "scholar" now r1 else r1) w)
    (λ _ _, False).
Proof.
  unfold interaction_result. rewrite newly_unlocked_snapshots. cbv zeta.
  change (UserStats.level (stats_of_row ?r)) with (Row.level r).
  destruct (5 <=? Row.level r1).
  - eapply hoare_bind; [eapply hoare_forget, unlockBadge_serving|]. intros ?.
    by apply hoare_ret.
  - eapply hoare_bind with (R := λ _, serving uid now hours _); [by apply hoare_ret|].
    intros ?. by apply hoare_ret.
Qed.

Lemma processUserInteraction_serving uid now hours r messageText topics :
  hoare (serving uid now hours r) (processUserInteraction messageText topics)
    (λ res w,
       res = {| Interaction.newBadges := newly r (after_snapshots topics now hours r);
                Interaction.leveledUp :=
                  Row.level (after_snapshots topics now hours r) >? Row.level r |} ∧
       serving uid now hours (after_processUserInteraction topics now hours r) w)
    (λ _ _, False).
Proof.
  intros w Hw. rewrite processUserInteraction_split. revert w Hw.
  eapply hoare_bind; [apply interaction_snapshots_serving|].
  intros [oldStats newStats]. apply hoare_assume. intros [-> ->].
  apply interaction_result_serving.
Qed.

(** ** Fields of the row after an unlock and after a topic *)

Lemma after_unlockBadge_experience badgeId now r :
  Row.experience_points (after_unlockBadge badgeId now r) =
    Row.experience_points r + (if unlockable badgeId r then 50 else 0).
Proof. unfold after_unlockBadge. destruct (unlockable badgeId r); simpl; lia. Qed.

Lemma after_unlockBadge_level badgeId now r :
  Row.level (after_unlockBadge badgeId now r) =
    if unlockable badgeId r then calculateLevel (Row.experience_points r + 50)
    else Row.level r.
Proof. unfold after_unlockBadge. by destruct (unlockable badgeId r). Qed.

Lemma after_unlockBadge_topics badgeId now r :
  topics_of (after_unlockBadge badgeId now r) = topics_of r.
Proof. unfold after_unlockBadge. by destruct (unlockable badgeId r). Qed.

Lemma after_unlockBadge_locked badgeId now r :
  unlockable badgeId r = false → after_unlockBadge badgeId now r = r.
Proof. unfold after_unlockBadge. by intros ->. Qed.

Lemma after_addExploredTopic_known topic now r :
  includes topic (topics_of r) = true → after_addExploredTopic topic now r = r.
Proof. unfold after_addExploredTopic. by intros ->. Qed.

Lemma after_addExploredTopic_topics topic now r :
  topics_of (after_addExploredTopic topic now r) =
    if includes topic (topics_of r) then topics_of r else (topics_of r ++ [topic])%list.
Proof.
  unfold after_addExploredTopic. destruct (includes topic (topics_of r)); [done|].
  cbv zeta. destruct (3 <=? _)%nat; [by rewrite after_unlockBadge_topics|done].
Qed.

Lemma after_addExploredTopic_unlocked badgeId topic now r :
  is_unlocked badgeId (after_addExploredTopic topic now r) =
    if negb (includes topic (topics_of r)) && (3 <=? length (topics_of r) + 1)%nat
         && unlockable "explorer" r
    then listed badgeId && (String.eqb badgeId "explorer" || is_unlocked badgeId r)
    else is_unlocked badgeId r.
Proof.
  unfold after_addExploredTopic. destruct (includes topic (topics_of r)); [done|].
  cbv zeta. rewrite length_app, Nat.add_1_r. simpl length. rewrite Nat.add_1_r.
  destruct (3 <=? _)%nat; [|done]. simpl.
  rewrite is_unlocked_after_unlockBadge.
  change (unlockable "explorer" (with_topics ?t r)) with (unlockable "explorer" r).
  by destruct (unlockable "explorer" r).
Qed.


(** ** [unlockBadge] *)

Lemma find_unlisted (badges catalog : list Badge.t) badgeId :
  map Badge.id badges = map Badge.id catalog →
  existsb (λ c, String.eqb (Badge.id c) badgeId) catalog = false →
  find (λ b, String.eqb (Badge.id b) badgeId) badges = None.
Proof.
  revert catalog. induction badges as [|b badges IH]; intros [|c catalog]; simpl; try done.
  intros [= Hid Hrest] Hnone. apply orb_false_iff in Hnone as [Hc Hnone].
  rewrite Hid, Hc. by eapply IH.
Qed.

Lemma unlockBadge_nothing_to_do badgeId w s w1 :
  getUserStats w = (Fulfilled s, w1) →
  listed badgeId = false ∨
  (∃ badge, find (λ b, String.eqb (Badge.id b) badgeId) (UserStats.badges s) = Some badge ∧
            Badge.unlocked badge = true) →
  unlockBadge badgeId w = (Fulfilled false, w1).
Proof.
  intros Hread Hcase. unfold unlockBadge. rewrite (await_fulfilled _ _ _ _ _ Hread).
  destruct Hcase as [Hunlisted|(badge & -> & ->)]; [|done].
  destruct (getUserStats_shaped _ _ _ Hread) as [Hids _].
  by rewrite (find_unlisted _ _ _ Hids Hunlisted).
Qed.

(** C4, amended: [unlockBadge] is idempotent for a signed-in user who has
    a stored row and whose requests go through.  In any world, when the
    id is not in the catalog, or its badge is already unlocked in the
    progress just read, the call fulfils with false and leaves the world
    as the read left it: no write, no experience.  For a signed-in user
    with a stored row whose requests go through and for whom the badge is
    in the catalog and locked, the call fulfils with true, the stored row
    then has the badge unlocked and 50 more experience, and a second call
    with the same id fulfils with false and leaves that row as it is: 50
    more experience in total. *)
Theorem unlockBadge_idempotent uid now hours r w badgeId :
  serving uid now hours r w →
  unlockable badgeId r = true →
  (∀ otherId w0 s w1, getUserStats w0 = (Fulfilled s, w1) →
     listed otherId = false ∨
     (∃ badge,
        find (λ b, String.eqb (Badge.id b) otherId) (UserStats.badges s) = Some badge ∧
        Badge.unlocked badge = true) →
     unlockBadge otherId w0 = (Fulfilled false, w1)) ∧
  ∃ w1 w2 r1,
    unlockBadge badgeId w = (Fulfilled true, w1) ∧
    serving uid now hours r1 w1 ∧
    is_unlocked badgeId r = false ∧ is_unlocked badgeId r1 = true ∧
    Row.experience_points r1 = Row.experience_points r + 50 ∧
    Row.level r1 = calculateLevel (Row.experience_points r + 50) ∧
    Row.total_messages r1 = Row.total_messages r ∧ topics_of r1 = topics_of r ∧
    unlockBadge badgeId w1 = (Fulfilled false, w2) ∧
    serving uid now hours r1 w2.
Proof.
  intros Hw Hlocked. split; [intros otherId w0 s w1; apply unlockBadge_nothing_to_do|].
  destruct (hoare_run _ _ _ _ (unlockBadge_serving uid now hours r badgeId) Hw)
    as (b & w1 & Hrun1 & -> & Hw1).
  set (r1 := after_unlockBadge badgeId now r) in *.
  pose proof Hlocked as Hl. rewrite unlockable_listed in Hl.
  apply andb_true_iff in Hl as [Hlisted Hnot]. apply negb_true_iff in Hnot.
  assert (is_unlocked badgeId r1 = true) as Hnow.
  { unfold r1. rewrite is_unlocked_after_unlockBadge, Hlocked, Hlisted.
    by rewrite String.eqb_refl. }
  assert (unlockable badgeId r1 = false) as Hagain.
  { by rewrite unlockable_listed, Hnow, andb_false_r. }
  destruct (hoare_run _ _ _ _ (unlockBadge_serving uid now hours r1 badgeId) Hw1)
    as (b & w2 & Hrun2 & -> & Hw2).
  rewrite after_unlockBadge_locked in Hw2 by done.
  exists w1, w2, r1. rewrite Hrun1, Hrun2, Hlocked, Hagain.
  split_and!; try done.
  - unfold r1. rewrite after_unlockBadge_experience, Hlocked. done.
  - unfold r1. by rewrite after_unlockBadge_level, Hlocked.
  - unfold r1, after_unlockBadge. by rewrite Hlocked.
  - unfold r1. apply after_unlockBadge_topics.
Qed.

(** ** Guests *)

Lemma getUserStats_guest w :
  truthy (session w) = None → getUserStats w = (Fulfilled default_stats, w).
Proof. intros H. unfold getUserStats. run_promise. by rewrite H. Qed.

Lemma updateUserStats_guest updates w :
  truthy (session w) = None →
  updateUserStats updates w = (Rejected AuthenticationRequired, w).
Proof. intros H. unfold updateUserStats. run_promise. by rewrite H. Qed.

Lemma resetUserStats_guest w :
  truthy (session w) = None → resetUserStats w = (Rejected AuthenticationRequired, w).
Proof. intros H. unfold resetUserStats. run_promise. by rewrite H. Qed.

Lemma addExperience_guest xpAmount w :
  truthy (session w) = None →
  addExperience xpAmount w = (Rejected AuthenticationRequired, w).
Proof.
  intros H. unfold addExperience.
  rewrite (await_fulfilled _ _ _ _ _ (getUserStats_guest w H)). cbv zeta.
  by rewrite (await_rejected _ _ _ _ _ (updateUserStats_guest _ w H)).
Qed.

Lemma incrementMessageCount_guest w :
  truthy (session w) = None →
  incrementMessageCount w = (Rejected AuthenticationRequired, w).
Proof.
  intros H. unfold incrementMessageCount.
  rewrite (await_fulfilled _ _ _ _ _ (getUserStats_guest w H)). cbv zeta.
  by rewrite (await_rejected _ _ _ _ _ (updateUserStats_guest _ w H)).
Qed.

Lemma addExploredTopic_guest topic w :
  truthy (session w) = None →
  addExploredTopic topic w = (Rejected AuthenticationRequired, w).
Proof.
  intros H. unfold addExploredTopic.
  rewrite (await_fulfilled _ _ _ _ _ (getUserStats_guest w H)). simpl.
  by rewrite (await_rejected _ _ _ _ _ (updateUserStats_guest _ w H)).
Qed.

Lemma unlockBadge_guest badgeId w :
  truthy (session w) = None →
  unlockBadge badgeId w =
    (match find (λ b, String.eqb (Badge.id b) badgeId) INITIAL_BADGES with
     | Some badge =>
         if Badge.unlocked badge then Fulfilled false
         else Rejected AuthenticationRequired
     | None => Fulfilled false
     end, w).
Proof.
  intros H. unfold unlockBadge.
  rewrite (await_fulfilled _ _ _ _ _ (getUserStats_guest w H)). simpl.
  destruct (find _ _) as [badge|]; [|done].
  destruct (Badge.unlocked badge); [done|].
  by rewrite (await_rejected _ _ _ _ _ (updateUserStats_guest _ w H)).
Qed.

Lemma processUserInteraction_guest messageText topics w :
  truthy (session w) = None →
  processUserInteraction messageText topics w = (Rejected AuthenticationRequired, w).
Proof.
  intros H. unfold processUserInteraction.
  rewrite (await_fulfilled _ _ _ _ _ (getUserStats_guest w H)).
  by rewrite (await_rejected _ _ _ _ _ (incrementMessageCount_guest w H)).
Qed.

Lemma generateUserContextSummary_fulfils w :
  ∃ text w', generateUserContextSummary w = (Fulfilled text, w') ∧
             user_stats w' = user_stats w.
Proof.
  destruct (getUserStats_frame w) as (s & w' & Hread & _ & Ht & _).
  unfold generateUserContextSummary. rewrite (await_fulfilled _ _ _ _ _ Hread).
  by eexists _, _.
Qed.

(** C2, amended: AuthenticationRequired is raised only when no user id is
    available, and never by the read operations [getUserStats] and
    [generateUserContextSummary], which always fulfil (for a guest, from
    the default progress, leaving the world untouched).  For a guest it is
    raised by [resetUserStats] and by every operation that reaches
    [updateUserStats]: [updateUserStats], [addExperience],
    [incrementMessageCount], [addExploredTopic], [processUserInteraction],
    and [unlockBadge] of a badge the catalog lists as locked. *)
Theorem authentication_required_for_guest_writes w op :
  ((perform op w).1 = Rejected AuthenticationRequired →
     truthy (session w) = None ∧ op ≠ GetUserStats ∧ op ≠ GenerateUserContextSummary) ∧
  (∃ s w', getUserStats w = (Fulfilled s, w')) ∧
  (∃ text w', generateUserContextSummary w = (Fulfilled text, w')) ∧
  (truthy (session w) = None →
     getUserStats w = (Fulfilled default_stats, w) ∧
     (∃ text, generateUserContextSummary w = (Fulfilled text, w)) ∧
     resetUserStats w = (Rejected AuthenticationRequired, w) ∧
     (∀ updates, updateUserStats updates w = (Rejected AuthenticationRequired, w)) ∧
     (∀ xpAmount, addExperience xpAmount w = (Rejected AuthenticationRequired, w)) ∧
     incrementMessageCount w = (Rejected AuthenticationRequired, w) ∧
     (∀ topic, addExploredTopic topic w = (Rejected AuthenticationRequired, w)) ∧
     (∀ messageText topics,
        processUserInteraction messageText topics w = (Rejected AuthenticationRequired, w)) ∧
     (∀ badgeId,
        unlockBadge badgeId w =
          (match find (λ b, String.eqb (Badge.id b) badgeId) INITIAL_BADGES with
           | Some badge =>
               if Badge.unlocked badge then Fulfilled false
               else Rejected AuthenticationRequired
           | None => Fulfilled false
           end, w))).
Proof.
  split_and!.
  - intros Hrej. split_and!.
    + destruct (truthy (session w)) as [uid|] eqn:Huid; [|done].
      by destruct (perform_signed_in uid op w Huid).
    + intros ->. simpl in Hrej.
      destruct (getUserStats_fulfils w) as (s & w' & Hread).
      by rewrite (await_fulfilled _ _ _ _ _ Hread) in Hrej.
    + intros ->. simpl in Hrej.
      destruct (generateUserContextSummary_fulfils w) as (text & w' & Hread & _).
      by rewrite (await_fulfilled _ _ _ _ _ Hread) in Hrej.
  - apply getUserStats_fulfils.
  - destruct (generateUserContextSummary_fulfils w) as (text & w' & Hread & _).
    by eexists _, _.
  - intros Hguest. split_and!.
    + by apply getUserStats_guest.
    + unfold generateUserContextSummary.
      rewrite (await_fulfilled _ _ _ _ _ (getUserStats_guest w Hguest)). by eexists.
    + by apply resetUserStats_guest.
    + intros. by apply updateUserStats_guest.
    + intros. by apply addExperience_guest.
    + by apply incrementMessageCount_guest.
    + intros. by apply addExploredTopic_guest.
    + intros. by apply processUserInteraction_guest.
    + intros. by apply unlockBadge_guest.
Qed.

(** ** [addExploredTopic] and the explorer badge *)




Lemma after_topics_topics topics now r :
  topics_of (after_topics topics now r) = foldl add_topic (topics_of r) topics.
Proof.
  revert r. induction topics as [|topic topics IH]; intros r; [done|].
  change (after_topics (topic :: topics) now r)
    with (after_topics topics now (after_addExploredTopic topic now r)).
  by rewrite IH, after_addExploredTopic_topics.
Qed.




(** ** The first message of a fresh user *)

Lemma fresh_locked badgeId r : fresh r → is_unlocked badgeId r = false.
Proof. intros (_ & _ & _ & _ & Hb). unfold is_unlocked. by rewrite Hb. Qed.

Lemma fresh_after_snapshots now hours r :
  fresh r → listed "freshman" = true → 6 ≤ hours < 22 →
  let r1 := after_snapshots ["food"; "transit"] now hours r in
  Row.experience_points r1 = 60 ∧ Row.level r1 = 1 ∧ Row.total_messages r1 = 1 ∧
  topics_of r1 = ["food"; "transit"] ∧
  (∀ badgeId, is_unlocked badgeId r1 = listed badgeId && String.eqb badgeId "freshman").
Proof.
  intros Hfresh Hlisted Hhours.
  pose proof (fresh_locked "freshman" r Hfresh) as Hfreshman.
  destruct Hfresh as (Hxp & Hlv & Hn & Ht & Hb).
  unfold after_snapshots, after_incrementMessageCount. rewrite Hn. cbv zeta.
  replace ((22 <=? hours) || (hours <? 6)) with false by lia.
  change (0 + 1 =? 1) with true. cbv iota.
  set (r2 := with_experience _ _).
  assert (Row.experience_points r2 = 10) as Hxp2 by (simpl; lia).
  assert (unlockable "freshman" r2 = true) as Hable.
  { rewrite unlockable_listed, Hlisted.
    change (is_unlocked "freshman" r2) with (is_unlocked "freshman" r). by rewrite Hfreshman. }
  set (r3 := after_unlockBadge "freshman" now r2).
  assert (∀ badgeId, is_unlocked badgeId r3 = listed badgeId && String.eqb badgeId "freshman")
    as Hu3.
  { intros badgeId. unfold r3. rewrite is_unlocked_after_unlockBadge, Hable.
    change (is_unlocked badgeId r2) with (is_unlocked badgeId r).
    unfold is_unlocked. rewrite Hb. simpl. by rewrite orb_false_r. }
  assert (topics_of r3 = []) as Ht3.
  { unfold r3. rewrite after_unlockBadge_topics. exact Ht. }
  assert (unlockable "explorer" r3 = listed "explorer") as He3.
  { rewrite unlockable_listed, Hu3. simpl. by rewrite andb_false_r, andb_true_r. }
  unfold after_topics. simpl foldl.
  set (r4 := after_addExploredTopic "food" now r3).
  assert (r4 = with_topics ["food"] r3) as ->.
  { unfold r4, after_addExploredTopic. by rewrite Ht3. }
  set (r5 := after_addExploredTopic "transit" now _).
  assert (r5 = with_topics ["food"; "transit"] (with_topics ["food"] r3)) as ->.
  { unfold r5, after_addExploredTopic. done. }
  split_and!.
  - simpl. unfold r3. rewrite after_unlockBadge_experience, Hable, Hxp2. done.
  - simpl. unfold r3. rewrite after_unlockBadge_level, Hable, Hxp2. done.
  - simpl. unfold r3, after_unlockBadge. by rewrite Hable.
  - done.
  - intros badgeId. apply Hu3.
Qed.

(** C1, amended: for a fresh user (experience 0, level 1, zero messages,
    no topics, no badges) whose store requests all go through, reads as
    well as writes, at a local hour outside 22:00 to 06:00, with freshman
    in the catalog: one call to [processUserInteraction] with any message
    text and topics food, transit fulfils with leveledUp = false and with
    new badges that include freshman and not explorer, and leaves the
    stored row with experience 60 and level 1. *)
Theorem first_message_of_fresh_user messageText uid now hours r w :
  serving uid now hours r w →
  fresh r →
  listed "freshman" = true →
  6 ≤ hours < 22 →
  ∃ res w' r',
    processUserInteraction messageText ["food"; "transit"] w = (Fulfilled res, w') ∧
    Interaction.leveledUp res = false ∧
    (∃ b, b ∈ Interaction.newBadges res ∧ Badge.id b = "freshman") ∧
    (∀ b, b ∈ Interaction.newBadges res → Badge.id b ≠ "explorer") ∧
    user_stats w' !! uid = Some r' ∧
    Row.experience_points r' = 60 ∧ Row.level r' = 1.
Proof.
  intros Hw Hfresh Hlisted Hhours.
  destruct (hoare_run _ _ _ _
              (processUserInteraction_serving uid now hours r messageText
                 ["food"; "transit"]) Hw) as (res & w' & Hrun & -> & Hw').
  destruct (fresh_after_snapshots now hours r Hfresh Hlisted Hhours)
    as (Hxp & Hlv & _ & _ & Hu).
  unfold after_processUserInteraction in Hw'. cbv zeta in Hw'. rewrite Hlv in Hw'.
  change (5 <=? 1) with false in Hw'. cbv iota in Hw'.
  eexists _, w', _. split; [exact Hrun|]. simpl. split_and!.
  - rewrite Hlv. destruct Hfresh as (_ & -> & _). done.
  - apply newly_ids. rewrite Hu, Hlisted. split_and!; [done..|].
    by apply fresh_locked.
  - intros b Hb Hid.
    assert (∃ b, b ∈ newly r (after_snapshots ["food"; "transit"] now hours r)
                 ∧ Badge.id b = "explorer") as H by eauto.
    apply newly_ids in H as (_ & H & _). rewrite Hu in H.
    by rewrite andb_false_r in H.
  - by destruct Hw' as (_ & ? & _).
  - done.
  - done.
Qed.

(** ** The diff and the scholar check *)

Lemma newly_unlocked_kept oldBadges newBadges idx0 kept :
  newly_unlocked oldBadges idx0 newBadges = inr kept →
  ∀ b, b ∈ kept → b ∈ newBadges ∧ Badge.unlocked b = true.
Proof.
  revert idx0 kept. induction newBadges as [|badge rest IH]; intros idx0 kept; simpl.
  - intros [= <-] b Hb. by apply elem_of_nil in Hb.
  - destruct (Badge.unlocked badge) eqn:Hu.
    + destruct (oldBadges !! idx0) as [old|]; [|done].
      destruct (newly_unlocked oldBadges (S idx0) rest) as [e|kept0] eqn:Hrest; [done|].
      intros [= <-] b Hb. specialize (IH _ _ Hrest).
      destruct (negb (Badge.unlocked old)).
      * apply elem_of_cons in Hb as [->|Hb]; [split; [left|done]|].
        destruct (IH b Hb). split; [by right|done].
      * destruct (IH b Hb). split; [by right|done].
    + intros Hrest b Hb. destruct (IH _ _ Hrest b Hb). split; [by right|done].
Qed.

Lemma find_locked_all badgeId r badge :
  find (λ b, String.eqb (Badge.id b) badgeId) (UserStats.badges (stats_of_row r)) = Some badge →
  Badge.unlocked badge = false →
  unlockable badgeId r = true ∧
  ∀ b, b ∈ UserStats.badges (stats_of_row r) → Badge.id b = badgeId →
       Badge.unlocked b = false.
Proof.
  intros Hfind Hlocked.
  assert (unlockable badgeId r = true) as Hable.
  { unfold unlockable. by rewrite Hfind, Hlocked. }
  split; [done|]. intros b Hb Hid.
  rewrite unlockable_listed in Hable. apply andb_true_iff in Hable as [_ Hnot].
  apply negb_true_iff in Hnot.
  simpl in Hb. apply list_elem_of_fmap in Hb as (c & -> & _). simpl in *.
  by rewrite Hid.
Qed.

Lemma interaction_result_serving_any uid now hours oldStats r1 kept :
  newly_unlocked (UserStats.badges oldStats) 0 (UserStats.badges (stats_of_row r1))
    = inr kept →
  hoare (serving uid now hours r1) (interaction_result oldStats (stats_of_row r1))
    (λ res w,
       res = {| Interaction.newBadges := kept;
                Interaction.leveledUp := Row.level r1 >? UserStats.level oldStats |} ∧
       serving uid now hours
         (if 5 <=? Row.level r1 then after_unlockBadge "scholar" now r1 else r1) w)
    (λ _ _, False).
Proof.
  intros Hkept. unfold interaction_result. rewrite Hkept. cbv zeta.
  change (UserStats.level (stats_of_row ?r)) with (Row.level r).
  destruct (5 <=? Row.level r1).
  - eapply hoare_bind; [eapply hoare_forget, unlockBadge_serving|]. intros ?.
    by apply hoare_ret.
  - eapply hoare_bind with (R := λ _, serving uid now hours _); [by apply hoare_ret|].
    intros ?. by apply hoare_ret.
Qed.

Lemma interaction_snapshots_shaped topics w oldStats newStats w1 :
  interaction_snapshots topics w = (Fulfilled (oldStats, newStats), w1) →
  catalog_shaped oldStats ∧
  ∃ w0, getUserStats w0 = (Fulfilled newStats, w1).
Proof.
  unfold interaction_snapshots, mbind, Promise_bind, await, mret, Promise_ret, resolve.
  destruct (getUserStats w) as [[s0|e] w'] eqn:Hold; [|done].
  destruct (incrementMessageCount w') as [[[]|e] w2]; [|done].
  destruct (for_of topics addExploredTopic w2) as [[[]|e] w3]; [|done].
  destruct (getUserStats w3) as [[s1|e] w4] eqn:Hnew; [|done].
  intros [= <- <- <-]. split; [by eapply getUserStats_shaped|by exists w3].
Qed.

(** C6, amended: in [processUserInteraction] the flag leveledUp and the
    list of new badges come from the two snapshots, taken before the
    scholar check.  When the snapshots are taken, the second one has
    level 5 or more and scholar locked, and the requests that follow (those
    of the scholar unlock) go through, the call fulfils; its new badges are the diff of the snapshots and hold no
    badge with id scholar; its leveledUp compares the levels of the
    snapshots; and yet the stored row then has scholar unlocked, 50 more
    experience than the second snapshot and the level of that
    experience. *)
Theorem scholar_unlock_not_in_returned_diff messageText topics w oldStats newStats w1 badge :
  interaction_snapshots topics w = (Fulfilled (oldStats, newStats), w1) →
  5 ≤ UserStats.level newStats →
  find (λ b, String.eqb (Badge.id b) "scholar") (UserStats.badges newStats) = Some badge →
  Badge.unlocked badge = false →
  quiet w1 →
  ∃ res w2 uid r1 r2,
    processUserInteraction messageText topics w = (Fulfilled res, w2) ∧
    newly_unlocked (UserStats.badges oldStats) 0 (UserStats.badges newStats)
      = inr (Interaction.newBadges res) ∧
    (∀ b, b ∈ Interaction.newBadges res → Badge.id b ≠ "scholar") ∧
    Interaction.leveledUp res = (UserStats.level newStats >? UserStats.level oldStats) ∧
    truthy (session w1) = Some uid ∧ truthy (session w2) = Some uid ∧
    user_stats w1 !! uid = Some r1 ∧ is_unlocked "scholar" r1 = false ∧
    user_stats w2 !! uid = Some r2 ∧ is_unlocked "scholar" r2 = true ∧
    Row.experience_points r2 = UserStats.experience newStats + 50 ∧
    Row.level r2 = calculateLevel (UserStats.experience newStats + 50).
Proof.
  intros Hsnap Hlevel Hfind Hlocked Hquiet.
  destruct (interaction_snapshots_shaped _ _ _ _ _ Hsnap) as (Sold & w0 & Hread).
  destruct (getUserStats_frame w0) as (s & w' & Heq & Hs & Ht & Hi & Hh & _ & _ & Hcase).
  rewrite Hread in Heq. injection Heq as <- <-.
  destruct Hcase as [->|(uid & r1 & Huid & Hrow & ->)]; [simpl in Hlevel; lia|].
  change (UserStats.level (stats_of_row r1)) with (Row.level r1) in *.
  change (UserStats.experience (stats_of_row r1)) with (Row.experience_points r1).
  destruct (find_locked_all _ _ _ Hfind Hlocked) as [Hable Hall].
  destruct (newly_unlocked_in_bounds (UserStats.badges oldStats)
              (UserStats.badges (stats_of_row r1)) 0) as [kept Hkept].
  { rewrite (catalog_shaped_length _ Sold),
      (catalog_shaped_length _ (stats_of_row_shaped r1)). lia. }
  assert (serving uid (clock_iso w1) (clock_hours w1) r1 w1) as Hw1.
  { split_and!; [by rewrite Hs | by rewrite Ht | done..]. }
  destruct (hoare_run _ _ _ _
              (interaction_result_serving_any uid _ _ oldStats r1 kept Hkept) Hw1)
    as (res & w2 & Hrun & -> & Hw2).
  replace (5 <=? Row.level r1) with true in Hw2 by lia.
  destruct Hw2 as (Huid2 & Hrow2 & _).
  pose proof Hable as Hl. rewrite unlockable_listed in Hl.
  apply andb_true_iff in Hl as [Hlisted Hnot]. apply negb_true_iff in Hnot.
  eexists _, w2, uid, r1, _. split_and!.
  - rewrite processUserInteraction_split. rewrite (await_fulfilled _ _ _ _ _ Hsnap).
    exact Hrun.
  - exact Hkept.
  - simpl. intros b Hb Hid.
    destruct (newly_unlocked_kept _ _ _ _ Hkept b Hb) as [Hin Hu].
    by rewrite (Hall b Hin Hid) in Hu.
  - done.
  - by rewrite Hs.
  - done.
  - by rewrite Ht.
  - done.
  - exact Hrow2.
  - rewrite is_unlocked_after_unlockBadge, Hable, Hlisted. done.
  - by rewrite after_unlockBadge_experience, Hable.
  - by rewrite after_unlockBadge_level, Hable.
Qed.

(** ** The leaderboard *)

#[local] Instance richer_trans : Transitive richer.
Proof. unfold richer. intros x y z. lia. Qed.

#[local] Instance richer_total : Total richer.
Proof. unfold richer. intros x y. lia. Qed.

Lemma ranking_entries (m : gmap string Row.t) e :
  e ∈ merge_sort richer (map (λ kv, entry_of kv.1 kv.2) (map_to_list m)) ↔
  ∃ r, m !! LeaderboardEntry.user_id e = Some r ∧ e = entry_of (LeaderboardEntry.user_id e) r.
Proof.
  rewrite merge_sort_Permutation.
  change (map ?f ?l) with (f <$> l). rewrite list_elem_of_fmap. split.
  - intros ([uid r] & -> & Hin). apply elem_of_map_to_list in Hin. by exists r.
  - intros (r & Hr & He). exists (LeaderboardEntry.user_id e, r). split; [done|].
    by apply elem_of_map_to_list.
Qed.

Lemma ranking_ids (m : gmap string Row.t) :
  NoDup (map LeaderboardEntry.user_id
           (merge_sort richer (map (λ kv, entry_of kv.1 kv.2) (map_to_list m)))).
Proof.
  change (map ?f ?l) with (f <$> l). rewrite merge_sort_Permutation.
  rewrite <-list_fmap_compose.
  apply (NoDup_fst_map_to_list m).
Qed.

Lemma ranking_top (m : gmap string Row.t) (n : nat) :
  let board :=
    take n (merge_sort richer (map (λ kv, entry_of kv.1 kv.2) (map_to_list m))) in
  length board = (n `min` size m)%nat ∧
  StronglySorted richer board ∧
  NoDup (map LeaderboardEntry.user_id board) ∧
  (∀ e, e ∈ board →
     ∃ r, m !! LeaderboardEntry.user_id e = Some r ∧
          e = entry_of (LeaderboardEntry.user_id e) r) ∧
  (∀ uid r, m !! uid = Some r →
     entry_of uid r ∈ board ∨
     ∀ e, e ∈ board → Row.experience_points r ≤ LeaderboardEntry.experience_points e).
Proof.
  set (ranking := merge_sort richer _). intros board.
  pose proof (StronglySorted_merge_sort richer
                (map (λ kv, entry_of kv.1 kv.2) (map_to_list m))) as Hsorted.
  fold ranking in Hsorted. rewrite <-(take_drop n ranking) in Hsorted. fold board in Hsorted.
  split_and!.
  - unfold board. rewrite length_take. unfold ranking.
    by rewrite merge_sort_Permutation, length_map, length_map_to_list.
  - by eapply StronglySorted_app_1_l.
  - apply (sublist_NoDup _ (map LeaderboardEntry.user_id ranking)); [apply (ranking_ids m)|].
    change (map ?f ?l) with (f <$> l). apply fmap_sublist, sublist_take.
  - intros e He. apply ranking_entries. by eapply subseteq_take.
  - intros uid r Hr.
    assert (entry_of uid r ∈ ranking) as Hin by (apply ranking_entries; by exists r).
    rewrite <-(take_drop n ranking) in Hin. apply elem_of_app in Hin as [Hin|Hin]; [by left|].
    right. intros e He. apply (StronglySorted_app_1_elem_of _ _ _ _ _ Hsorted He Hin).
Qed.

(** X1: [getLeaderboard] never rejects, needs no signed-in user and leaves
    the table as it is.  When its request fails it resolves to the empty
    list.  Otherwise it resolves to the [limit] (10 when left out) rows of
    highest experience, or to all rows when there are fewer: that many
    entries, in order of non-increasing experience, one per user, each
    with the columns of that user's row, and no row left out has more
    experience than a row listed. *)
Theorem getLeaderboard_top limit w :
  ∃ board w',
    getLeaderboard limit w = (Fulfilled board, w') ∧
    user_stats w' = user_stats w ∧ session w' = session w ∧
    match (next_fault w).1 with
    | Some _ => board = []
    | None =>
        length board = (default 10 limit `min` size (user_stats w))%nat ∧
        StronglySorted richer board ∧
        NoDup (map LeaderboardEntry.user_id board) ∧
        (∀ e, e ∈ board →
           ∃ r, user_stats w !! LeaderboardEntry.user_id e = Some r ∧
                e = entry_of (LeaderboardEntry.user_id e) r) ∧
        (∀ uid r, user_stats w !! uid = Some r →
           entry_of uid r ∈ board ∨
           ∀ e, e ∈ board →
                Row.experience_points r ≤ LeaderboardEntry.experience_points e)
    end.
Proof.
  unfold getLeaderboard, select_top. run_promise.
  destruct (faults w) as [|[msg|] rest] eqn:Hf; simpl.
  - eexists _, _. split; [reflexivity|]. split; [done|]. split; [done|]. apply ranking_top.
  - by eexists _, _.
  - eexists _, _. split; [reflexivity|]. split; [done|]. split; [done|]. apply ranking_top.
Qed.

(** ** Rows the operations leave alone *)

Lemma alter_keeps_others (f : Row.t → Row.t) uid (m0 m : gmap string Row.t) (who : option string) :
  who = Some uid →
  dom m =@{gset string} dom m0 ∧ (∀ k, who ≠ Some k → m !! k = m0 !! k) →
  dom (alter f uid m) =@{gset string} dom m0 ∧
  (∀ k, who ≠ Some k → alter f uid m !! k = m0 !! k).
Proof.
  intros -> [Hdom Hrows]. split; [by rewrite dom_alter_L|].
  intros k Hk. rewrite lookup_alter_ne by congruence. by apply Hrows.
Qed.

(** X2: whatever it settles to, an operation of the engine leaves the
    session and the clock as they are, creates no row and deletes none,
    and leaves the row of every user other than the signed-in one as it
    is.  So a guest's call, and the call of a user who has no row, leave
    the whole table as it is. *)
Theorem operations_keep_other_rows op w :
  session (perform op w).2 = session w ∧
  clock_iso (perform op w).2 = clock_iso w ∧
  clock_hours (perform op w).2 = clock_hours w ∧
  dom (user_stats (perform op w).2) =@{gset string} dom (user_stats w) ∧
  (∀ uid, truthy (session w) ≠ Some uid →
     user_stats (perform op w).2 !! uid = user_stats w !! uid) ∧
  (truthy (session w) = None → user_stats (perform op w).2 = user_stats w) ∧
  (∀ uid, truthy (session w) = Some uid → user_stats w !! uid = None →
     user_stats (perform op w).2 = user_stats w).
Proof.
  set (I := λ w1 : World,
    session w1 = session w ∧ clock_iso w1 = clock_iso w ∧ clock_hours w1 = clock_hours w ∧
    dom (user_stats w1) =@{gset string} dom (user_stats w) ∧
    (∀ uid, truthy (session w) ≠ Some uid → user_stats w1 !! uid = user_stats w !! uid)).
  assert (hoare I (perform op) (λ _, I) (λ _, I)) as H.
  { apply perform_keeps.
    - intros w1 (Hs & Hi & Hh & Hdom & Hrows).
      destruct (getUserStats_frame w1) as (s & w' & -> & Hs' & Ht' & Hi' & Hh' & _).
      unfold I. by rewrite Hs', Ht', Hi', Hh'.
    - intros updates w1 (Hs & Hi & Hh & Hdom & Hrows).
      pose proof (updateUserStats_outcomes updates w1) as Hout.
      destruct (truthy (session w1)) as [uid|] eqn:Huid; [|rewrite Hout; by split_and!].
      destruct Hout as (w' & Hs' & Hi' & Hh' & _ & [(msg & -> & Ht' & _)|(-> & Ht' & _)]);
        unfold I; rewrite Hs', Hi', Hh', Ht'; split_and!; try done.
      all: apply (alter_keeps_others _ uid (user_stats w) _ (truthy (session w)));
        [by rewrite <-Hs|done].
    - intros w1 (Hs & Hi & Hh & Hdom & Hrows).
      pose proof (resetUserStats_outcomes w1) as Hout.
      destruct (truthy (session w1)) as [uid|] eqn:Huid; [|rewrite Hout; by split_and!].
      destruct Hout as (w' & Hs' & Hi' & Hh' & _ & [(msg & -> & Ht' & _)|(-> & Ht' & _)]);
        unfold I; rewrite Hs', Hi', Hh', Ht'; split_and!; try done.
      all: apply (alter_keeps_others _ uid (user_stats w) _ (truthy (session w)));
        [by rewrite <-Hs|done]. }
  assert (I (perform op w).2) as (Hs & Hi & Hh & Hdom & Hrows).
  { specialize (H w). destruct (perform op w) as [[a|e] w']; apply H; by split_and!. }
  split_and!; try done.
  - intros Hguest. apply map_eq. intros uid. apply Hrows. by rewrite Hguest.
  - intros uid Huid Hnone. apply map_eq. intros k.
    destruct (decide (k = uid)) as [->|Hne]; [|apply Hrows; congruence].
    rewrite Hnone. apply not_elem_of_dom. rewrite Hdom. by apply not_elem_of_dom.
Qed.

(** ** Reset, and reading back what was written *)

Lemma resetUserStats_serving uid now hours r :
  hoare (serving uid now hours r) resetUserStats
    (λ _, serving uid now hours (UpdateData.apply reset_updateData r)) (λ _ _, False).
Proof.
  intros w (Huid & Hrow & Hiso & Hh & Hq).
  pose proof (resetUserStats_outcomes w) as H. rewrite Huid in H.
  destruct H as (w' & Hs & Hi & Hh' & Hq' & [(msg & _ & _ & _ & Hn)|(-> & Ht & _)]); [done|].
  split_and!; [by rewrite Hs | | congruence | congruence | auto].
  by rewrite Ht, lookup_alter_eq, Hrow.
Qed.

Lemma locked_catalog_unchanged (catalog : list Badge.t) :
  Forall (λ b, Badge.unlocked b = false) catalog →
  map (Badge.with_unlocked false) catalog = catalog.
Proof.
  induction 1 as [|[i n u] catalog Hu _ IH]; simpl in *; [done|]. by rewrite IH, Hu.
Qed.

(** X3: for a signed-in user whose requests go through, [resetUserStats]
    fulfils and leaves the row with experience 0, level 1, zero messages,
    no badges and no topics, the time of the last message being kept; a
    second reset changes nothing more.  Read back, the progress has
    experience 0, level 1, next-level value 100, no topics, zero messages
    and every catalog badge locked, whatever the catalog declares: it is
    the default progress when the catalog declares its badges locked. *)
Theorem resetUserStats_then_read uid now hours r w :
  serving uid now hours r w →
  ∃ w1 w2 w3 s,
    resetUserStats w = (Fulfilled tt, w1) ∧
    serving uid now hours (Row.mk 0 1 0 (Some []) (Some []) (Row.last_message_at r)) w1 ∧
    getUserStats w1 = (Fulfilled s, w2) ∧
    resetUserStats w2 = (Fulfilled tt, w3) ∧
    serving uid now hours (Row.mk 0 1 0 (Some []) (Some []) (Row.last_message_at r)) w3 ∧
    UserStats.experience s = 0 ∧ UserStats.level s = 1 ∧ UserStats.nextLevelXP s = 100 ∧
    UserStats.topicsExplored s = [] ∧ UserStats.messagesCount s = 0 ∧
    UserStats.badges s = map (Badge.with_unlocked false) INITIAL_BADGES ∧
    (Forall (λ b, Badge.unlocked b = false) INITIAL_BADGES → s = default_stats).
Proof.
  intros Hw.
  destruct (hoare_run _ _ _ _ (resetUserStats_serving uid now hours r) Hw)
    as ([] & w1 & Hreset & Hw1).
  destruct (hoare_run _ _ _ _ (getUserStats_serving uid now hours _) Hw1)
    as (s & w2 & Hread & -> & Hw2).
  destruct (hoare_run _ _ _ _ (resetUserStats_serving uid now hours _) Hw2)
    as ([] & w3 & Hagain & Hw3).
  eexists w1, w2, w3, _. split_and!; try done.
  intros Hlocked. unfold default_stats.
  rewrite <-(locked_catalog_unchanged _ Hlocked) at 1. reflexivity.
Qed.

Lemma addExperience_serving_result uid now hours r xpAmount :
  hoare (serving uid now hours r) (addExperience xpAmount)
    (λ s w,
       s = stats_of_row (with_experience (Row.experience_points r + xpAmount) r) ∧
       serving uid now hours (with_experience (Row.experience_points r + xpAmount) r) w)
    (λ _ _, False).
Proof.
  unfold addExperience. read_row.
  eapply hoare_bind; [apply updateUserStats_serving|]. intros ?.
  by apply hoare_ret.
Qed.

(** X4: for a signed-in user whose requests go through, [addExperience]
    with any integer amount, negative ones included (nothing clamps the
    sum at 0), stores the sum and floor(sum / 100) + 1 as the level, and
    changes no other column; the record it resolves to is the one the
    next [getUserStats] returns. *)
Theorem addExperience_then_read uid now hours r w (xpAmount : Z) :
  serving uid now hours r w →
  ∃ s w1 w2 r',
    addExperience xpAmount w = (Fulfilled s, w1) ∧
    serving uid now hours r' w1 ∧
    getUserStats w1 = (Fulfilled s, w2) ∧
    Row.experience_points r' = Row.experience_points r + xpAmount ∧
    Row.level r' = (Row.experience_points r + xpAmount) / 100 + 1 ∧
    Row.total_messages r' = Row.total_messages r ∧
    Row.badges_unlocked r' = Row.badges_unlocked r ∧
    Row.topics_explored r' = Row.topics_explored r ∧
    Row.last_message_at r' = Row.last_message_at r ∧
    UserStats.experience s = Row.experience_points r + xpAmount ∧
    UserStats.level s = (Row.experience_points r + xpAmount) / 100 + 1 ∧
    UserStats.nextLevelXP s = ((Row.experience_points r + xpAmount) / 100 + 1) * 100.
Proof.
  intros Hw.
  destruct (hoare_run _ _ _ _ (addExperience_serving_result uid now hours r xpAmount) Hw)
    as (s & w1 & Hadd & -> & Hw1).
  destruct (hoare_run _ _ _ _ (getUserStats_serving uid now hours _) Hw1)
    as (s & w2 & Hread & -> & Hw2).
  eexists _, w1, w2, _. split_and!; try done; simpl.
  all: unfold calculateNextLevelXP; by rewrite calculateLevel_div.
Qed.

(** ** Writing after a failed read *)

Lemma getUserStats_read_fault uid w msg rest :
  truthy (session w) = Some uid → faults w = Some msg :: rest →
  getUserStats w =
    (Fulfilled default_stats,
     with_console (("Error fetching user stats:", msg) :: console w) (with_faults rest w)).
Proof.
  intros Huid Hf. unfold getUserStats. run_promise. by rewrite Huid, Hf.
Qed.

Lemma serving_with_console uid now hours r w lines :
  serving uid now hours r w → serving uid now hours r (with_console lines w).
Proof. by intros (? & ? & ? & ? & ?). Qed.

(** X11: when the read at the start of [addExperience] or of
    [addExploredTopic] fails and the write that follows goes through, the
    write starts from the default progress: [addExperience] stores the
    amount itself as the experience (what was stored before is lost) and
    resolves to a record with that experience; [addExploredTopic] stores
    the one topic as the whole list. *)
Theorem write_after_failed_read uid now hours r w msg rest (xpAmount : Z) (topic : string) :
  faults w = Some msg :: rest →
  serving uid now hours r (with_faults rest w) →
  (∃ s w',
     addExperience xpAmount w = (Fulfilled s, w') ∧
     serving uid now hours (with_experience xpAmount r) w' ∧
     UserStats.experience s = xpAmount ∧
     console w' = ("Error fetching user stats:", msg) :: console w) ∧
  (∃ w',
     addExploredTopic topic w = (Fulfilled tt, w') ∧
     serving uid now hours (with_topics [topic] r) w' ∧
     console w' = ("Error fetching user stats:", msg) :: console w).
Proof.
  intros Hf Hw.
  assert (truthy (session w) = Some uid) as Huid by (by destruct Hw).
  pose proof (getUserStats_read_fault uid w msg rest Huid Hf) as Hread.
  set (w0 := with_console (("Error fetching user stats:", msg) :: console w)
               (with_faults rest w)) in *.
  assert (serving uid now hours r w0) as Hw0 by (by apply serving_with_console).
  assert (∀ updates, ∃ w',
            updateUserStats updates w0 = (Fulfilled tt, w') ∧
            serving uid now hours (UpdateData.apply (build_updateData updates now) r) w' ∧
            console w' = ("Error fetching user stats:", msg) :: console w) as Hwrite.
  { intros updates.
    destruct (hoare_run _ _ _ _ (updateUserStats_serving uid now hours r updates) Hw0)
      as ([] & w' & Hrun & Hw').
    pose proof (updateUserStats_outcomes updates w0) as Hout.
    change (truthy (session w0)) with (truthy (session w)) in Hout. rewrite Huid in Hout.
    destruct Hout as (w'' & _ & _ & _ & _ & [(? & Hrej & _)|(Hok & _ & Hc)]);
      [by rewrite Hrun in Hrej|].
    rewrite Hrun in Hok. injection Hok as <-. by exists w'. }
  split.
  - destruct (Hwrite {| Updates.experience := Some (0 + xpAmount); Updates.level := None;
                        Updates.badges := None; Updates.topicsExplored := None;
                        Updates.messagesCount := None |}) as (w' & Hrun & Hw' & Hc).
    eexists _, w'. unfold addExperience.
    rewrite (await_fulfilled _ _ _ _ _ Hread). cbv zeta.
    rewrite (await_fulfilled _ _ _ _ _ Hrun). by split_and!.
  - destruct (Hwrite {| Updates.experience := None; Updates.level := None;
                        Updates.badges := None; Updates.topicsExplored := Some [topic];
                        Updates.messagesCount := None |}) as (w' & Hrun & Hw' & Hc).
    exists w'. unfold addExploredTopic.
    rewrite (await_fulfilled _ _ _ _ _ Hread). simpl.
    rewrite (await_fulfilled _ _ _ _ _ Hrun). by split_and!.
Qed.

(** ** A signed-in user without a row *)

Lemma getUserStats_rowless uid :
  hoare (rowless uid) getUserStats (λ s w, s = default_stats ∧ rowless uid w) (λ _ _, False).
Proof.
  intros w (Huid & Hrow & Hq). unfold getUserStats. run_promise. rewrite Huid.
  destruct (faults w) as [|f rest] eqn:Hf; simpl.
  - rewrite Hrow. simpl. split; [done|]. by split_and!.
  - destruct (quiet_tail _ _ _ Hf Hq) as [-> Hq']. rewrite Hrow. simpl.
    split; [done|]. by split_and!.
Qed.

Lemma updateUserStats_rowless uid updates :
  hoare (rowless uid) (updateUserStats updates) (λ _, rowless uid) (λ _ _, False).
Proof.
  intros w (Huid & Hrow & Hq).
  pose proof (updateUserStats_outcomes updates w) as H. rewrite Huid in H.
  destruct H as (w' & Hs & _ & _ & Hq' & [(msg & _ & _ & _ & Hn)|(-> & Ht & _)]); [done|].
  split_and!; [by rewrite Hs | | auto].
  by rewrite Ht, lookup_alter_eq, Hrow.
Qed.

Lemma resetUserStats_rowless uid :
  hoare (rowless uid) resetUserStats (λ _, rowless uid) (λ _ _, False).
Proof.
  intros w (Huid & Hrow & Hq).
  pose proof (resetUserStats_outcomes w) as H. rewrite Huid in H.
  destruct H as (w' & Hs & _ & _ & Hq' & [(msg & _ & _ & _ & Hn)|(-> & Ht & _)]); [done|].
  split_and!; [by rewrite Hs | | auto].
  by rewrite Ht, lookup_alter_eq, Hrow.
Qed.

Lemma getUserStats_rowless_keeps uid :
  hoare (rowless uid) getUserStats (λ _, rowless uid) (λ _ _, False).
Proof.
  intros w Hw. pose proof (getUserStats_rowless uid w Hw) as H.
  by destruct (getUserStats w) as [[s|e] w']; [destruct H|].
Qed.

Lemma newly_unlocked_same (badges pre : list Badge.t) :
  newly_unlocked (pre ++ badges)%list (length pre) badges = inr [].
Proof.
  revert pre. induction badges as [|badge rest IH]; intros pre; simpl; [done|].
  specialize (IH (pre ++ [badge])%list).
  rewrite <-app_assoc, length_app, Nat.add_1_r in IH. simpl in IH. rewrite IH.
  destruct (Badge.unlocked badge) eqn:Hu; [|done].
  rewrite lookup_app_r, Nat.sub_diag by done. simpl. by rewrite Hu.
Qed.

Lemma alter_missing (f : Row.t → Row.t) uid (m : gmap string Row.t) :
  m !! uid = None → alter f uid m = m.
Proof.
  intros Hnone. apply map_eq. intros k. destruct (decide (uid = k)) as [<-|Hne].
  - by rewrite lookup_alter_eq, Hnone.
  - by rewrite lookup_alter_ne.
Qed.

Lemma perform_without_row uid op w :
  truthy (session w) = Some uid → user_stats w !! uid = None →
  user_stats (perform op w).2 = user_stats w.
Proof.
  intros Huid Hnone.
  set (I := λ w1 : World, truthy (session w1) = Some uid ∧ user_stats w1 = user_stats w).
  assert (hoare I (perform op) (λ _, I) (λ _, I)) as H.
  { apply perform_keeps.
    - intros w1 [Hs Ht]. destruct (getUserStats_frame w1) as (s & w' & -> & Hs' & Ht' & _).
      unfold I. by rewrite Hs', Ht'.
    - intros updates w1 [Hs Ht]. pose proof (updateUserStats_outcomes updates w1) as Hout.
      rewrite Hs in Hout.
      destruct Hout as (w' & Hs' & _ & _ & _ & [(msg & -> & Ht' & _)|(-> & Ht' & _)]);
        unfold I; rewrite Hs', Ht'; split; try done.
      rewrite Ht. by apply alter_missing.
    - intros w1 [Hs Ht]. pose proof (resetUserStats_outcomes w1) as Hout.
      rewrite Hs in Hout.
      destruct Hout as (w' & Hs' & _ & _ & _ & [(msg & -> & Ht' & _)|(-> & Ht' & _)]);
        unfold I; rewrite Hs', Ht'; split; try done.
      rewrite Ht. by apply alter_missing. }
  specialize (H w). destruct (perform op w) as [[a|e] w']; by apply H.
Qed.

(** X5: for a signed-in user who has no row, the requests going through,
    every operation of the engine fulfils and stores nothing (the read
    falls back to the default progress and the update of a missing row is
    not an error).  The answers nevertheless report progress:
    [addExperience] resolves to a record with the amount as experience,
    [unlockBadge] of a badge the catalog lists as locked answers true, and
    answers true again when called again; [processUserInteraction]
    reports no new badge and no level-up. *)
Theorem calls_without_row uid w :
  rowless uid w →
  (∀ op, ∃ w', perform op w = (Fulfilled tt, w') ∧ rowless uid w' ∧
               user_stats w' = user_stats w) ∧
  (∀ xpAmount, ∃ s w',
     addExperience xpAmount w = (Fulfilled s, w') ∧
     UserStats.experience s = xpAmount ∧ UserStats.level s = xpAmount / 100 + 1) ∧
  (∀ badgeId badge,
     find (λ b, String.eqb (Badge.id b) badgeId) INITIAL_BADGES = Some badge →
     Badge.unlocked badge = false →
     ∃ w1 w2, unlockBadge badgeId w = (Fulfilled true, w1) ∧
              unlockBadge badgeId w1 = (Fulfilled true, w2)) ∧
  (∀ messageText topics, ∃ w',
     processUserInteraction messageText topics w =
       (Fulfilled {| Interaction.newBadges := []; Interaction.leveledUp := false |}, w')).
Proof.
  intros Hw.
  pose proof (getUserStats_rowless_keeps uid) as Hread.
  pose proof (updateUserStats_rowless uid) as Hwrite.
  pose proof (resetUserStats_rowless uid) as Hreset.
  split_and!.
  - intros op.
    destruct (hoare_run _ _ _ _
                (perform_keeps _ _ Hread Hwrite Hreset op) Hw) as ([] & w' & Hrun & Hw').
    exists w'. split_and!; [done..|].
    destruct Hw as (Huid & Hrow & _).
    pose proof (perform_without_row uid op w Huid Hrow) as H. by rewrite Hrun in H.
  - intros xpAmount. unfold addExperience.
    destruct (hoare_run _ _ _ _ (getUserStats_rowless uid) Hw) as (s & w1 & Hr & -> & Hw1).
    rewrite (await_fulfilled _ _ _ _ _ Hr). cbv zeta.
    match goal with |- context [updateUserStats ?u] =>
      destruct (hoare_run _ _ _ _ (Hwrite u) Hw1) as ([] & w2 & Hu & Hw2) end.
    rewrite (await_fulfilled _ _ _ _ _ Hu). eexists _, _. split; [reflexivity|].
    simpl. by rewrite calculateLevel_div.
  - intros badgeId badge Hfind Hlocked.
    assert (∀ w0, rowless uid w0 →
              ∃ w', unlockBadge badgeId w0 = (Fulfilled true, w') ∧ rowless uid w') as Hcall.
    { intros w0 Hw0. unfold unlockBadge.
      destruct (hoare_run _ _ _ _ (getUserStats_rowless uid) Hw0) as (s & w1 & Hr & -> & Hw1).
      rewrite (await_fulfilled _ _ _ _ _ Hr).
      change (UserStats.badges default_stats) with INITIAL_BADGES.
      rewrite Hfind, Hlocked.
      match goal with |- context [updateUserStats ?u] =>
      destruct (hoare_run _ _ _ _ (Hwrite u) Hw1) as ([] & w2 & Hu & Hw2) end.
      rewrite (await_fulfilled _ _ _ _ _ Hu).
      destruct (hoare_run _ _ _ _
                  (addExperience_keeps _ _ Hread Hwrite 50) Hw2) as (s & w3 & Ha & Hw3).
      rewrite (await_fulfilled _ _ _ _ _ Ha). by exists w3. }
    destruct (Hcall w Hw) as (w1 & H1 & Hw1). destruct (Hcall w1 Hw1) as (w2 & H2 & _).
    by exists w1, w2.
  - intros messageText topics. unfold processUserInteraction.
    destruct (hoare_run _ _ _ _ (getUserStats_rowless uid) Hw) as (s & w1 & Hr & -> & Hw1).
    rewrite (await_fulfilled _ _ _ _ _ Hr).
    destruct (hoare_run _ _ _ _
                (incrementMessageCount_keeps _ _ Hread Hwrite) Hw1) as ([] & w2 & Hi & Hw2).
    rewrite (await_fulfilled _ _ _ _ _ Hi).
    destruct (hoare_run _ _ _ _
                (hoare_for_of addExploredTopic topics _ _
                   (addExploredTopic_keeps _ _ Hread Hwrite)) Hw2) as ([] & w3 & Ht & Hw3).
    rewrite (await_fulfilled _ _ _ _ _ Ht).
    destruct (hoare_run _ _ _ _ (getUserStats_rowless uid) Hw3) as (s & w4 & Hr4 & -> & Hw4).
    rewrite (await_fulfilled _ _ _ _ _ Hr4). cbv zeta.
    pose proof (newly_unlocked_same (UserStats.badges default_stats) []) as Hsame.
    simpl in Hsame. change (UserStats.badges default_stats) with INITIAL_BADGES.
    rewrite Hsame. by eexists.
Qed.

(** ** Writing the badges and reading them back *)

Lemma stored_flag_absent (badges : list Badge.t) badgeId :
  badgeId ∉ map Badge.id badges →
  existsb (λ b, Badge.unlocked b && String.eqb (Badge.id b) badgeId) badges = false.
Proof.
  induction badges as [|b badges IH]; simpl; [done|].
  rewrite not_elem_of_cons. intros [Hne Hrest]. rewrite IH by done.
  destruct (String.eqb_spec (Badge.id b) badgeId) as [Heq|_]; [by destruct Hne|].
  by rewrite andb_false_r.
Qed.

Lemma stored_flag (badges : list Badge.t) b :
  NoDup (map Badge.id badges) → b ∈ badges →
  existsb (λ b', Badge.unlocked b' && String.eqb (Badge.id b') (Badge.id b)) badges
  = Badge.unlocked b.
Proof.
  induction badges as [|b0 badges IH]; simpl; [by intros _ ?%elem_of_nil|].
  rewrite NoDup_cons, elem_of_cons. intros [Hfresh Hnd] [->|Hin].
  - rewrite String.eqb_refl, andb_true_r, stored_flag_absent by done.
    by rewrite orb_false_r.
  - rewrite IH by done.
    destruct (String.eqb_spec (Badge.id b0) (Badge.id b)) as [Heq|_].
    + destruct Hfresh. rewrite Heq. change (map ?f ?l) with (f <$> l).
      by apply list_elem_of_fmap_2.
    + by rewrite andb_false_r.
Qed.

Lemma rebuild_badges (flag : string → bool) (catalog badges : list Badge.t) :
  map Badge.id badges = map Badge.id catalog →
  map Badge.name badges = map Badge.name catalog →
  (∀ b, b ∈ badges → flag (Badge.id b) = Badge.unlocked b) →
  map (λ c, Badge.with_unlocked (flag (Badge.id c)) c) catalog = badges.
Proof.
  revert badges. induction catalog as [|c catalog IH]; intros [|b badges]; simpl; try done.
  intros [= Hid Hids] [= Hname Hnames] Hflag. f_equal.
  - destruct b as [i n u], c as [i' n' u']; simpl in *. subst i' n'.
    unfold Badge.with_unlocked; simpl. f_equal. apply (Hflag (Badge.mk i n u)). by left.
  - apply IH; [done..|]. intros b' Hb'. apply Hflag. by right.
Qed.

(** X6: for a signed-in user whose requests go through and a catalog
    whose ids are all different, writing a badge list that has the
    catalog's ids and names with [updateUserStats] and reading the
    progress back returns that very list: the unlocked flags survive the
    trip through the stored list of unlocked badges; experience, level,
    topics and message count are as before the write. *)
Theorem badges_written_are_read_back uid now hours r w badges :
  serving uid now hours r w →
  NoDup (map Badge.id INITIAL_BADGES) →
  map Badge.id badges = map Badge.id INITIAL_BADGES →
  map Badge.name badges = map Badge.name INITIAL_BADGES →
  ∃ w1 s w2,
    updateUserStats
      {| Updates.experience := None; Updates.level := None; Updates.badges := Some badges;
         Updates.topicsExplored := None; Updates.messagesCount := None |} w
      = (Fulfilled tt, w1) ∧
    getUserStats w1 = (Fulfilled s, w2) ∧
    UserStats.badges s = badges ∧
    UserStats.experience s = Row.experience_points r ∧
    UserStats.level s = Row.level r ∧
    UserStats.topicsExplored s = topics_of r ∧
    UserStats.messagesCount s = Row.total_messages r.
Proof.
  intros Hw Hnd Hids Hnames.
  destruct (hoare_run _ _ _ _
              (updateUserStats_serving uid now hours r
                 {| Updates.experience := None; Updates.level := None;
                    Updates.badges := Some badges; Updates.topicsExplored := None;
                    Updates.messagesCount := None |}) Hw)
    as ([] & w1 & Hwrite & Hw1).
  destruct (hoare_run _ _ _ _ (getUserStats_serving uid now hours _) Hw1)
    as (s & w2 & Hread & -> & Hw2).
  eexists w1, _, w2. split; [exact Hwrite|]. split; [exact Hread|].
  split_and!; try done.
  apply (rebuild_badges
           (λ badgeId, is_unlocked badgeId
              (with_badges (map (λ b, UnlockedBadge.mk (Badge.id b) (Badge.name b) now)
                              (List.filter Badge.unlocked badges)) r))); [done..|].
  intros b Hb. rewrite is_unlocked_stored. apply stored_flag; [by rewrite Hids|done].
Qed.

(** ** The badge diff on any two lists *)

Lemma newly_unlocked_outcome (oldBadges newBadges : list Badge.t) (idx0 : nat) :
  match newly_unlocked oldBadges idx0 newBadges with
  | inl e =>
      e = TypeError ∧
      ∃ i b, newBadges !! i = Some b ∧ Badge.unlocked b = true ∧
             (length oldBadges ≤ idx0 + i)%nat
  | inr kept =>
      (∀ i b, newBadges !! i = Some b → Badge.unlocked b = true →
              (idx0 + i < length oldBadges)%nat) ∧
      kept `sublist_of` newBadges ∧
      ∀ b, b ∈ kept ↔
           ∃ i old, newBadges !! i = Some b ∧ Badge.unlocked b = true ∧
                    oldBadges !! (idx0 + i)%nat = Some old ∧ Badge.unlocked old = false
  end.
Proof.
  revert idx0. induction newBadges as [|badge rest IH]; intros idx0; simpl.
  - split_and!; [intros i b; by rewrite lookup_nil | done |].
    intros b. split; [by intros ?%elem_of_nil|].
    intros (i & old & Hb & _). by rewrite lookup_nil in Hb.
  - specialize (IH (S idx0)).
    destruct (Badge.unlocked badge) eqn:Hu.
    + destruct (oldBadges !! idx0) as [old|] eqn:Hold.
      * destruct (newly_unlocked oldBadges (S idx0) rest) as [e|kept].
        { destruct IH as (-> & i & b & Hb & Hub & Hlen). split; [done|].
          exists (S i), b. split_and!; [done..|lia]. }
        destruct IH as (Hin & Hsub & Hkept). split_and!.
        -- intros [|i] b Hb Hub; simpl in Hb.
           ++ apply lookup_lt_Some in Hold. lia.
           ++ specialize (Hin i b Hb Hub). lia.
        -- destruct (Badge.unlocked old); simpl; by constructor.
        -- intros b. destruct (Badge.unlocked old) eqn:Huo; simpl.
           ++ rewrite Hkept. split.
              ** intros (i & o & Hb & Hub & Ho & Huo'). exists (S i), o.
                 by rewrite Nat.add_succ_r.
              ** intros ([|i] & o & Hb & Hub & Ho & Huo'); simpl in Hb.
                 { rewrite Nat.add_0_r in Ho. congruence. }
                 exists i, o. by rewrite Nat.add_succ_r in Ho.
           ++ rewrite elem_of_cons, Hkept. split.
              ** intros [->|(i & o & Hb & Hub & Ho & Huo')].
                 { exists 0%nat, old. by rewrite Nat.add_0_r. }
                 exists (S i), o. by rewrite Nat.add_succ_r.
              ** intros ([|i] & o & Hb & Hub & Ho & Huo'); simpl in Hb.
                 { left. congruence. }
                 right. exists i, o. by rewrite Nat.add_succ_r in Ho.
      * split; [done|]. exists 0%nat, badge. split_and!; [done..|].
        apply lookup_ge_None in Hold. lia.
    + destruct (newly_unlocked oldBadges (S idx0) rest) as [e|kept].
      * destruct IH as (-> & i & b & Hb & Hub & Hlen). split; [done|].
        exists (S i), b. split_and!; [done..|lia].
      * destruct IH as (Hin & Hsub & Hkept). split_and!.
        -- intros [|i] b Hb Hub; simpl in Hb; [congruence|].
           specialize (Hin i b Hb Hub). lia.
        -- by constructor.
        -- intros b. rewrite Hkept. split.
           ++ intros (i & o & Hb & Hub & Ho & Huo'). exists (S i), o.
              by rewrite Nat.add_succ_r.
           ++ intros ([|i] & o & Hb & Hub & Ho & Huo'); simpl in Hb; [congruence|].
              exists i, o. by rewrite Nat.add_succ_r in Ho.
Qed.

(** X10: the badge diff of [processUserInteraction], on any two lists.
    It fails, with a TypeError, exactly when an unlocked badge of the new
    list sits at an index the old list does not have (locked badges past
    the end of the old list do no harm).  Otherwise it is a sublist of the
    new list, made of exactly the badges that are unlocked there and
    locked at the same index of the old list. *)
Theorem newly_unlocked_characterised (oldBadges newBadges : list Badge.t) :
  match newly_unlocked oldBadges 0 newBadges with
  | inl e =>
      e = TypeError ∧
      ∃ i b, newBadges !! i = Some b ∧ Badge.unlocked b = true ∧
             (length oldBadges ≤ i)%nat
  | inr kept =>
      (∀ i b, newBadges !! i = Some b → Badge.unlocked b = true →
              (i < length oldBadges)%nat) ∧
      kept `sublist_of` newBadges ∧
      ∀ b, b ∈ kept ↔
           ∃ i old, newBadges !! i = Some b ∧ Badge.unlocked b = true ∧
                    oldBadges !! i = Some old ∧ Badge.unlocked old = false
  end.
Proof. apply (newly_unlocked_outcome oldBadges newBadges 0). Qed.

(** ** What one message earns *)

Lemma after_unlockBadge_messages badgeId now r :
  Row.total_messages (after_unlockBadge badgeId now r) = Row.total_messages r ∧
  Row.last_message_at (after_unlockBadge badgeId now r) = Row.last_message_at r.
Proof. unfold after_unlockBadge. by destruct (unlockable badgeId r). Qed.

Lemma after_unlockBadge_bonus badgeId now r :
  Row.experience_points (after_unlockBadge badgeId now r) =
    Row.experience_points r + bonus (unlockable badgeId r).
Proof. apply after_unlockBadge_experience. Qed.

Lemma after_unlockBadge_leveled badgeId now r :
  Row.level r = calculateLevel (Row.experience_points r) →
  Row.level (after_unlockBadge badgeId now r) =
    calculateLevel (Row.experience_points (after_unlockBadge badgeId now r)).
Proof. unfold after_unlockBadge. by destruct (unlockable badgeId r). Qed.

Lemma after_unlockBadge_listed i badgeId now r :
  listed i = true →
  is_unlocked i (after_unlockBadge badgeId now r) =
    is_unlocked i r || (unlockable badgeId r && String.eqb i badgeId).
Proof.
  intros Hi. rewrite is_unlocked_after_unlockBadge, Hi.
  destruct (unlockable badgeId r); simpl; [apply orb_comm|by rewrite orb_false_r].
Qed.

Lemma after_incrementMessageCount_fields now hours r :
  let r' := after_incrementMessageCount now hours r in
  Row.total_messages r' = Row.total_messages r + 1 ∧
  Row.last_message_at r' = Some now ∧
  topics_of r' = topics_of r ∧
  Row.experience_points r' =
    Row.experience_points r + 10 + bonus (earns_freshman r)
    + bonus (earns_night_owl hours r) ∧
  Row.level r' = calculateLevel (Row.experience_points r') ∧
  (∀ i, listed i = true →
     is_unlocked i r' =
       is_unlocked i r || (earns_freshman r && String.eqb i "freshman")
       || (earns_night_owl hours r && String.eqb i "night_owl")).
Proof.
  unfold after_incrementMessageCount, earns_freshman, earns_night_owl. cbv zeta.
  set (r2 := with_experience _ _).
  assert (Row.level r2 = calculateLevel (Row.experience_points r2)) as Hlv2 by done.
  assert (unlockable "freshman" r2 = listed "freshman" && negb (is_unlocked "freshman" r))
    as Hf by exact (unlockable_listed "freshman" r2).
  set (r3 := if Row.total_messages r + 1 =? 1 then after_unlockBadge "freshman" now r2 else r2).
  set (first := (Row.total_messages r + 1 =? 1) && listed "freshman"
                && negb (is_unlocked "freshman" r)).
  assert (Row.total_messages r3 = Row.total_messages r + 1 ∧
          Row.last_message_at r3 = Some now ∧ topics_of r3 = topics_of r ∧
          Row.experience_points r3 = Row.experience_points r + 10 + bonus first ∧
          Row.level r3 = calculateLevel (Row.experience_points r3) ∧
          (∀ i, listed i = true →
             is_unlocked i r3 = is_unlocked i r || (first && String.eqb i "freshman")))
    as (Hn3 & Hl3 & Ht3 & Hx3 & Hlv3 & Hu3).
  { unfold r3, first. destruct (Row.total_messages r + 1 =? 1); simpl.
    - pose proof (after_unlockBadge_messages "freshman" now r2) as [Hm Hl].
      pose proof (after_unlockBadge_topics "freshman" now r2) as Ht.
      pose proof (after_unlockBadge_bonus "freshman" now r2) as Hx. rewrite Hf in Hx.
      pose proof (after_unlockBadge_leveled "freshman" now r2 Hlv2) as Hlv.
      split_and!; [by rewrite Hm | by rewrite Hl | by rewrite Ht | by rewrite Hx | done |].
      intros i Hi. by rewrite after_unlockBadge_listed, Hf.
    - split_and!; try done; [simpl; unfold bonus; lia|].
      intros i Hi. by rewrite orb_false_r. }
  clearbody r3. clear r2 Hlv2 Hf.
  assert (unlockable "night_owl" r3 = listed "night_owl" && negb (is_unlocked "night_owl" r))
    as Hn.
  { rewrite unlockable_listed. destruct (listed "night_owl") eqn:Hl; [|done].
    rewrite Hu3 by done. simpl. by rewrite andb_false_r, orb_false_r. }
  destruct ((22 <=? hours) || (hours <? 6)); simpl.
  - pose proof (after_unlockBadge_messages "night_owl" now r3) as [Hm Hl].
    pose proof (after_unlockBadge_topics "night_owl" now r3) as Ht.
    pose proof (after_unlockBadge_bonus "night_owl" now r3) as Hx. rewrite Hn in Hx.
    pose proof (after_unlockBadge_leveled "night_owl" now r3 Hlv3) as Hlv.
    split_and!; [by rewrite Hm | by rewrite Hl | by rewrite Ht | by rewrite Hx, Hx3 | done |].
    intros i Hi. by rewrite after_unlockBadge_listed, Hn, Hu3.
  - split_and!; try done; [rewrite Hx3; unfold bonus; simpl; lia|].
    intros i Hi. by rewrite Hu3, orb_false_r.
Qed.

(** X7: for a signed-in user whose requests go through,
    [incrementMessageCount] fulfils and leaves the row with one more
    message, the time of the call as time of the last message, the same
    topics, and 10 more experience, plus 50 when freshman is unlocked (the
    count becomes 1, freshman is in the catalog and was locked), plus 50
    when night_owl is unlocked (the hour is 22 or later, or before 6,
    night_owl is in the catalog and was locked); the level is that of the
    new experience, and the badges of the catalog that were unlocked stay
    so. *)
Theorem incrementMessageCount_earns uid now hours r w :
  serving uid now hours r w →
  ∃ w' r',
    incrementMessageCount w = (Fulfilled tt, w') ∧
    serving uid now hours r' w' ∧
    Row.total_messages r' = Row.total_messages r + 1 ∧
    Row.last_message_at r' = Some now ∧
    topics_of r' = topics_of r ∧
    Row.experience_points r' =
      Row.experience_points r + 10 + bonus (earns_freshman r)
      + bonus (earns_night_owl hours r) ∧
    Row.level r' = Row.experience_points r' / 100 + 1 ∧
    (∀ i, listed i = true →
       is_unlocked i r' =
         is_unlocked i r || (earns_freshman r && String.eqb i "freshman")
         || (earns_night_owl hours r && String.eqb i "night_owl")).
Proof.
  intros Hw.
  destruct (hoare_run _ _ _ _ (incrementMessageCount_serving uid now hours r) Hw)
    as ([] & w' & Hrun & Hw').
  destruct (after_incrementMessageCount_fields now hours r) as (? & ? & ? & ? & Hlv & ?).
  exists w', (after_incrementMessageCount now hours r). split_and!; try done.
  by rewrite Hlv, calculateLevel_div.
Qed.

(** ** What one interaction earns *)

Lemma after_addExploredTopic_fields topic now r :
  let r' := after_addExploredTopic topic now r in
  let unlocks := negb (includes topic (topics_of r))
                 && (3 <=? length (topics_of r) + 1)%nat && unlockable "explorer" r in
  Row.total_messages r' = Row.total_messages r ∧
  Row.last_message_at r' = Row.last_message_at r ∧
  Row.experience_points r' = Row.experience_points r + bonus unlocks ∧
  (Row.level r = calculateLevel (Row.experience_points r) →
   Row.level r' = calculateLevel (Row.experience_points r')).
Proof.
  unfold after_addExploredTopic. cbv zeta.
  destruct (includes topic (topics_of r)); cbn [negb andb].
  { unfold bonus. split_and!; [done|done|lia|done]. }
  rewrite length_app. change (length [topic]) with 1%nat.
  destruct (3 <=? length (topics_of r) + 1)%nat; cbn [andb].
  2: { unfold bonus. split_and!; [done|done|simpl; lia|done]. }
  change (unlockable "explorer" r)
    with (unlockable "explorer" (with_topics (topics_of r ++ [topic]) r)).
  set (r1 := with_topics _ r).
  pose proof (after_unlockBadge_messages "explorer" now r1) as [Hm Hl].
  pose proof (after_unlockBadge_bonus "explorer" now r1) as Hx.
  split_and!; [by rewrite Hm | by rewrite Hl | by rewrite Hx |].
  apply (after_unlockBadge_leveled "explorer" now r1).
Qed.

Lemma after_topics_fields topics now r :
  let r' := after_topics topics now r in
  Row.total_messages r' = Row.total_messages r ∧
  Row.last_message_at r' = Row.last_message_at r ∧
  Row.experience_points r' = Row.experience_points r + bonus (earns_explorer topics r) ∧
  (Row.level r = calculateLevel (Row.experience_points r) →
   Row.level r' = calculateLevel (Row.experience_points r')).
Proof.
  revert r. induction topics as [|topic topics IH]; intros r.
  { unfold earns_explorer. simpl. rewrite andb_false_r. simpl. split_and!; [done|done|lia|done]. }
  change (after_topics (topic :: topics) now r)
    with (after_topics topics now (after_addExploredTopic topic now r)).
  cbv zeta.
  destruct (IH (after_addExploredTopic topic now r)) as (Hn & Hl & Hx & Hlv).
  destruct (after_addExploredTopic_fields topic now r) as (Hn1 & Hl1 & Hx1 & Hlv1).
  split_and!; [by rewrite Hn, Hn1 | by rewrite Hl, Hl1 | | intros H0; by apply Hlv, Hlv1].
  rewrite Hx, Hx1. unfold earns_explorer. cbn [explorer_reached].
  rewrite after_addExploredTopic_topics, after_addExploredTopic_unlocked.
  rewrite !(unlockable_listed "explorer" r).
  destruct (includes topic (topics_of r));
    [|destruct (3 <=? length (topics_of r) + 1)%nat];
    destruct (listed "explorer"), (is_unlocked "explorer" r);
    cbn [negb andb orb]; rewrite ?andb_false_r; cbn [negb andb orb bonus];
    try destruct (explorer_reached _ _); cbn [negb andb orb bonus];
    change (String.eqb "explorer" "explorer") with true; cbn [negb andb orb bonus]; lia.
Qed.

Lemma after_topics_listed i topics now r :
  listed i = true →
  is_unlocked i (after_topics topics now r) =
    is_unlocked i r || (earns_explorer topics r && String.eqb i "explorer").
Proof.
  intros Hi. revert r. induction topics as [|topic topics IH]; intros r.
  { unfold earns_explorer. cbn [explorer_reached].
    rewrite andb_false_r. cbn [andb]. by rewrite orb_false_r. }
  change (after_topics (topic :: topics) now r)
    with (after_topics topics now (after_addExploredTopic topic now r)).
  rewrite IH. unfold earns_explorer. cbn [explorer_reached].
  rewrite after_addExploredTopic_topics, !after_addExploredTopic_unlocked.
  rewrite !(unlockable_listed "explorer" r), Hi.
  change (String.eqb "explorer" "explorer") with true.
  destruct (String.eqb i "explorer") eqn:Hie.
  - apply String.eqb_eq in Hie as ->. rewrite Hi.
    destruct (includes topic (topics_of r));
      [|destruct (3 <=? length (topics_of r) + 1)%nat];
      destruct (is_unlocked "explorer" r);
      cbn [negb andb orb]; rewrite ?andb_false_r, ?orb_false_r; cbn [negb andb orb];
      try destruct (explorer_reached _ _); done.
  - rewrite !andb_false_r, !orb_false_r. cbn [orb andb].
    by destruct (negb _ && _ && _).
Qed.

(** X9: for a signed-in user whose requests go through,
    [processUserInteraction] fulfils and leaves the row with one more
    message and the given topics appended in order, each once and only
    if it is new.  At the second snapshot the experience is 10 more than
    before, plus 50 for each of freshman, night_owl and explorer that the
    call unlocked; leveledUp says whether the level of that experience is
    above the level stored before.  What is stored in the end has 50 more
    when scholar is unlocked (that level is 5 or more, scholar is in the
    catalog and was locked): between 10 and 210 more than before. *)
Theorem processUserInteraction_earns uid now hours r w messageText topics :
  serving uid now hours r w →
  ∃ res w' r',
    processUserInteraction messageText topics w = (Fulfilled res, w') ∧
    serving uid now hours r' w' ∧
    Row.total_messages r' = Row.total_messages r + 1 ∧
    Row.last_message_at r' = Some now ∧
    topics_of r' = foldl add_topic (topics_of r) topics ∧
    let snapshot :=
      Row.experience_points r + 10 + bonus (earns_freshman r)
      + bonus (earns_night_owl hours r) + bonus (earns_explorer topics r) in
    Interaction.leveledUp res = (snapshot / 100 + 1 >? Row.level r) ∧
    Row.experience_points r' =
      snapshot + bonus (earns_scholar (snapshot / 100 + 1) r) ∧
    Row.level r' = Row.experience_points r' / 100 + 1 ∧
    Row.experience_points r + 10 ≤ Row.experience_points r' ≤ Row.experience_points r + 210.
Proof.
  intros Hw.
  destruct (hoare_run _ _ _ _
              (processUserInteraction_serving uid now hours r messageText topics) Hw)
    as (res & w' & Hrun & -> & Hw').
  set (r0 := after_incrementMessageCount now hours r).
  set (r1 := after_snapshots topics now hours r) in *.
  set (r' := after_processUserInteraction topics now hours r) in *.
  destruct (after_incrementMessageCount_fields now hours r) as (Hn0 & Hl0 & Ht0 & Hx0 & Hlv0 & Hu0).
  fold r0 in Hn0, Hl0, Ht0, Hx0, Hlv0, Hu0.
  destruct (after_topics_fields topics now r0) as (Hn1 & Hl1 & Hx1 & Hlv1).
  specialize (Hlv1 Hlv0).
  change (after_topics topics now r0) with r1 in Hn1, Hl1, Hx1, Hlv1.
  assert (earns_explorer topics r0 = earns_explorer topics r) as He.
  { unfold earns_explorer. rewrite Ht0. destruct (listed "explorer") eqn:Hl; [|done].
    rewrite (Hu0 "explorer" Hl). simpl. by rewrite !andb_false_r, !orb_false_r. }
  assert (unlockable "scholar" r1 = listed "scholar" && negb (is_unlocked "scholar" r))
    as Hs.
  { rewrite unlockable_listed. destruct (listed "scholar") eqn:Hl; [|done].
    unfold r1, after_snapshots. fold r0.
    rewrite (after_topics_listed "scholar" topics now r0 Hl), (Hu0 "scholar" Hl).
    simpl. by rewrite !andb_false_r, !orb_false_r. }
  assert (Row.total_messages r' = Row.total_messages r1 ∧
          Row.last_message_at r' = Row.last_message_at r1 ∧
          topics_of r' = topics_of r1 ∧
          Row.experience_points r' =
            Row.experience_points r1 + bonus (earns_scholar (Row.level r1) r) ∧
          Row.level r' = calculateLevel (Row.experience_points r'))
    as (Hn' & Hl' & Ht' & Hx' & Hlv').
  { unfold r', after_processUserInteraction, earns_scholar. cbv zeta. fold r1.
    destruct (5 <=? Row.level r1); cbn [andb bonus];
      [|split_and!; [done|done|done|lia|done]].
    pose proof (after_unlockBadge_messages "scholar" now r1) as [Hm Hl].
    pose proof (after_unlockBadge_topics "scholar" now r1) as Ht.
    pose proof (after_unlockBadge_bonus "scholar" now r1) as Hx. rewrite Hs in Hx.
    pose proof (after_unlockBadge_leveled "scholar" now r1 Hlv1) as Hlv.
    by split_and!. }
  rewrite calculateLevel_div in Hlv1, Hlv'. rewrite Hx0, He in Hx1.
  rewrite Hlv1, Hx1 in Hx'.
  eexists _, w', r'. split; [exact Hrun|]. split_and!; try done.
  - by rewrite Hn', Hn1.
  - by rewrite Hl', Hl1.
  - rewrite Ht'. change r1 with (after_topics topics now r0).
    by rewrite after_topics_topics, Ht0.
  - cbv zeta. simpl Interaction.leveledUp. rewrite Hlv1, Hx1. split_and!; try done.
    + rewrite Hx'. unfold bonus.
      destruct (earns_freshman r), (earns_night_owl hours r), (earns_explorer topics r),
        (earns_scholar _ _); lia.
    + rewrite Hx'. unfold bonus.
      destruct (earns_freshman r), (earns_night_owl hours r), (earns_explorer topics r),
        (earns_scholar _ _); lia.
Qed.

(** ** The context summary *)

Ltac bytes :=
  unfold is_space, is_space2, is_space3 in *; cbv zeta in *;
  repeat match goal with
         | H : _ = false |- _ => apply not_true_iff_false in H
         | |- _ = false => apply not_true_iff_false; intros ?
         end;
  repeat (progress rewrite ?orb_true_iff, ?andb_true_iff, ?Nat.eqb_eq, ?Nat.leb_le in * );
  try lia.

Lemma trimStart_skip s :
  trimStart s = match skip_space s with Some r => trimStart r | None => s end.
Proof.
  destruct s as [|c1 [|c2 [|c3 r3]]]; simpl; try done.
  - by destruct (is_space c1).
  - destruct (is_space c1); [done|]. by destruct (is_space2 c1 c2).
  - destruct (is_space c1); [done|]. destruct (is_space2 c1 c2); [done|].
    by destruct (is_space3 c1 c2 c3).
Qed.

Lemma skip_space_shorter s r :
  skip_space s = Some r → (String.length r < String.length s)%nat.
Proof.
  destruct s as [|c1 [|c2 [|c3 r3]]]; simpl; try done.
  - destruct (is_space c1); [|done]. intros [= <-]. simpl. lia.
  - destruct (is_space c1); [intros [= <-]; simpl; lia|].
    destruct (is_space2 c1 c2); [|done]. intros [= <-]. simpl. lia.
  - destruct (is_space c1); [intros [= <-]; simpl; lia|].
    destruct (is_space2 c1 c2); [intros [= <-]; simpl; lia|].
    destruct (is_space3 c1 c2 c3); [|done]. intros [= <-]. simpl. lia.
Qed.

Lemma append_cons c s t : String c s +:+ t = String c (s +:+ t).
Proof. done. Qed.

Lemma append_nil t : "" +:+ t = t.
Proof. done. Qed.

Lemma append_assoc (s t u : string) : (s +:+ t) +:+ u = s +:+ t +:+ u.
Proof. induction s as [|c s IH]; [done|]. by rewrite !append_cons, IH. Qed.

Lemma skip_space_app s t r :
  skip_space s = Some r → skip_space (s +:+ t) = Some (r +:+ t).
Proof.
  destruct s as [|c1 [|c2 [|c3 r3]]]; simpl; try done; rewrite ?append_cons, ?append_nil.
  - destruct (is_space c1); [|done]. by intros [= <-].
  - simpl. destruct (is_space c1); [by intros [= <-]|].
    destruct (is_space2 c1 c2); [|done]. by intros [= <-].
  - simpl. destruct (is_space c1); [by intros [= <-]|].
    destruct (is_space2 c1 c2); [by intros [= <-]|].
    destruct (is_space3 c1 c2 c3); [|done]. by intros [= <-].
Qed.

(** Induction on the length of a string. *)
Lemma string_shorter_ind (P : string → Prop) :
  (∀ s, (∀ r, (String.length r < String.length s)%nat → P r) → P s) → ∀ s, P s.
Proof.
  intros H s. remember (String.length s) as n eqn:Hn.
  revert s Hn. induction n as [n IH] using lt_wf_ind. intros s ->.
  apply H. intros r Hr. by apply (IH (String.length r)).
Qed.

Lemma trimStart_app_blank s t : trimStart s = "" → trimStart (s +:+ t) = trimStart t.
Proof.
  induction s as [s IH] using string_shorter_ind. intros Hs.
  destruct s as [|c s]; [done|].
  rewrite trimStart_skip in Hs.
  destruct (skip_space (String c s)) as [r|] eqn:Hr; [|done].
  rewrite trimStart_skip, (skip_space_app _ t _ Hr).
  apply IH; [by apply skip_space_shorter|done].
Qed.

Lemma blank_app s t : blank s = true → blank t = true → blank (s +:+ t) = true.
Proof.
  unfold blank. intros Hs Ht.
  rewrite trimStart_app_blank; [done|]. by destruct (trimStart s).
Qed.

(** What [trimEnd] cuts off is white space. *)
Lemma trimEnd_split s : ∃ cut, s = trimEnd s +:+ cut ∧ blank cut = true.
Proof.
  induction s as [|c s (cut & Hs & Hcut)]; [by exists ""|].
  change (trimEnd (String c s)) with (if blank (String c s) then "" else String c (trimEnd s)).
  destruct (blank (String c s)) eqn:Hb.
  - by exists (String c s).
  - exists cut. split; [|done]. rewrite append_cons. by rewrite <- Hs.
Qed.

Lemma trimEnd_idemp s : trimEnd (trimEnd s) = trimEnd s.
Proof.
  induction s as [|c s IH]; [done|].
  change (trimEnd (String c s)) with (if blank (String c s) then "" else String c (trimEnd s)).
  destruct (blank (String c s)) eqn:Hb; [done|].
  change (trimEnd (String c (trimEnd s)))
    with (if blank (String c (trimEnd s)) then "" else String c (trimEnd (trimEnd s))).
  destruct (blank (String c (trimEnd s))) eqn:Hb'; [|by rewrite IH].
  destruct (trimEnd_split s) as (cut & Hs & Hcut).
  rewrite Hs, <- append_cons, blank_app in Hb; done.
Qed.

(** A byte below 128 that is not white space is part of no white space
    character: nothing that holds it is blank, and [trimEnd] stops at it. *)
Lemma skip_space_plain c x y r :
  (nat_of_ascii c < 128)%nat → is_space c = false →
  skip_space (x +:+ String c y) = Some r →
  ∃ x', r = x' +:+ String c y ∧ (String.length x' < String.length x)%nat.
Proof.
  intros Hc Hs.
  destruct x as [|c1 [|c2 [|c3 x3]]]; rewrite ?append_cons, ?append_nil; simpl.
  - rewrite Hs. destruct y as [|c2 [|c3 y3]]; [done| |].
    + replace (is_space2 c c2) with false by (symmetry; bytes). done.
    + replace (is_space2 c c2) with false by (symmetry; bytes).
      replace (is_space3 c c2 c3) with false by (symmetry; bytes). done.
  - destruct (is_space c1); [intros [= <-]; exists ""; simpl; split; [done|lia]|].
    replace (is_space2 c1 c) with false by (symmetry; bytes).
    destruct y as [|c3 y3]; [done|].
    replace (is_space3 c1 c c3) with false by (symmetry; bytes). done.
  - destruct (is_space c1); [intros [= <-]; exists (String c2 ""); simpl; split; [done|lia]|].
    destruct (is_space2 c1 c2); [intros [= <-]; exists ""; simpl; split; [done|lia]|].
    replace (is_space3 c1 c2 c) with false by (symmetry; bytes). done.
  - destruct (is_space c1);
      [intros [= <-]; exists (String c2 (String c3 x3)); simpl; split; [done|lia]|].
    destruct (is_space2 c1 c2);
      [intros [= <-]; exists (String c3 x3); simpl; split; [done|lia]|].
    destruct (is_space3 c1 c2 c3); [|done].
    intros [= <-]. exists x3. simpl. split; [done|lia].
Qed.

Lemma not_blank_plain c x y :
  (nat_of_ascii c < 128)%nat → is_space c = false → blank (x +:+ String c y) = false.
Proof.
  intros Hc Hs. induction x as [x IH] using string_shorter_ind.
  unfold blank in *. rewrite trimStart_skip.
  destruct (skip_space (x +:+ String c y)) as [r|] eqn:Hr.
  - destruct (skip_space_plain c x y r Hc Hs Hr) as (x' & -> & Hlen). by apply IH.
  - by destruct x.
Qed.

Lemma trimEnd_plain c x y :
  (nat_of_ascii c < 128)%nat → is_space c = false →
  trimEnd (x +:+ String c y) = x +:+ String c (trimEnd y).
Proof.
  intros Hc Hs. induction x as [|a x IH].
  - rewrite !append_nil.
    change (trimEnd (String c y)) with (if blank (String c y) then "" else String c (trimEnd y)).
    pose proof (not_blank_plain c "" y Hc Hs) as Hb. rewrite append_nil in Hb.
    by rewrite Hb.
  - rewrite !append_cons.
    change (trimEnd (String a (x +:+ String c y)))
      with (if blank (String a (x +:+ String c y)) then ""
            else String a (trimEnd (x +:+ String c y))).
    pose proof (not_blank_plain c (String a x) y Hc Hs) as Hb. rewrite append_cons in Hb.
    by rewrite Hb, IH.
Qed.

(** A white space byte at the end is cut off with the white space
    before it. *)
Lemma skip_space_snoc c x :
  is_space c = true → x ≠ "" →
  skip_space (x +:+ String c "") = (λ r, r +:+ String c "") <$> skip_space x.
Proof.
  intros Hs Hx.
  destruct x as [|c1 [|c2 [|c3 x3]]]; [done|..]; rewrite ?append_cons, ?append_nil; simpl.
  - destruct (is_space c1); [done|].
    replace (is_space2 c1 c) with false by (symmetry; bytes). done.
  - destruct (is_space c1); [done|]. destruct (is_space2 c1 c2); [done|].
    replace (is_space3 c1 c2 c) with false by (symmetry; bytes). done.
  - destruct (is_space c1); [done|]. destruct (is_space2 c1 c2); [done|].
    by destruct (is_space3 c1 c2 c3).
Qed.

Lemma blank_snoc c x : is_space c = true → blank (x +:+ String c "") = blank x.
Proof.
  intros Hs. induction x as [x IH] using string_shorter_ind.
  destruct x as [|a x]; [unfold blank; simpl; by rewrite Hs|].
  unfold blank in *. rewrite (trimStart_skip (String a x +:+ _)), (trimStart_skip (String a x)).
  rewrite skip_space_snoc by done.
  destruct (skip_space (String a x)) as [r|] eqn:Hr; simpl; [|done].
  apply IH. by apply skip_space_shorter.
Qed.

Lemma trimEnd_snoc c x : is_space c = true → trimEnd (x +:+ String c "") = trimEnd x.
Proof.
  intros Hs. induction x as [|a x IH].
  - rewrite append_nil. simpl. unfold blank. simpl. by rewrite Hs.
  - rewrite append_cons.
    change (trimEnd (String a (x +:+ String c "")))
      with (if blank (String a (x +:+ String c "")) then ""
            else String a (trimEnd (x +:+ String c ""))).
    rewrite <- append_cons, blank_snoc, IH by done. done.
Qed.

(** X8: [generateUserContextSummary] never rejects and leaves the world
    as the read of the progress left it.  Its text is the four lines
    "User Level", "Total Messages", "Topics Explored" and "Unlocked
    Badges" of that progress, without the line break the template starts
    with and without white space at the end: only the end of the last
    line can be cut.  The text has no white space at either end, an empty
    list of topics reads "None yet", and so does an empty list of
    unlocked badges. *)
Theorem generateUserContextSummary_text w :
  ∃ s text w',
    getUserStats w = (Fulfilled s, w') ∧
    generateUserContextSummary w = (Fulfilled text, w') ∧
    text =
      "User Level: " +:+ pretty (UserStats.level s) +:+ nl
      +:+ "Total Messages: " +:+ pretty (UserStats.messagesCount s) +:+ nl
      +:+ "Topics Explored: " +:+ join_or_none (UserStats.topicsExplored s) +:+ nl
      +:+ trimEnd ("Unlocked Badges: "
                   +:+ join_or_none
                         (map Badge.name (List.filter Badge.unlocked (UserStats.badges s)))) ∧
    trimStart text = text ∧ trimEnd text = text ∧
    (UserStats.topicsExplored s = [] →
     List.filter Badge.unlocked (UserStats.badges s) = [] →
     text =
       "User Level: " +:+ pretty (UserStats.level s) +:+ nl
       +:+ "Total Messages: " +:+ pretty (UserStats.messagesCount s) +:+ nl
       +:+ "Topics Explored: None yet" +:+ nl +:+ "Unlocked Badges: None yet").
Proof.
  destruct (getUserStats_fulfils w) as (s & w' & Hread).
  eexists s, _, w'. split; [done|].
  unfold generateUserContextSummary. rewrite (await_fulfilled _ _ _ _ _ Hread).
  split; [reflexivity|].
  set (L := pretty (UserStats.level s)).
  set (M := pretty (UserStats.messagesCount s)).
  set (T := join_or_none (UserStats.topicsExplored s)).
  set (names := map Badge.name (List.filter Badge.unlocked (UserStats.badges s))).
  set (B := join_or_none names).
  set (lines := "User Level: " +:+ L +:+ nl +:+ "Total Messages: " +:+ M +:+ nl
                +:+ "Topics Explored: " +:+ T +:+ nl).
  assert (trimEnd (" " +:+ B +:+ nl +:+ "  ") = trimEnd (" " +:+ B)) as Hcut.
  { transitivity
      (trimEnd ((((" " +:+ B) +:+ String "010" "") +:+ String " " "") +:+ String " " "")).
    - f_equal. by rewrite !append_assoc.
    - by rewrite !trimEnd_snoc. }
  assert (trimEnd ("Unlocked Badges: " +:+ B)
          = "Unlocked Badges" +:+ String ":" (trimEnd (" " +:+ B))) as Hlast.
  { change ("Unlocked Badges: " +:+ B) with ("Unlocked Badges" +:+ String ":" (" " +:+ B)).
    apply trimEnd_plain; [by apply Nat.ltb_lt|done]. }
  assert (trim (nl +:+ "User Level: " +:+ L +:+ nl +:+ "Total Messages: " +:+ M +:+ nl
                +:+ "Topics Explored: " +:+ T +:+ nl +:+ "Unlocked Badges: " +:+ B
                +:+ nl +:+ "  ")
          = lines +:+ trimEnd ("Unlocked Badges: " +:+ B)) as Htext.
  { unfold trim.
    change (trimStart (nl +:+ "User Level: " +:+ ?rest)) with ("User Level: " +:+ rest).
    transitivity
      (trimEnd ((lines +:+ "Unlocked Badges") +:+ String ":" (" " +:+ B +:+ nl +:+ "  "))).
    - f_equal. unfold lines. by rewrite !append_assoc.
    - rewrite trimEnd_plain, Hcut, Hlast; [|by apply Nat.ltb_lt|done]. by rewrite append_assoc. }
  assert (lines +:+ trimEnd ("Unlocked Badges: " +:+ B)
          = "User Level: " +:+ L +:+ nl +:+ "Total Messages: " +:+ M +:+ nl
            +:+ "Topics Explored: " +:+ T +:+ nl
            +:+ trimEnd ("Unlocked Badges: " +:+ B)) as Hlines.
  { unfold lines. by rewrite !append_assoc. }
  split_and!.
  - by rewrite Htext.
  - by rewrite Htext, Hlines.
  - unfold trim. apply trimEnd_idemp.
  - intros Htopics Hbadges. rewrite Htext, Hlines. unfold T, B, names.
    rewrite Htopics, Hbadges.
    change (trimEnd ("Unlocked Badges: " +:+ join_or_none (map Badge.name [])))
      with (trimEnd "Unlocked Badges: None yet").
    replace (trimEnd "Unlocked Badges: None yet") with "Unlocked Badges: None yet"
      by (by vm_compute).
    reflexivity.
Qed.

End Engine.

(** ** The theorems at work on the sample catalog *)

Lemma sample_serving r : serving "u1" noon 12 r (world_of r).
Proof. repeat split; try reflexivity. apply Forall_nil_2. Qed.

(** C7, amended, at 250 points. *)
Lemma calculateLevel_is_floor_witness :
  Number.calculateLevel (Number.of_Z 250) = Number.of_Z (250 / 100 + 1) ∧
  calculateLevel 250 = 250 / 100 + 1 ∧
  100 * (calculateLevel 250 - 1) ≤ 250 < 100 * calculateLevel 250 ∧
  calculateLevel 250 = 3.
Proof.
  destruct (calculateLevel_is_floor 250) as (_ & H0 & _ & H1 & H2 & H3 & _).
  { unfold Number.MAX_SAFE_INTEGER. lia. }
  split_and!; [exact H0 | exact H1 | apply H2 | apply H2 | apply (H3 3); lia].
Defined.

(** C7 as worded fails at 10^18, a number the code can hold: the quotient
    10^16 is exact, and 10^16 + 1 is no double, so the sum is 10^16. *)
Lemma calculateLevel_rounds_large_experience : ¬ calculateLevel_floor_everywhere.
Proof.
  intros H. specialize (H (10 ^ 18) ltac:(lia) eq_refl).
  vm_compute in H. discriminate H.
Qed.

(** What the code computes there, and at the first integer it cannot
    hold. *)
Lemma calculateLevel_beyond_safe_integers :
  Number.to_Z (Number.of_Z (10 ^ 18)) = Some (10 ^ 18) ∧
  Number.to_Z (Number.calculateLevel (Number.of_Z (10 ^ 18))) = Some (10 ^ 16) ∧
  10 ^ 18 / 100 + 1 = 10 ^ 16 + 1 ∧
  Number.to_Z (Number.of_Z (2 ^ 53 + 1)) = Some (2 ^ 53).
Proof. by vm_compute. Qed.

(** C8, amended, at level 3. *)
Lemma calculateNextLevelXP_enters_next_level_witness :
  Number.calculateNextLevelXP (Number.of_Z 3) = Number.of_Z 300 ∧
  Number.calculateLevel (Number.calculateNextLevelXP (Number.of_Z 3)) = Number.of_Z 4 ∧
  calculateNextLevelXP 3 = 300 ∧ calculateLevel (calculateNextLevelXP 3) = 4 ∧
  entered_at 4 300 ∧ entered_at 3 200.
Proof.
  destruct (calculateNextLevelXP_enters_next_level 3) as (H1 & H2 & H3 & H4 & H5 & H6 & _).
  { lia. }
  { unfold Number.MAX_SAFE_INTEGER. lia. }
  by split_and!.
Defined.

(** C8 as worded fails twice.  At level 2^53 - 1, a number the code can
    hold, the product is rounded to 900719925474099072; and level 1 is
    entered at 0, not at the 100 that is returned for it, whose level
    is 2. *)
Lemma calculateNextLevelXP_as_worded_fails :
  ¬ threshold_exact_everywhere ∧ ¬ threshold_enters_current_level.
Proof.
  split.
  - intros H. specialize (H (2 ^ 53 - 1) ltac:(lia) eq_refl).
    vm_compute in H. discriminate H.
  - intros H. destruct (H 1 ltac:(lia)) as [H1 _]. vm_compute in H1. discriminate H1.
Qed.

(** What the code computes at the two ends of the safe integers. *)
Lemma calculateNextLevelXP_beyond_safe_integers :
  Number.to_Z (Number.calculateNextLevelXP (Number.of_Z (2 ^ 53 - 1)))
    = Some 900719925474099072 ∧
  (2 ^ 53 - 1) * 100 = 900719925474099100 ∧
  Number.to_Z (Number.calculateLevel (Number.calculateNextLevelXP (Number.of_Z (2 ^ 53))))
    = Some (2 ^ 53) ∧
  calculateLevel 0 = 1 ∧ calculateNextLevelXP 1 = 100 ∧ calculateLevel 100 = 2.
Proof. by vm_compute. Qed.

(** C5, amended, on a user at level 4 who sends a message, is reset and
    has a write fail. *)
Lemma stored_level_follows_experience_witness :
  consistent
    (run sample_badges
       [Call (ProcessUserInteraction "hello" ["food"]); Network [None; Some "offline"];
        Call (AddExperience 75); Call ResetUserStats; SignIn None; Call IncrementMessageCount]
       (world_of level4_row)) ∧
  Number.experience_columns (Number.of_Z 475) = (Number.of_Z 475, Number.of_Z 5).
Proof.
  destruct (stored_level_follows_experience sample_badges
              [Call (ProcessUserInteraction "hello" ["food"]); Network [None; Some "offline"];
               Call (AddExperience 75); Call ResetUserStats; SignIn None;
               Call IncrementMessageCount]
              (world_of level4_row)) as (Hsent & _ & _ & Hrun & _).
  - intros uid r. unfold world_of. simpl. rewrite lookup_singleton_Some. by intros [_ <-].
  - apply (bool_decide_unpack _). by vm_compute.
  - split; [exact Hrun|].
    apply (Hsent {| Updates.experience := Some 475; Updates.level := None;
                    Updates.badges := None; Updates.topicsExplored := None;
                    Updates.messagesCount := None |} noon 475 eq_refl).
    unfold safe, Number.MAX_SAFE_INTEGER. lia.
Defined.

(** C5 as worded fails for the experience 10^18: the level sent with it
    is 10^16, one less than floor(10^18 / 100) + 1. *)
Lemma level_written_for_large_experience : ¬ level_written_with_experience.
Proof.
  intros H. specialize (H (10 ^ 18) eq_refl). vm_compute in H. discriminate H.
Qed.

(** C1, amended, for the sample user. *)
Lemma first_message_of_fresh_user_witness :
  ∃ res w' r',
    processUserInteraction sample_badges "hello" ["food"; "transit"] (world_of fresh_row)
      = (Fulfilled res, w') ∧
    Interaction.leveledUp res = false ∧
    (∃ b, b ∈ Interaction.newBadges res ∧ Badge.id b = "freshman") ∧
    (∀ b, b ∈ Interaction.newBadges res → Badge.id b ≠ "explorer") ∧
    user_stats w' !! "u1" = Some r' ∧
    Row.experience_points r' = 60 ∧ Row.level r' = 1.
Proof.
  apply (first_message_of_fresh_user sample_badges "hello" "u1" noon 12 fresh_row).
  - apply sample_serving.
  - by repeat split.
  - reflexivity.
  - lia.
Defined.

(** C1 as worded fails when a read fails: the eighth request of the call,
    the read inside [addExperience(50)], times out; no write fails, and
    the stored experience is 50. *)
Lemma first_message_scenario_fails : ¬ first_message_scenario sample_badges.
Proof.
  intros H.
  destruct (H "hello" flaky_world "u1" fresh_row) with
    (res := (processUserInteraction sample_badges "hello" ["food"; "transit"] flaky_world).1)
    (w' := (processUserInteraction sample_badges "hello" ["food"; "transit"] flaky_world).2)
    as (v & r' & _ & _ & _ & _ & Hrow & Hxp & _).
  - reflexivity.
  - reflexivity.
  - by repeat split.
  - simpl. lia.
  - by destruct (processUserInteraction _ _ _ _).
  - reflexivity.
  - vm_compute in Hrow. injection Hrow as <-. simpl in Hxp. lia.
Qed.

(** What the call leaves in [flaky_world]. *)
Lemma first_message_with_failed_read :
  let '(res, w') :=
    processUserInteraction sample_badges "hello" ["food"; "transit"] flaky_world in
  (∃ v, res = Fulfilled v) ∧
  console w' = [("Error fetching user stats:", "timeout")] ∧
  Row.experience_points <$> user_stats w' !! "u1" = Some 50.
Proof. vm_compute. split; [by eexists|done]. Qed.

(** C2 as worded fails: a guest's [incrementMessageCount] raises
    AuthenticationRequired. *)
Lemma increment_requires_authentication :
  ¬ only_reset_requires_authentication sample_badges.
Proof.
  intros H. specialize (H IncrementMessageCount guest_world). by discriminate H.
Qed.

(** C2, amended, for a guest who sends a message. *)
Lemma authentication_required_for_guest_writes_witness :
  truthy (session guest_world) = None ∧
  getUserStats sample_badges guest_world = (Fulfilled (default_stats sample_badges), guest_world) ∧
  incrementMessageCount sample_badges guest_world = (Rejected AuthenticationRequired, guest_world) ∧
  resetUserStats guest_world = (Rejected AuthenticationRequired, guest_world).
Proof.
  destruct (authentication_required_for_guest_writes sample_badges guest_world
              IncrementMessageCount) as (Honly & _ & _ & H).
  destruct H as (H1 & _ & H2 & _ & _ & H3 & _); [reflexivity|].
  destruct Honly as (Hguest & _); [reflexivity|].
  by split_and!.
Defined.



(** C4 for the explorer badge of the sample user, and for an id the
    catalog does not have. *)
Lemma unlockBadge_idempotent_witness :
  ∃ w1 w2 r1,
    unlockBadge sample_badges "explorer" (world_of fresh_row) = (Fulfilled true, w1) ∧
    unlockBadge sample_badges "explorer" w1 = (Fulfilled false, w2) ∧
    serving "u1" noon 12 r1 w2 ∧ Row.experience_points r1 = 50 ∧
    unlockBadge sample_badges "valedictorian" (world_of fresh_row)
      = (Fulfilled false, world_of fresh_row).
Proof.
  destruct (unlockBadge_idempotent sample_badges "u1" noon 12 fresh_row
              (world_of fresh_row) "explorer") as (Hnothing & w1 & w2 & r1 & H).
  - apply sample_serving.
  - reflexivity.
  - destruct H as (H1 & _ & _ & _ & Hxp & _ & _ & _ & H2 & Hw2).
    exists w1, w2, r1. split_and!; [done..|].
    apply (Hnothing "valedictorian" _ (stats_of_row sample_badges fresh_row)).
    + reflexivity.
    + by left.
Defined.

(** C4 as worded fails for a signed-in user who has no row: the store
    changes nothing, the next read gives the defaults again, and the
    second call returns true as the first did. *)
Lemma unlockBadge_true_twice_without_row : ¬ unlock_then_no_op sample_badges.
Proof.
  intros H.
  edestruct (H stranger_world "explorer") as [_ H2].
  - vm_compute. reflexivity.
  - vm_compute. reflexivity.
  - reflexivity.
  - vm_compute in H2. discriminate H2.
Qed.

(** What the two calls leave there, and what the call does for a guest. *)
Lemma unlockBadge_without_row_or_session :
  (unlockBadge sample_badges "explorer" stranger_world).1 = Fulfilled true ∧
  (unlockBadge sample_badges "explorer"
     (unlockBadge sample_badges "explorer" stranger_world).2).1 = Fulfilled true ∧
  user_stats
    (unlockBadge sample_badges "explorer"
       (unlockBadge sample_badges "explorer" stranger_world).2).2
    = user_stats stranger_world ∧
  (unlockBadge sample_badges "explorer" guest_world).1 = Rejected AuthenticationRequired.
Proof. by vm_compute. Qed.

(** C6, amended, for a user at level 5 with 480 points and scholar still locked: the
    message brings 490 points, the call reports no level-up and no badge,
    and the stored row ends at 540 points, level 6, scholar unlocked. *)
Lemma scholar_unlock_not_in_returned_diff_witness :
  ∃ res w2 r2,
    processUserInteraction sample_badges "hello" [] (world_of level5_row)
      = (Fulfilled res, w2) ∧
    Interaction.leveledUp res = false ∧
    (∀ b, b ∈ Interaction.newBadges res → Badge.id b ≠ "scholar") ∧
    user_stats w2 !! "u1" = Some r2 ∧ is_unlocked "scholar" r2 = true ∧
    Row.experience_points r2 = 540 ∧ Row.level r2 = 6.
Proof.
  edestruct (scholar_unlock_not_in_returned_diff sample_badges "hello" []
               (world_of level5_row))
    as (res & w2 & uid & r1 & r2 & Hrun & _ & Hno & Hup & Huid & _ & _ & _ & Hrow & Hu & Hxp & Hlv).
  - vm_compute. reflexivity.
  - vm_compute. discriminate.
  - vm_compute. reflexivity.
  - reflexivity.
  - apply Forall_nil_2.
  - vm_compute in Huid. injection Huid as <-.
    exists res, w2, r2. split_and!; [done| |done|done|done|done|done].
    rewrite Hup. reflexivity.
Defined.

(** C6 as worded fails when the write of the scholar badge fails: the
    snapshots are taken, the second at level 5 with scholar locked, and
    the call rejects. *)
Lemma scholar_unlock_lost_when_write_fails : ¬ scholar_unlock_persisted sample_badges.
Proof.
  intros H.
  edestruct (H "hello" [] scholar_write_lost_world) as (res & w2 & uid & r2 & Hrun & _).
  - vm_compute. reflexivity.
  - vm_compute. discriminate.
  - vm_compute. reflexivity.
  - reflexivity.
  - vm_compute in Hrun. discriminate Hrun.
Qed.

(** What the call leaves then: the message is counted, scholar is not
    stored. *)
Lemma scholar_write_lost :
  let '(res, w') := processUserInteraction sample_badges "hello" [] scholar_write_lost_world in
  res = Rejected (StoreUnavailable "offline") ∧
  (Row.experience_points <$> user_stats w' !! "u1") = Some 490 ∧
  (is_unlocked "scholar" <$> user_stats w' !! "u1") = Some false.
Proof. by vm_compute. Qed.

(** C9 on the sample catalog, with the first request failing. *)
Lemma store_failures_absorbed_on_read_raised_on_write_witness :
  (getUserStats sample_badges
     (mkWorld (Some "u1") {[ "u1" := level4_row ]} [Some "offline"] noon 12 [])).1
    = Fulfilled (default_stats sample_badges) ∧
  (updateUserStats Updates.none
     (mkWorld (Some "u1") {[ "u1" := level4_row ]} [Some "offline"] noon 12 [])).1
    = Rejected (StoreUnavailable "offline").
Proof.
  destruct (store_failures_absorbed_on_read_raised_on_write sample_badges
              (mkWorld (Some "u1") {[ "u1" := level4_row ]} [Some "offline"] noon 12 [])
              (AddExperience 10)) as (_ & Hread & _ & Hwrite & _).
  - repeat constructor.
  - split.
    + apply (Hread "u1" "offline"); reflexivity.
    + apply (Hwrite "u1" UpdateData.empty "offline" Updates.none); reflexivity.
Defined.

(** C10 for a guest snapshot and the snapshot of the sample user. *)
Lemma snapshots_follow_catalog_witness :
  map Badge.id (UserStats.badges (stats_of_row sample_badges two_topics_row))
    = ["freshman"; "explorer"; "scholar"; "night_owl"] ∧
  ∃ kept,
    newly_unlocked (UserStats.badges (default_stats sample_badges)) 0
      (UserStats.badges (stats_of_row sample_badges two_topics_row)) = inr kept.
Proof.
  destruct (snapshots_follow_catalog sample_badges guest_world (world_of two_topics_row)
              (default_stats sample_badges) (stats_of_row sample_badges two_topics_row)
              guest_world (world_of two_topics_row))
    as (_ & _ & Hid & _ & _ & Hkept & _).
  - reflexivity.
  - reflexivity.
  - by split.
Defined.


(** ** The further properties at work *)

(** X1 on three users, asking for two. *)
Lemma getLeaderboard_top_witness :
  ∃ w',
    getLeaderboard (Some 2%nat) podium_world =
      (Fulfilled [entry_of "u2" level5_row; entry_of "u3" level4_row], w') ∧
    user_stats w' = user_stats podium_world ∧
    ∀ uid r, user_stats podium_world !! uid = Some r →
      entry_of uid r ∈ [entry_of "u2" level5_row; entry_of "u3" level4_row] ∨
      Row.experience_points r ≤ 390.
Proof.
  destruct (getLeaderboard_top (Some 2%nat) podium_world)
    as (board & w' & Hrun & Htable & _ & H).
  simpl in H. destruct H as (_ & _ & _ & _ & Htop).
  assert (board = [entry_of "u2" level5_row; entry_of "u3" level4_row]) as ->.
  { vm_compute in Hrun. by injection Hrun as <- _. }
  exists w'. split_and!; [done..|].
  intros uid r Hr. destruct (Htop uid r Hr) as [Hin|Hle]; [by left|right].
  apply (Hle (entry_of "u3" level4_row)). right. left.
Defined.

(** X2 for a message of the first of three users. *)
Lemma operations_keep_other_rows_witness :
  user_stats (perform sample_badges (ProcessUserInteraction "hello" ["food"]) podium_world).2
    !! "u2" = Some level5_row ∧
  user_stats (perform sample_badges (ProcessUserInteraction "hello" ["food"]) podium_world).2
    !! "u3" = Some level4_row.
Proof.
  destruct (operations_keep_other_rows sample_badges
              (ProcessUserInteraction "hello" ["food"]) podium_world)
    as (_ & _ & _ & _ & Hrows & _).
  split; (rewrite Hrows; [reflexivity|discriminate]).
Defined.

(** X3 for the user at 390 points. *)
Lemma resetUserStats_then_read_witness :
  ∃ w1 s w2,
    resetUserStats (world_of level4_row) = (Fulfilled tt, w1) ∧
    getUserStats sample_badges w1 = (Fulfilled s, w2) ∧
    s = default_stats sample_badges.
Proof.
  destruct (resetUserStats_then_read sample_badges "u1" noon 12 level4_row
              (world_of level4_row) (sample_serving _))
    as (w1 & w2 & w3 & s & Hreset & _ & Hread & _ & _ & _ & _ & _ & _ & _ & _ & Hdefault).
  exists w1, s, w2. split_and!; [done..|]. apply Hdefault. repeat constructor.
Defined.

(** X4 for the fresh user losing 150 points. *)
Lemma addExperience_then_read_witness :
  ∃ s w1 w2,
    addExperience sample_badges (-150) (world_of fresh_row) = (Fulfilled s, w1) ∧
    getUserStats sample_badges w1 = (Fulfilled s, w2) ∧
    UserStats.experience s = -150 ∧ UserStats.level s = -1.
Proof.
  destruct (addExperience_then_read sample_badges "u1" noon 12 fresh_row
              (world_of fresh_row) (-150) (sample_serving _))
    as (s & w1 & w2 & r' & Hadd & _ & Hread & _ & _ & _ & _ & _ & _ & Hxp & Hlv & _).
  exists s, w1, w2. by split_and!.
Defined.

(** X5 for a user without a row. *)
Lemma calls_without_row_witness :
  (∃ w', perform sample_badges (ProcessUserInteraction "hello" ["food"]) stranger_world
           = (Fulfilled tt, w') ∧ user_stats w' = user_stats stranger_world) ∧
  ∃ w1 w2,
    unlockBadge sample_badges "scholar" stranger_world = (Fulfilled true, w1) ∧
    unlockBadge sample_badges "scholar" w1 = (Fulfilled true, w2).
Proof.
  destruct (calls_without_row sample_badges "u9" stranger_world)
    as (Hall & _ & Hunlock & _).
  - repeat split. apply Forall_nil_2.
  - split.
    + destruct (Hall (ProcessUserInteraction "hello" ["food"])) as (w' & Hrun & _ & Ht).
      exists w'. split; [exact Hrun|exact Ht].
    + apply (Hunlock "scholar" (Badge.mk "scholar" "Scholar" false)); reflexivity.
Defined.

Lemma sample_ids_differ : NoDup (map Badge.id sample_badges).
Proof. apply (bool_decide_unpack _). by vm_compute. Qed.

(** X6 for the sample user, writing explorer and night_owl as unlocked. *)
Lemma badges_written_are_read_back_witness :
  ∃ w1 s w2,
    updateUserStats
      {| Updates.experience := None; Updates.level := None;
         Updates.badges :=
           Some [ Badge.mk "freshman" "Freshman" false; Badge.mk "explorer" "Explorer" true;
                  Badge.mk "scholar" "Scholar" false; Badge.mk "night_owl" "Night Owl" true ];
         Updates.topicsExplored := None; Updates.messagesCount := None |}
      (world_of fresh_row) = (Fulfilled tt, w1) ∧
    getUserStats sample_badges w1 = (Fulfilled s, w2) ∧
    UserStats.badges s =
      [ Badge.mk "freshman" "Freshman" false; Badge.mk "explorer" "Explorer" true;
        Badge.mk "scholar" "Scholar" false; Badge.mk "night_owl" "Night Owl" true ].
Proof.
  destruct (badges_written_are_read_back sample_badges "u1" noon 12 fresh_row
              (world_of fresh_row)
              [ Badge.mk "freshman" "Freshman" false; Badge.mk "explorer" "Explorer" true;
                Badge.mk "scholar" "Scholar" false; Badge.mk "night_owl" "Night Owl" true ])
    as (w1 & s & w2 & Hwrite & Hread & Hbadges & _).
  - apply sample_serving.
  - apply sample_ids_differ.
  - reflexivity.
  - reflexivity.
  - by exists w1, s, w2.
Defined.

(** X7 for the first message of a fresh user, sent at 23:30. *)
Lemma incrementMessageCount_earns_witness :
  ∃ w' r',
    incrementMessageCount sample_badges (night_world_of fresh_row) = (Fulfilled tt, w') ∧
    user_stats w' !! "u1" = Some r' ∧
    Row.total_messages r' = 1 ∧ Row.experience_points r' = 110 ∧ Row.level r' = 2 ∧
    is_unlocked "freshman" r' = true ∧ is_unlocked "night_owl" r' = true ∧
    is_unlocked "explorer" r' = false.
Proof.
  destruct (incrementMessageCount_earns sample_badges "u1" "2024-09-03T23:30:00.000Z" 23
              fresh_row (night_world_of fresh_row))
    as (w' & r' & Hrun & Hw' & Hn & _ & _ & Hxp & Hlv & Hu).
  - repeat split. apply Forall_nil_2.
  - exists w', r'. destruct Hw' as (_ & Hrow & _).
    split_and!; [done..| | | |].
    + rewrite Hlv, Hxp. reflexivity.
    + by rewrite Hu.
    + by rewrite Hu.
    + by rewrite Hu.
Defined.

(** X8 for a user whose one badge has a name that ends in a no-break
    space: it is cut off with the line break and the blanks that end the
    template. *)
Lemma generateUserContextSummary_text_witness :
  ∃ w',
    generateUserContextSummary padded_badges (world_of night_owl_row) =
      (Fulfilled ("User Level: 1" +:+ nl +:+ "Total Messages: 0" +:+ nl
                  +:+ "Topics Explored: None yet" +:+ nl +:+ "Unlocked Badges: Night Owl"),
       w').
Proof.
  destruct (generateUserContextSummary_text padded_badges (world_of night_owl_row))
    as (s & text & w' & Hread & Hrun & Htext & _).
  vm_compute in Hread. injection Hread as <- <-.
  exists (world_of night_owl_row). rewrite Hrun, Htext. reflexivity.
Defined.

(** X9 for the user at 390 points who sends a message on three new topics:
    10 for the message, 50 for explorer, then 50 for scholar. *)
Lemma processUserInteraction_earns_witness :
  ∃ res w' r',
    processUserInteraction sample_badges "hello" ["a"; "b"; "c"] (world_of level4_row)
      = (Fulfilled res, w') ∧
    user_stats w' !! "u1" = Some r' ∧
    Interaction.leveledUp res = true ∧
    Row.total_messages r' = 40 ∧ topics_of r' = ["a"; "b"; "c"] ∧
    Row.experience_points r' = 500 ∧ Row.level r' = 6.
Proof.
  destruct (processUserInteraction_earns sample_badges "u1" noon 12 level4_row
              (world_of level4_row) "hello" ["a"; "b"; "c"] (sample_serving _))
    as (res & w' & r' & Hrun & Hw' & Hn & _ & Ht & Hup & Hx & Hlv & _).
  exists res, w', r'. destruct Hw' as (_ & Hrow & _).
  split_and!.
  - exact Hrun.
  - exact Hrow.
  - rewrite Hup. reflexivity.
  - rewrite Hn. reflexivity.
  - rewrite Ht. reflexivity.
  - rewrite Hx. reflexivity.
  - rewrite Hlv, Hx. reflexivity.
Defined.

(** X11 for a user whose first request is lost: the points stored before
    are replaced by the amount added, the topics by the one given. *)
Lemma write_after_failed_read_witness :
  (∃ s w',
     addExperience sample_badges 10 offline_once_world = (Fulfilled s, w') ∧
     user_stats w' !! "u1" = Some (with_experience 10 level4_row) ∧
     UserStats.experience s = 10) ∧
  (∃ w',
     addExploredTopic sample_badges "a" offline_once_world = (Fulfilled tt, w') ∧
     user_stats w' !! "u1" = Some (with_topics ["a"] level4_row)).
Proof.
  destruct (write_after_failed_read sample_badges "u1" noon 12 level4_row
              offline_once_world "offline" [] 10 "a" eq_refl (sample_serving _))
    as [(s & w1 & Hrun1 & (_ & Hrow1 & _) & Hs & _) (w2 & Hrun2 & (_ & Hrow2 & _) & _)].
  split; [by exists s, w1 | by exists w2].
Defined.

(** X12 for a user 150 points in debt, and for level 7. *)
Lemma levels_agree_on_safe_integers_witness :
  Number.to_Z (Number.calculateLevel (Number.of_Z (-150))) = Some (-1) ∧
  Number.to_Z (Number.calculateNextLevelXP (Number.of_Z 7)) = Some 700.
Proof.
  destruct (levels_agree_on_safe_integers (-150) 7) as (_ & _ & H1 & _ & _ & H2).
  - unfold safe, Number.MAX_SAFE_INTEGER. lia.
  - unfold safe, Number.MAX_SAFE_INTEGER. lia.
  - split; [exact H1|exact H2].
Defined.
